(** * Price aggregation service (price-aggregation-service.js)

    A shallow embedding of [PriceAggregationService]: the per-token price
    and volume histories, the z-score and IQR outlier filters, the VWAP,
    TWAP and weighted-average calculators and the confidence score.

    Conventions of the embedding.
    - A [Decimal] (decimal.js) is an exact rational [Q]; the rounding of
      decimal.js to its working precision is not represented.
    - A JavaScript number that the code obtains with [toNumber()] is read
      as the exact value it denotes, again a [Q].  The only irrational
      operation of the program is [Math.sqrt] inside [standardDeviation];
      its result is a real number [R].
    - [NaN] only arises from arithmetic on [undefined]; a number that may
      be [NaN] is a [jsnum].
    - [Date.now()] is an explicit argument [now], in integer milliseconds;
      timestamps are integers.
    - A thrown exception is the [Err] case of [result]; a method that
      mutates [this] returns the new service value.
    - Console output is not represented.
    - The z-score filter is given a second time on doubles, with the
      rounding error of each floating-point operation explicit
      ([Doubles]).
    - [Math.log] in [selectBestPrice] is the natural logarithm on [R].
    - The outcome of each [axios.get] of the data collector is given by
      a function of the attempt number. *)

From Stdlib Require Import QArith Qabs Qround Reals Qreals Lra Lqa Psatz Lia.
From stdpp Require Import gmap strings list sorting.

(** ** Exceptions *)

Inductive error : Type :=
  | DecimalError                 (* [DecimalError] Invalid argument *)
  | TypeError                    (* property access on undefined *)
  | NoVolumeData                 (* No volume data available for <token> *)
  | NoPriceData                  (* No price data available for <token> *)
  | InsufficientData (n : nat)   (* Insufficient data points for ...: <n> *)
  | AllOutliers                  (* No valid data after outlier removal *)
  | ZeroVolume                   (* Total volume is zero *)
  | ZeroWeight.                  (* Total weight is zero *)

Inductive result (A : Type) : Type :=
  | Ok (a : A)
  | Err (e : error).
Arguments Ok {A} a.
Arguments Err {A} e.

#[global] Instance result_ret : MRet result := fun A a => Ok a.
#[global] Instance result_bind : MBind result := fun A B k r =>
  match r with
  | Ok a => k a
  | Err e => Err e
  end.
#[global] Instance result_fmap : FMap result := fun A B f r =>
  match r with
  | Ok a => Ok (f a)
  | Err e => Err e
  end.

(** ** JavaScript numbers *)

(** A number that can be [NaN]. *)
Inductive jsnum : Type :=
  | NaN
  | Num (x : R).

Definition Rleb (x y : R) : bool := if Rle_dec x y then true else false.
Definition Reqb (x y : R) : bool := if Req_dec_T x y then true else false.

Definition Qltb (x y : Q) : bool := negb (Qle_bool y x).

Definition Qnat (n : nat) : Q := inject_Z (Z.of_nat n).

(** [xs.sort(cmp)]: Array.prototype.sort is stable, so its result is the
    one of a stable insertion sort; [leb a b] stands for [cmp(a, b) <= 0]. *)
Section Sort.
Context {A : Type} (leb : A → A → bool).

Fixpoint insert_sorted (x : A) (l : list A) : list A :=
  match l with
  | [] => [x]
  | y :: l' => if leb x y then x :: y :: l' else y :: insert_sorted x l'
  end.

Definition sort_by (l : list A) : list A := foldr insert_sorted [] l.
End Sort.

(** [xs.filter((d, index) => p(d, index))]. *)
Fixpoint filter_index {A} (p : A → nat → bool) (i : nat) (l : list A) : list A :=
  match l with
  | [] => []
  | x :: l' => if p x i then x :: filter_index p (S i) l'
               else filter_index p (S i) l'
  end.

(** [[...new Set(xs)]]: the distinct elements in order of first occurrence. *)
Fixpoint uniq (seen : list string) (l : list string) : list string :=
  match l with
  | [] => []
  | x :: l' => if bool_decide (x ∈ seen) then uniq seen l'
               else x :: uniq (x :: seen) l'
  end.

(** ** simple-statistics

    The functions of the simple-statistics package that the service
    imports, on exact numbers. *)
Module SimpleStatistics.

(** [sum]: compensated summation, which is the plain sum on exact
    numbers. *)
Definition sum (x : list Q) : Q := fold_left Qplus x 0%Q.

(** [mean(x) = sum(x) / x.length]. *)
Definition mean (x : list Q) : Q := (sum x / Qnat (length x))%Q.

(** [sumNthPowerDeviations(x, 2)]. *)
Definition sumSquaredDeviations (x : list Q) : Q :=
  let meanValue := mean x in
  fold_left (fun s xi => s + (xi - meanValue) * (xi - meanValue))%Q x 0%Q.

(** [variance]: the mean of the squared deviations (population). *)
Definition variance (x : list Q) : Q :=
  (sumSquaredDeviations x / Qnat (length x))%Q.

(** [standardDeviation(x)]: 0 for a single value, else
    [Math.sqrt(variance(x))]. *)
Definition standardDeviation (x : list Q) : R :=
  if (length x =? 1)%nat then 0%R else sqrt (Q2R (variance x)).

(** [quantileSorted(x, p)] for [0 <= p <= 1] and non-empty [x]: with
    [idx = x.length * p], the last element if [p === 1], the first if
    [p === 0], [x[Math.ceil(idx) - 1]] if [idx] is not an integer,
    [(x[idx - 1] + x[idx]) / 2] if the length is even, and [x[idx]]
    otherwise. *)
Definition quantileSorted (x : list Q) (p : Q) : Q :=
  let len := length x in
  let idx := (Qnat len * p)%Q in
  if Qeq_bool p 1 then nth (len - 1) x 0%Q
  else if Qeq_bool p 0 then nth 0 x 0%Q
  else if negb (Qeq_bool (inject_Z (Qfloor idx)) idx)
    then nth (Z.to_nat (Qceiling idx - 1)) x 0%Q
  else if Nat.even len
    then ((nth (Z.to_nat (Qfloor idx) - 1) x 0 + nth (Z.to_nat (Qfloor idx)) x 0) / 2)%Q
  else nth (Z.to_nat (Qfloor idx)) x 0%Q.

(** [quantile(x, p)]: the value [quantileSorted] gives on the sorted
    copy of [x]. *)
Definition quantile (x : list Q) (p : Q) : Q :=
  quantileSorted (sort_by Qle_bool x) p.

(** The mean of an array some of whose entries may be [undefined]:
    [NaN] as soon as one is. *)
Fixpoint numbers (x : list (option Q)) : option (list Q) :=
  match x with
  | [] => Some []
  | None :: _ => None
  | Some v :: x' => cons v <$> numbers x'
  end.

Definition mean_undef (x : list (option Q)) : option Q :=
  mean <$> numbers x.

End SimpleStatistics.
Import SimpleStatistics.

(** ** Configuration *)

Record Config : Type := {
  zScoreThreshold : Q;
  iqrMultiplier : Q;
  minDataPoints : nat;
  maxAge : Z;
  twapWindow : Z;
  twapInterval : Z;
  vwapWindow : Z;
  minVolume : Q;
  maxHistorySize : nat;
  enableLogging : bool
}.

(** The [config] argument of the constructor: every field may be missing. *)
Module RawConfig.
Record t : Type := {
  zScoreThreshold : option Q;
  iqrMultiplier : option Q;
  minDataPoints : option nat;
  maxAge : option Z;
  twapWindow : option Z;
  twapInterval : option Z;
  vwapWindow : option Z;
  minVolume : option Q;
  maxHistorySize : option nat;
  enableLogging : option bool
}.
Definition empty : t := Build_t None None None None None None None None None None.
End RawConfig.

(** [x || d] on numbers: [d] when [x] is missing or zero. *)
Definition orQ (x : option Q) (d : Q) : Q :=
  match x with
  | Some q => if Qeq_bool q 0 then d else q
  | None => d
  end.

Definition orZ (x : option Z) (d : Z) : Z :=
  match x with
  | Some z => if (z =? 0)%Z then d else z
  | None => d
  end.

Definition orNat (x : option nat) (d : nat) : nat :=
  match x with
  | Some n => if (n =? 0)%nat then d else n
  | None => d
  end.

Definition newConfig (config : RawConfig.t) : Config := {|
  zScoreThreshold := orQ (RawConfig.zScoreThreshold config) (5 # 2);
  iqrMultiplier := orQ (RawConfig.iqrMultiplier config) (3 # 2);
  minDataPoints := orNat (RawConfig.minDataPoints config) 3;
  maxAge := orZ (RawConfig.maxAge config) 300000;
  twapWindow := orZ (RawConfig.twapWindow config) 3600000;
  twapInterval := orZ (RawConfig.twapInterval config) 60000;
  vwapWindow := orZ (RawConfig.vwapWindow config) 3600000;
  minVolume := orQ (RawConfig.minVolume config) (1 # 100);
  maxHistorySize := orNat (RawConfig.maxHistorySize config) 1000;
  enableLogging := true  (* [config.enableLogging || true] *)
|}.

(** ** Data points *)

(** A value handed in as [priceData.price] or [priceData.volume]. *)
Inductive value : Type :=
  | Undefined            (* missing, [undefined] or [null] *)
  | Number (q : Q)       (* a number, or a numeric string other than zero's *)
  | Invalid.             (* a truthy value that [new Decimal] rejects,
                            such as the string "abc" *)

Definition truthy (v : value) : bool :=
  match v with
  | Undefined => false
  | Number q => negb (Qeq_bool q 0)
  | Invalid => true
  end.

(** [new Decimal(v)]. *)
Definition Decimal (v : value) : result Q :=
  match v with
  | Number q => Ok q
  | Undefined | Invalid => Err DecimalError
  end.

(** The [priceData] argument of [addPriceData]. *)
Module Raw.
Record t : Type := {
  price : value;
  volume : value;
  timestamp : option Z;
  source : option string;
  metadata : option (list (string * Q))
}.
End Raw.

(** A normalized data point, as [priceHistory] stores it. *)
Record PriceData : Type := {
  price : Q;
  volume : option Q;             (* [null] is [None] *)
  timestamp : Z;
  source : string;
  weight : Q;
  metadata : list (string * Q)
}.

(** An entry of [volumeHistory]: it has no [weight] and no [metadata]. *)
Module Vol.
Record t : Type := {
  volume : Q;
  price : Q;
  timestamp : Z;
  source : string
}.
End Vol.

(** The properties that the outlier filters and the confidence score read
    from a data point of either shape; a property the object lacks reads
    as [undefined]. *)
Class Sample (A : Type) : Type := {
  sample_price : A → Q;
  sample_source : A → string;
  sample_weight : A → option Q
}.

#[global] Instance PriceData_sample : Sample PriceData := {|
  sample_price := price;
  sample_source := source;
  sample_weight := fun d => Some (weight d)
|}.

#[global] Instance Vol_sample : Sample Vol.t := {|
  sample_price := Vol.price;
  sample_source := Vol.source;
  sample_weight := fun _ => None
|}.

(** ** The service *)

Record Stats : Type := {
  totalPricesProcessed : nat;
  outliersDetected : nat;
  vwapCalculations : nat;
  twapCalculations : nat;
  lastUpdate : option Z
}.

Record Service : Type := {
  config : Config;
  priceHistory : gmap string (list PriceData);
  volumeHistory : gmap string (list Vol.t);
  sourceWeights : gmap string Q;
  stats : Stats
}.

Definition set_priceHistory (s : Service) (m : gmap string (list PriceData)) : Service :=
  {| config := config s; priceHistory := m; volumeHistory := volumeHistory s;
     sourceWeights := sourceWeights s; stats := stats s |}.

Definition set_volumeHistory (s : Service) (m : gmap string (list Vol.t)) : Service :=
  {| config := config s; priceHistory := priceHistory s; volumeHistory := m;
     sourceWeights := sourceWeights s; stats := stats s |}.

Definition set_stats (s : Service) (st : Stats) : Service :=
  {| config := config s; priceHistory := priceHistory s;
     volumeHistory := volumeHistory s; sourceWeights := sourceWeights s;
     stats := st |}.

(** [initializeSourceWeights]. *)
Definition initializeSourceWeights : gmap string Q :=
  <["coinbase" := (9 # 10)%Q]>
    (<["binance" := 1%Q]>
      (<["orca" := (8 # 10)%Q]>
        (<["raydium" := (8 # 10)%Q]>
          (<["okx" := 1%Q]> ∅)))).

Definition initialStats : Stats := {|
  totalPricesProcessed := 0;
  outliersDetected := 0;
  vwapCalculations := 0;
  twapCalculations := 0;
  lastUpdate := None
|}.

(** [new PriceAggregationService(config)]. *)
Definition newService (config : RawConfig.t) : Service := {|
  config := newConfig config;
  priceHistory := ∅;
  volumeHistory := ∅;
  sourceWeights := initializeSourceWeights;
  stats := initialStats
|}.

(** [normalizePriceData]. *)
Definition normalizePriceData (s : Service) (priceData : Raw.t) (now : Z)
  : result PriceData :=
  p ← Decimal (if truthy (Raw.price priceData) then Raw.price priceData
               else Number 0);
  v ← (if truthy (Raw.volume priceData)
       then Some <$> Decimal (Raw.volume priceData)
       else Ok None);
  Ok {| price := p;
        volume := v;
        timestamp := orZ (Raw.timestamp priceData) now;
        source := match Raw.source priceData with
                  | Some src => if String.eqb src "" then "unknown" else src
                  | None => "unknown"
                  end;
        weight := orQ (src ← Raw.source priceData; sourceWeights s !! src)
                      (1 # 2);
        metadata := default [] (Raw.metadata priceData) |}.

(** The two steps of [cleanupOldData] on one array: drop what is older
    than [maxAge], then keep the last [maxHistorySize] entries. *)
Definition cleanupArray {A} (ts : A → Z) (cfg : Config) (now : Z) (history : list A)
  : list A :=
  let filtered := List.filter (fun data => (now - ts data <=? maxAge cfg)%Z) history in
  if (maxHistorySize cfg <? length filtered)%nat
  then drop (length filtered - maxHistorySize cfg) filtered
  else filtered.

(** [cleanupOldData]. *)
Definition cleanupOldData (s : Service) (token : string) (now : Z) : Service :=
  let s :=
    match priceHistory s !! token with
    | Some history =>
        set_priceHistory s
          (<[token := cleanupArray timestamp (config s) now history]> (priceHistory s))
    | None => s
    end in
  match volumeHistory s !! token with
  | Some volumeHistory' =>
      set_volumeHistory s
        (<[token := cleanupArray Vol.timestamp (config s) now volumeHistory']>
           (volumeHistory s))
  | None => s
  end.

(** The [try] block of [addPriceData]: the service as the block leaves it
    and the exception it raised, if any. *)
Definition addPriceData_try (s : Service) (token : string) (priceData : Raw.t)
    (now : Z) : Service * option error :=
  match normalizePriceData s priceData now with
  | Err e => (s, Some e)
  | Ok normalizedData =>
      let s :=
        match priceHistory s !! token with
        | Some _ => s
        | None =>
            set_volumeHistory
              (set_priceHistory s (<[token := []]> (priceHistory s)))
              (<[token := []]> (volumeHistory s))
        end in
      let history := default [] (priceHistory s !! token) in
      (* history.push(normalizedData) *)
      let s := set_priceHistory s
                 (<[token := history ++ [normalizedData]]> (priceHistory s)) in
      let pushed :=
        match volume normalizedData with
        | Some v =>
            match volumeHistory s !! token with
            | Some volumeHistory' =>
                Ok (set_volumeHistory s
                      (<[token := volumeHistory' ++
                                  [{| Vol.volume := v;
                                      Vol.price := price normalizedData;
                                      Vol.timestamp := timestamp normalizedData;
                                      Vol.source := source normalizedData |}]]>
                         (volumeHistory s)))
            | None => Err TypeError
            end
        | None => Ok s
        end in
      match pushed with
      | Err e => (s, Some e)
      | Ok s =>
          let s := cleanupOldData s token now in
          let st := stats s in
          (set_stats s
             {| totalPricesProcessed := S (totalPricesProcessed st);
                outliersDetected := outliersDetected st;
                vwapCalculations := vwapCalculations st;
                twapCalculations := twapCalculations st;
                lastUpdate := Some now |},
           None)
      end
  end.

(** [addPriceData]: the [catch] clause logs the exception and returns. *)
Definition addPriceData (s : Service) (token : string) (priceData : Raw.t)
    (now : Z) : Service :=
  fst (addPriceData_try s token priceData now).

(** [clearTokenData]. *)
Definition clearTokenData (s : Service) (token : string) : Service :=
  set_volumeHistory
    (set_priceHistory s (delete token (priceHistory s)))
    (delete token (volumeHistory s)).

(** [clearAllData]. *)
Definition clearAllData (s : Service) : Service :=
  set_stats (set_volumeHistory (set_priceHistory s ∅) ∅) initialStats.

(** ** Outlier filters *)

Section Outliers.
Context {A : Type} `{Sample A}.

(** [removeOutliersZScore(data, values)]; [values[index]] of an index
    past the end is [undefined], and the comparison is then false. *)
Definition removeOutliersZScore (cfg : Config) (data : list A) (values : list Q)
  : list A :=
  if (length values <? 3)%nat then data
  else
    let meanValue := mean values in
    let stdDev := standardDeviation values in
    if Reqb stdDev 0 then data
    else
      filter_index
        (fun _ index =>
           match values !! index with
           | Some v =>
               let zScore := Rabs ((Q2R v - Q2R meanValue) / stdDev) in
               Rleb zScore (Q2R (zScoreThreshold cfg))
           | None => false
           end)
        0 data.

(** [removeOutliersIQR(data, 'price')]. *)
Definition removeOutliersIQR (cfg : Config) (data : list A) : list A :=
  if (length data <? 4)%nat then data
  else
    let values := sort_by Qle_bool (map sample_price data) in
    let q1 := quantile values (1 # 4) in
    let q3 := quantile values (3 # 4) in
    let iqr := (q3 - q1)%Q in
    let lowerBound := (q1 - iqrMultiplier cfg * iqr)%Q in
    let upperBound := (q3 + iqrMultiplier cfg * iqr)%Q in
    List.filter
      (fun d =>
         let value := sample_price d in
         Qle_bool lowerBound value && Qle_bool value upperBound)
      data.

(** [removeOutliers(data, 'price')]: the survivors, and the service with
    its [outliersDetected] counter advanced. *)
Definition removeOutliers (s : Service) (data : list A) : list A * Service :=
  if (length data <? minDataPoints (config s))%nat then (data, s)
  else
    let values := map sample_price data in
    let zScoreFiltered := removeOutliersZScore (config s) data values in
    let iqrFiltered := removeOutliersIQR (config s) zScoreFiltered in
    let outliersRemoved := (length data - length iqrFiltered)%nat in
    let st := stats s in
    (iqrFiltered,
     if (0 <? outliersRemoved)%nat
     then set_stats s
            {| totalPricesProcessed := totalPricesProcessed st;
               outliersDetected := outliersDetected st + outliersRemoved;
               vwapCalculations := vwapCalculations st;
               twapCalculations := twapCalculations st;
               lastUpdate := lastUpdate st |}
     else s).

(** ** Confidence *)

(** [calculateStandardDeviation]. *)
Definition calculateStandardDeviation (values : list Q) : R :=
  if (length values <? 2)%nat then 0%R else standardDeviation values.

(** [calculateConfidence].  [avgWeight] is [NaN] when a data point has
    no [weight], and [Math.min] and [Math.max] then return [NaN]. *)
Definition calculateConfidence (data : list A) : jsnum :=
  if (length data =? 0)%nat then Num 0
  else
    let dataPointsFactor := Rmin (INR (length data) / 10) 1 in
    let sourcesFactor :=
      Rmin (INR (length (uniq [] (map sample_source data))) / 3) 1 in
    let prices := map sample_price data in
    let priceStdDev := calculateStandardDeviation prices in
    let avgPrice := mean prices in
    let consistencyFactor :=
      if Qltb 0 avgPrice then Rmax 0 (1 - priceStdDev / Q2R avgPrice)
      else 0%R in
    match mean_undef (map sample_weight data) with
    | None => NaN
    | Some avgWeight =>
        let weightFactor := Q2R avgWeight in
        let confidence :=
          (dataPointsFactor * (3 / 10) +
           sourcesFactor * (3 / 10) +
           consistencyFactor * (3 / 10) +
           weightFactor * (1 / 10))%R in
        Num (Rmax 0 (Rmin 1 confidence))
    end.
End Outliers.

(** [Math.min(...xs)] and [Math.max(...xs)] of a non-empty array. *)
Definition minimum (xs : list Q) : Q :=
  match xs with
  | [] => 0%Q
  | x :: xs' => fold_left (fun m y => if Qltb y m then y else m) xs' x
  end.

Definition maximum (xs : list Q) : Q :=
  match xs with
  | [] => 0%Q
  | x :: xs' => fold_left (fun m y => if Qltb m y then y else m) xs' x
  end.

(** ** VWAP *)

Module VWAP.
Record t : Type := {
  vwap : Q;
  totalVolume : Q;
  dataPoints : nat;
  outliers : nat;
  timeWindow : Z;
  timestamp : Z;
  sources : list string;
  confidence : jsnum;
  minPrice : Q;
  maxPrice : Q;
  avgVolume : Q
}.
End VWAP.

Definition bump_vwapCalculations (s : Service) : Service :=
  let st := stats s in
  set_stats s
    {| totalPricesProcessed := totalPricesProcessed st;
       outliersDetected := outliersDetected st;
       vwapCalculations := S (vwapCalculations st);
       twapCalculations := twapCalculations st;
       lastUpdate := lastUpdate st |}.

Definition bump_twapCalculations (s : Service) : Service :=
  let st := stats s in
  set_stats s
    {| totalPricesProcessed := totalPricesProcessed st;
       outliersDetected := outliersDetected st;
       vwapCalculations := vwapCalculations st;
       twapCalculations := S (twapCalculations st);
       lastUpdate := lastUpdate st |}.

(** The filter of [calculateVWAP]: inside the window, with a volume of at
    least [minVolume]; [data.volume] is a [Decimal] object, which is
    truthy. *)
Definition vwapRelevant (cfg : Config) (cutoffTime : Z) (volumeHistory : list Vol.t)
  : list Vol.t :=
  List.filter
    (fun data => (cutoffTime <=? Vol.timestamp data)%Z
                 && Qle_bool (minVolume cfg) (Vol.volume data))
    volumeHistory.

(** The accumulation loop of [calculateVWAP]:
    [(totalVolumePrice, totalVolume)]. *)
Definition vwapTotals (cleanData : list Vol.t) : Q * Q :=
  fold_left
    (fun '(totalVolumePrice, totalVolume) data =>
       let volumePrice := (Vol.price data * Vol.volume data)%Q in
       ((totalVolumePrice + volumePrice)%Q, (totalVolume + Vol.volume data)%Q))
    cleanData (0%Q, 0%Q).

(** [calculateVWAP(token, windowMs)].  The [catch] clause rethrows with a
    longer message; the kind of the exception is kept.  The counter that
    [removeOutliers] advanced stays advanced when a later check throws. *)
Definition calculateVWAP (s : Service) (token : string) (windowMs : option Z)
    (now : Z) : result VWAP.t * Service :=
  let windowMs := orZ windowMs (vwapWindow (config s)) in
  let cutoffTime := (now - windowMs)%Z in
  match volumeHistory s !! token with
  | None | Some [] => (Err NoVolumeData, s)
  | Some volumeHistory' =>
      let relevantData := vwapRelevant (config s) cutoffTime volumeHistory' in
      if (length relevantData <? minDataPoints (config s))%nat
      then (Err (InsufficientData (length relevantData)), s)
      else
        let '(cleanData, s) := removeOutliers s relevantData in
        if (length cleanData =? 0)%nat then (Err AllOutliers, s)
        else
          let '(totalVolumePrice, totalVolume) := vwapTotals cleanData in
          if Qeq_bool totalVolume 0 then (Err ZeroVolume, s)
          else
            let vwap := (totalVolumePrice / totalVolume)%Q in
            (Ok {| VWAP.vwap := vwap;
                   VWAP.totalVolume := totalVolume;
                   VWAP.dataPoints := length cleanData;
                   VWAP.outliers := length relevantData - length cleanData;
                   VWAP.timeWindow := windowMs;
                   VWAP.timestamp := now;
                   VWAP.sources := uniq [] (map Vol.source cleanData);
                   VWAP.confidence := calculateConfidence cleanData;
                   VWAP.minPrice := minimum (map Vol.price cleanData);
                   VWAP.maxPrice := maximum (map Vol.price cleanData);
                   VWAP.avgVolume := (totalVolume / Qnat (length cleanData))%Q |},
             bump_vwapCalculations s)
  end.

(** ** TWAP *)

Module TWAP.
Record t : Type := {
  twap : Q;
  dataPoints : nat;
  outliers : nat;
  timeWindow : Z;
  timestamp : Z;
  sources : list string;
  confidence : jsnum;
  minPrice : Q;
  maxPrice : Q;
  priceStdDev : R;
  timeSpread : Z
}.
End TWAP.

(** The filter and sort of [calculateTWAP]. *)
Definition twapRelevant (cutoffTime : Z) (history : list PriceData) : list PriceData :=
  sort_by (fun a b => (timestamp a - timestamp b <=? 0)%Z)
    (List.filter (fun data => (cutoffTime <=? timestamp data)%Z) history).

(** One iteration of the loop of [calculateTWAP], at index [i]. *)
Definition twapStep (cleanData : list PriceData) (now : Z) (acc : Q * Q) (i : nat)
  : Q * Q :=
  let '(weightedSum, totalWeight) := acc in
  match cleanData !! i with
  | None => acc
  | Some current =>
      let timeWeight :=
        if (i =? length cleanData - 1)%nat
        then (now - timestamp current)%Z
        else match cleanData !! S i with
             | Some next => (timestamp next - timestamp current)%Z
             | None => 0%Z
             end in
      let sourceWeight := weight current in
      let finalWeight := (inject_Z timeWeight * sourceWeight)%Q in
      ((weightedSum + price current * finalWeight)%Q, (totalWeight + finalWeight)%Q)
  end.

(** The loop [for (let i = 0; i < cleanData.length; i++)]:
    [(weightedSum, totalWeight)]. *)
Definition twapTotals (cleanData : list PriceData) (now : Z) : Q * Q :=
  fold_left (twapStep cleanData now) (seq 0 (length cleanData)) (0%Q, 0%Q).

(** [calculateTWAP(token, windowMs)]. *)
Definition calculateTWAP (s : Service) (token : string) (windowMs : option Z)
    (now : Z) : result TWAP.t * Service :=
  let windowMs := orZ windowMs (twapWindow (config s)) in
  let cutoffTime := (now - windowMs)%Z in
  match priceHistory s !! token with
  | None | Some [] => (Err NoPriceData, s)
  | Some history =>
      let relevantData := twapRelevant cutoffTime history in
      if (length relevantData <? minDataPoints (config s))%nat
      then (Err (InsufficientData (length relevantData)), s)
      else
        let '(cleanData, s) := removeOutliers s relevantData in
        if (length cleanData =? 0)%nat then (Err AllOutliers, s)
        else
          let '(weightedSum, totalWeight) := twapTotals cleanData now in
          if Qeq_bool totalWeight 0 then (Err ZeroWeight, s)
          else
            let twap := (weightedSum / totalWeight)%Q in
            let prices := map price cleanData in
            (Ok {| TWAP.twap := twap;
                   TWAP.dataPoints := length cleanData;
                   TWAP.outliers := length relevantData - length cleanData;
                   TWAP.timeWindow := windowMs;
                   TWAP.timestamp := now;
                   TWAP.sources := uniq [] (map source cleanData);
                   TWAP.confidence := calculateConfidence cleanData;
                   TWAP.minPrice := minimum prices;
                   TWAP.maxPrice := maximum prices;
                   TWAP.priceStdDev := calculateStandardDeviation prices;
                   TWAP.timeSpread :=
                     (from_option timestamp 0 (last cleanData)
                      - from_option timestamp 0 (head cleanData))%Z |},
             bump_twapCalculations s)
  end.

(** ** Weighted average *)

Module WeightedAverage.
Record t : Type := {
  price : Q;
  dataPoints : nat;
  confidence : jsnum;
  timestamp : Z
}.
End WeightedAverage.

(** The accumulation loop of [calculateWeightedAverage]. *)
Definition weightedTotals (cleanData : list PriceData) : Q * Q :=
  fold_left
    (fun '(weightedSum, totalWeight) data =>
       ((weightedSum + price data * weight data)%Q, (totalWeight + weight data)%Q))
    cleanData (0%Q, 0%Q).

(** [calculateWeightedAverage(token)]; [history.slice(-10)] is the last
    ten entries.  The source divides without a check of [totalWeight]. *)
Definition calculateWeightedAverage (s : Service) (token : string) (now : Z)
  : result WeightedAverage.t * Service :=
  match priceHistory s !! token with
  | None | Some [] => (Err NoPriceData, s)
  | Some history =>
      let recentData := drop (length history - 10) history in
      let '(cleanData, s) := removeOutliers s recentData in
      if (length cleanData =? 0)%nat then (Err AllOutliers, s)
      else
        let '(weightedSum, totalWeight) := weightedTotals cleanData in
        (Ok {| WeightedAverage.price := (weightedSum / totalWeight)%Q;
               WeightedAverage.dataPoints := length cleanData;
               WeightedAverage.confidence := calculateConfidence cleanData;
               WeightedAverage.timestamp := now |},
         s)
  end.

(** ** Active sources and statistics *)

(** [getActiveSources(token)]. *)
Definition getActiveSources (s : Service) (token : string) (now : Z) : list string :=
  match priceHistory s !! token with
  | None => []
  | Some history =>
      let recentData :=
        List.filter (fun d => (now - timestamp d <=? maxAge (config s))%Z) history in
      uniq [] (map source recentData)
  end.

Module ServiceStats.
Record t : Type := {
  stats : Stats;
  activeTokens : nat;
  totalDataPoints : nat;
  totalVolumePoints : nat;
  sourceWeights : gmap string Q;
  config : Config
}.
End ServiceStats.

(** [Array.from(map.values()).reduce((sum, arr) => sum + arr.length, 0)];
    the sum does not depend on the order of the values. *)
Definition totalLength {A} (m : gmap string (list A)) : nat :=
  fold_left (fun sum arr => sum + length arr) (map_to_list m).*2 0.

(** [getStats()]. *)
Definition getStats (s : Service) : ServiceStats.t := {|
  ServiceStats.stats := stats s;
  ServiceStats.activeTokens := size (priceHistory s);
  ServiceStats.totalDataPoints := totalLength (priceHistory s);
  ServiceStats.totalVolumePoints := totalLength (volumeHistory s);
  ServiceStats.sourceWeights := sourceWeights s;
  ServiceStats.config := config s
|}.

(** ** The recommended price *)

(** The calculations that [getAggregatedPrice] collects: each of the six
    properties may be missing. *)
Module Results.
Record t : Type := {
  vwap : option VWAP.t;
  vwapError : option error;
  twap : option TWAP.t;
  twapError : option error;
  weightedAverage : option WeightedAverage.t;
  weightedAverageError : option error
}.
End Results.

Module Candidate.
Record t : Type := {
  type : string;
  price : Q;
  confidence : jsnum;
  dataPoints : nat
}.
End Candidate.

(** What [selectBestPrice] returns. *)
Inductive recommendation : Type :=
  | NoValidPrice             (* { error: 'No valid price calculations available' } *)
  | Best (c : Candidate.t).

Definition Rltb (x y : R) : bool := if Rlt_dec x y then true else false.

(** [c.confidence * Math.log(c.dataPoints + 1)]. *)
Definition score (c : Candidate.t) : jsnum :=
  match Candidate.confidence c with
  | NaN => NaN
  | Num x => Num (x * ln (INR (Candidate.dataPoints c) + 1))
  end.

(** [a > b] on numbers: false when either is [NaN]. *)
Definition jsgt (a b : jsnum) : bool :=
  match a, b with
  | Num x, Num y => Rltb y x
  | _, _ => false
  end.

(** The candidates that [selectBestPrice] collects, in its order. *)
Definition candidates (results : Results.t) : list Candidate.t :=
  (match Results.vwap results, Results.vwapError results with
   | Some r, None =>
       [{| Candidate.type := "vwap";
           Candidate.price := VWAP.vwap r;
           Candidate.confidence := VWAP.confidence r;
           Candidate.dataPoints := VWAP.dataPoints r |}]
   | _, _ => []
   end)
  ++ (match Results.twap results, Results.twapError results with
      | Some r, None =>
          [{| Candidate.type := "twap";
              Candidate.price := TWAP.twap r;
              Candidate.confidence := TWAP.confidence r;
              Candidate.dataPoints := TWAP.dataPoints r |}]
      | _, _ => []
      end)
  ++ (match Results.weightedAverage results, Results.weightedAverageError results with
      | Some r, None =>
          [{| Candidate.type := "weightedAverage";
              Candidate.price := WeightedAverage.price r;
              Candidate.confidence := WeightedAverage.confidence r;
              Candidate.dataPoints := WeightedAverage.dataPoints r |}]
      | _, _ => []
      end).

(** The callback of [candidates.reduce]. *)
Definition better (best current : Candidate.t) : Candidate.t :=
  let bestScore := score best in
  let currentScore := score current in
  if jsgt currentScore bestScore then current else best.

(** [selectBestPrice(results)]; [reduce] without an initial value starts
    from the first candidate. *)
Definition selectBestPrice (results : Results.t) : recommendation :=
  match candidates results with
  | [] => NoValidPrice
  | first :: others => Best (fold_left better others first)
  end.

Module Aggregated.
Record t : Type := {
  token : string;
  timestamp : Z;
  results : Results.t;
  recommendedPrice : recommendation;
  dataPoints : nat;          (* metadata.dataPoints *)
  volumePoints : nat;        (* metadata.volumePoints *)
  sources : list string      (* metadata.sources *)
}.
End Aggregated.

(** The options of [getAggregatedPrice]. *)
Module Options.
Record t : Type := {
  vwapWindow : option Z;
  twapWindow : option Z
}.
Definition empty : t := Build_t None None.
End Options.

(** [getAggregatedPrice(token, options)]: each calculator runs in its own
    [try]; a thrown exception is stored as the error of that calculator. *)
Definition getAggregatedPrice (s : Service) (token : string) (options : Options.t)
    (now : Z) : Aggregated.t * Service :=
  let '(vwap, s) := calculateVWAP s token (Options.vwapWindow options) now in
  let '(twap, s) := calculateTWAP s token (Options.twapWindow options) now in
  let '(weightedAverage, s) := calculateWeightedAverage s token now in
  let results :=
    {| Results.vwap := match vwap with Ok r => Some r | Err _ => None end;
       Results.vwapError := match vwap with Ok _ => None | Err e => Some e end;
       Results.twap := match twap with Ok r => Some r | Err _ => None end;
       Results.twapError := match twap with Ok _ => None | Err e => Some e end;
       Results.weightedAverage :=
         match weightedAverage with Ok r => Some r | Err _ => None end;
       Results.weightedAverageError :=
         match weightedAverage with Ok _ => None | Err e => Some e end |} in
  ({| Aggregated.token := token;
      Aggregated.timestamp := now;
      Aggregated.results := results;
      Aggregated.recommendedPrice := selectBestPrice results;
      Aggregated.dataPoints := from_option length 0 (priceHistory s !! token);
      Aggregated.volumePoints := from_option length 0 (volumeHistory s !! token);
      Aggregated.sources := getActiveSources s token now |},
   s).


(** ** The z-score filter on JavaScript numbers

    [removeOutliersZScore] and [standardDeviation] compute on doubles.
    A floating-point operation returns its exact result times [1 + e];
    the rounding error [e] of the operation is at most 2^-53 in absolute
    value unless the result overflows or underflows.  The errors of the
    operations of one call are the fields of a [Rounding.t], by the index
    of the value that the operation is made for; [meanValue] is the
    number that [mean(values)] returned, whatever its own error is.
    With every error 0 and the exact mean, the definitions below are the
    ones of the exact filter above. *)

Module Rounding.
Record t : Type := {
  sub : nat → R;       (* x[i] - meanValue *)
  mul : nat → R;       (* tempValue * tempValue *)
  add : nat → R;       (* sum += ... *)
  div : R;             (* sumNthPowerDeviations(x, 2) / x.length *)
  root : R;            (* Math.sqrt(v) *)
  quot : nat → R       (* (values[index] - meanValue) / stdDev *)
}.
Definition exact : t :=
  {| sub := fun _ => 0%R; mul := fun _ => 0%R; add := fun _ => 0%R;
     div := 0%R; root := 0%R; quot := fun _ => 0%R |}.
End Rounding.

Module Doubles.

(** [tempValue * tempValue] for the value [xi] at index [i]. *)
Definition square (e : Rounding.t) (meanValue : R) (xi : Q) (i : nat) : R :=
  let tempValue := ((Q2R xi - meanValue) * (1 + Rounding.sub e i))%R in
  (tempValue * tempValue * (1 + Rounding.mul e i))%R.

(** The loop of [sumNthPowerDeviations(x, 2)], from index [i] on with the
    partial sum [sum]. *)
Fixpoint sumNthPowerDeviations (e : Rounding.t) (meanValue : R) (x : list Q)
    (i : nat) (sum : R) : R :=
  match x with
  | [] => sum
  | xi :: x' =>
      sumNthPowerDeviations e meanValue x' (S i)
        ((sum + square e meanValue xi i) * (1 + Rounding.add e i))%R
  end.

(** [variance(x)]. *)
Definition variance (e : Rounding.t) (meanValue : R) (x : list Q) : R :=
  (sumNthPowerDeviations e meanValue x 0 0 / INR (length x)
   * (1 + Rounding.div e))%R.

(** [standardDeviation(x)]. *)
Definition standardDeviation (e : Rounding.t) (meanValue : R) (x : list Q) : R :=
  if (length x =? 1)%nat then 0%R
  else (sqrt (variance e meanValue x) * (1 + Rounding.root e))%R.

(** The [zScore] of the value [v] at [index]; the subtraction is the one
    that [sumNthPowerDeviations] made for that index. *)
Definition zScore (e : Rounding.t) (meanValue stdDev : R) (v : Q) (index : nat)
  : R :=
  Rabs ((Q2R v - meanValue) * (1 + Rounding.sub e index) / stdDev
        * (1 + Rounding.quot e index)).

(** [removeOutliersZScore(data, values)]. *)
Definition removeOutliersZScore {A : Type} (e : Rounding.t) (meanValue : R)
    (cfg : Config) (data : list A) (values : list Q) : list A :=
  if (length values <? 3)%nat then data
  else
    let stdDev := standardDeviation e meanValue values in
    if Reqb stdDev 0 then data
    else
      filter_index
        (fun _ index =>
           match values !! index with
           | Some v =>
               Rleb (zScore e meanValue stdDev v index)
                    (Q2R (zScoreThreshold cfg))
           | None => false
           end)
        0 data.

(** The array that [removeOutliers(data, 'price')] returns; [toNumber] is
    the conversion of a price to a double.  The IQR filter reads the
    converted prices; its quartiles and bounds are the exact ones. *)
Definition removeOutliers {A : Type} `{Sample A} (e : Rounding.t)
    (meanValue : R) (toNumber : Q → Q) (cfg : Config) (data : list A)
  : list A :=
  if (length data <? minDataPoints cfg)%nat then data
  else
    let number := fun d => toNumber (sample_price d) in
    let values := map number data in
    let zScoreFiltered := removeOutliersZScore e meanValue cfg data values in
    @removeOutliersIQR A
      {| sample_price := number; sample_source := sample_source;
         sample_weight := sample_weight |}
      cfg zScoreFiltered.

End Doubles.

(** * Data collector (data-collector.js)

    [makeRequest] is the only loop of the collector.  The outcome of the
    [attempt]-th call of [axios.get] is given by [get attempt]; the
    requests that are made and the delays that are waited are recorded
    in order.  [retryAttempts] is a whole number. *)

Module DataCollector.

(** What [makeRequest] does, step by step. *)
Inductive event : Type :=
  | Request (attempt : nat)      (* await axios.get(url, config) *)
  | Wait (delay : Z).            (* the pause before the next attempt *)

(** How a call of [makeRequest] ends. *)
Inductive completion (Data Error : Type) : Type :=
  | Returned (data : Data)       (* return response.data *)
  | ReturnedUndefined            (* the loop ended: no [return] was reached *)
  | Thrown (error : Error).      (* throw error *)
Arguments Returned {Data Error} data.
Arguments ReturnedUndefined {Data Error}.
Arguments Thrown {Data Error} error.

(** The loop [for (let attempt = ...; attempt <= retryAttempts; attempt++)]
    from [attempt] on, for at most [fuel] iterations. *)
Fixpoint makeRequest_loop {Data Error : Type} (get : nat → Data + Error)
    (retryAttempts attempt fuel : nat) : completion Data Error * list event :=
  match fuel with
  | 0 => (ReturnedUndefined, [])
  | S fuel' =>
      if (attempt <=? retryAttempts)%nat then
        match get attempt with
        | inl data => (Returned data, [Request attempt])
        | inr error =>
            if (attempt =? retryAttempts)%nat
            then (Thrown error, [Request attempt])
            else
              let delay := (2 ^ Z.of_nat attempt * 1000)%Z in
              let '(c, events) :=
                makeRequest_loop get retryAttempts (S attempt) fuel' in
              (c, Request attempt :: Wait delay :: events)
        end
      else (ReturnedUndefined, [])
  end.

(** [makeRequest(url, options)]: the loop runs at most [retryAttempts]
    times. *)
Definition makeRequest {Data Error : Type} (get : nat → Data + Error)
    (retryAttempts : nat) : completion Data Error * list event :=
  makeRequest_loop get retryAttempts 1 retryAttempts.

End DataCollector.

(** * Definitions for the statements *)

(** ** Reachable services *)

(** The services that a program can hold: a new one, and the result of a
    public method on a reachable one. *)
Inductive reachable : Service → Prop :=
  | reachable_new config :
      reachable (newService config)
  | reachable_addPriceData s token priceData now :
      reachable s → reachable (addPriceData s token priceData now)
  | reachable_clearTokenData s token :
      reachable s → reachable (clearTokenData s token)
  | reachable_clearAllData s :
      reachable s → reachable (clearAllData s)
  | reachable_calculateVWAP s token windowMs now :
      reachable s → reachable (snd (calculateVWAP s token windowMs now))
  | reachable_calculateTWAP s token windowMs now :
      reachable s → reachable (snd (calculateTWAP s token windowMs now))
  | reachable_calculateWeightedAverage s token now :
      reachable s → reachable (snd (calculateWeightedAverage s token now)).

(** A token has a price history exactly when it has a volume history:
    the two maps are filled and emptied together. *)
Definition paired (s : Service) : Prop :=
  ∀ token, is_Some (priceHistory s !! token) ↔ is_Some (volumeHistory s !! token).

(** [s'] differs from [s] in its counters at most. *)
Definition same_store (s s' : Service) : Prop :=
  config s' = config s ∧ priceHistory s' = priceHistory s
  ∧ volumeHistory s' = volumeHistory s ∧ sourceWeights s' = sourceWeights s.

(** ** What [addPriceData] stores *)

(** The entry that [addPriceData] pushes on the volume history, if any. *)
Definition volumeEntries (normalizedData : PriceData) : list Vol.t :=
  match volume normalizedData with
  | Some v => [{| Vol.volume := v;
                  Vol.price := price normalizedData;
                  Vol.timestamp := timestamp normalizedData;
                  Vol.source := source normalizedData |}]
  | None => []
  end.

(** The histories of [token] as the [try] block sees them after its first
    statement: both empty when the token is new. *)
Definition histories (s : Service) (token : string) : list PriceData * list Vol.t :=
  match priceHistory s !! token with
  | Some history => (history, default [] (volumeHistory s !! token))
  | None => ([], [])
  end.

(** ** The value of a calculation

    What a calculator returns, or throws, as a function of the
    configuration and of the history that it reads; the counters are left
    aside. *)

(** The data that [removeOutliers] returns. *)
Definition survivors {A} `{Sample A} (cfg : Config) (data : list A) : list A :=
  if (length data <? minDataPoints cfg)%nat then data
  else removeOutliersIQR cfg (removeOutliersZScore cfg data (map sample_price data)).

(** The result of [calculateVWAP]. *)
Definition vwapValue (cfg : Config) (volumeHistory : list Vol.t)
    (windowMs : option Z) (now : Z) : result VWAP.t :=
  let windowMs := orZ windowMs (vwapWindow cfg) in
  match volumeHistory with
  | [] => Err NoVolumeData
  | _ =>
      let relevantData := vwapRelevant cfg (now - windowMs) volumeHistory in
      if (length relevantData <? minDataPoints cfg)%nat
      then Err (InsufficientData (length relevantData))
      else
        let cleanData := survivors cfg relevantData in
        if (length cleanData =? 0)%nat then Err AllOutliers
        else
          if Qeq_bool (vwapTotals cleanData).2 0 then Err ZeroVolume
          else
            Ok {| VWAP.vwap := ((vwapTotals cleanData).1 / (vwapTotals cleanData).2)%Q;
                  VWAP.totalVolume := (vwapTotals cleanData).2;
                  VWAP.dataPoints := length cleanData;
                  VWAP.outliers := length relevantData - length cleanData;
                  VWAP.timeWindow := windowMs;
                  VWAP.timestamp := now;
                  VWAP.sources := uniq [] (map Vol.source cleanData);
                  VWAP.confidence := calculateConfidence cleanData;
                  VWAP.minPrice := minimum (map Vol.price cleanData);
                  VWAP.maxPrice := maximum (map Vol.price cleanData);
                  VWAP.avgVolume :=
                    ((vwapTotals cleanData).2 / Qnat (length cleanData))%Q |}
  end.

(** The result of [calculateTWAP]. *)
Definition twapValue (cfg : Config) (history : list PriceData)
    (windowMs : option Z) (now : Z) : result TWAP.t :=
  let windowMs := orZ windowMs (twapWindow cfg) in
  match history with
  | [] => Err NoPriceData
  | _ =>
      let relevantData := twapRelevant (now - windowMs) history in
      if (length relevantData <? minDataPoints cfg)%nat
      then Err (InsufficientData (length relevantData))
      else
        let cleanData := survivors cfg relevantData in
        if (length cleanData =? 0)%nat then Err AllOutliers
        else
          if Qeq_bool (twapTotals cleanData now).2 0 then Err ZeroWeight
          else
            Ok {| TWAP.twap :=
                    ((twapTotals cleanData now).1 / (twapTotals cleanData now).2)%Q;
                  TWAP.dataPoints := length cleanData;
                  TWAP.outliers := length relevantData - length cleanData;
                  TWAP.timeWindow := windowMs;
                  TWAP.timestamp := now;
                  TWAP.sources := uniq [] (map source cleanData);
                  TWAP.confidence := calculateConfidence cleanData;
                  TWAP.minPrice := minimum (map price cleanData);
                  TWAP.maxPrice := maximum (map price cleanData);
                  TWAP.priceStdDev :=
                    calculateStandardDeviation (map price cleanData);
                  TWAP.timeSpread :=
                    (from_option timestamp 0 (last cleanData)
                     - from_option timestamp 0 (head cleanData))%Z |}
  end.

(** The result of [calculateWeightedAverage]. *)
Definition weightedAverageValue (cfg : Config) (history : list PriceData) (now : Z)
  : result WeightedAverage.t :=
  match history with
  | [] => Err NoPriceData
  | _ =>
      let cleanData := survivors cfg (drop (length history - 10) history) in
      if (length cleanData =? 0)%nat then Err AllOutliers
      else
        Ok {| WeightedAverage.price :=
                ((weightedTotals cleanData).1 / (weightedTotals cleanData).2)%Q;
              WeightedAverage.dataPoints := length cleanData;
              WeightedAverage.confidence := calculateConfidence cleanData;
              WeightedAverage.timestamp := now |}
  end.

(** ** Deciding the z-score test

    [Math.sqrt] leaves the rationals, but the two tests that
    [removeOutliersZScore] makes on the standard deviation are equivalent
    to tests on the variance, which is rational:
    [stdDev === 0] to [variance <= 0], and
    [|v − mean| / stdDev <= threshold] to
    [0 <= threshold] and [(v − mean)² <= threshold² · variance]. *)

(** [removeOutliersZScore] with its two tests made on the variance. *)
Definition removeOutliersZScore_decided {A} (cfg : Config) (data : list A)
    (values : list Q) : list A :=
  if (length values <? 3)%nat then data
  else
    let meanValue := mean values in
    let variance := variance values in
    if Qle_bool variance 0 then data
    else
      filter_index
        (fun _ index =>
           match values !! index with
           | Some v =>
               Qle_bool 0 (zScoreThreshold cfg)
               && Qle_bool ((v - meanValue) * (v - meanValue))
                    (zScoreThreshold cfg * zScoreThreshold cfg * variance)
           | None => false
           end)
        0 data.

(** [survivors] with the z-score tests made on the variance. *)
Definition survivors_decided {A} `{Sample A} (cfg : Config) (data : list A) : list A :=
  if (length data <? minDataPoints cfg)%nat then data
  else removeOutliersIQR cfg
         (removeOutliersZScore_decided cfg data (map sample_price data)).

(** The z-score filter, applied to the prices of the data, as
    [removeOutliers] calls it. *)
Definition zScoreFilter {A} `{Sample A} (cfg : Config) (data : list A) : list A :=
  removeOutliersZScore cfg data (map sample_price data).

(** ** TWAP: the weights of the specification

    The combined weight of each observation, by recursion on the
    snapshot: the time to the next observation, or to [now] for the last
    one, times the source weight. *)

Fixpoint combinedWeights (snapshot : list PriceData) (now : Z) : list Q :=
  match snapshot with
  | [] => []
  | d :: rest =>
      let timeWeight :=
        match rest with
        | [] => (now - timestamp d)%Z
        | next :: _ => (timestamp next - timestamp d)%Z
        end in
      (inject_Z timeWeight * weight d)%Q :: combinedWeights rest now
  end.

Definition sumQ (xs : list Q) : Q := foldr Qplus 0%Q xs.

(** [Σ priceᵢ · combinedWeightᵢ]. *)
Definition weightedPriceSum (snapshot : list PriceData) (now : Z) : Q :=
  sumQ (zip_with (fun d w => (price d * w)%Q) snapshot (combinedWeights snapshot now)).

(** [Σ combinedWeightᵢ]. *)
Definition combinedWeightSum (snapshot : list PriceData) (now : Z) : Q :=
  sumQ (combinedWeights snapshot now).

(** Ascending timestamps. *)
Definition byTime (a b : PriceData) : Prop := (timestamp a ≤ timestamp b)%Z.

(** ** Confidence: the formula of the specification *)

(** The formula, in the words of the specification. *)
Definition confidenceFormula (n distinctSources : nat)
    (priceStdDev priceMean meanSourceWeight : R) : R :=
  (3 / 10 * Rmin (INR n / 10) 1
   + 3 / 10 * Rmin (INR distinctSources / 3) 1
   + 3 / 10 * Rmax 0 (1 - priceStdDev / priceMean)
   + 1 / 10 * meanSourceWeight)%R.

(** The same with a consistency term of 0. *)
Definition confidenceFormula_inconsistent (n distinctSources : nat)
    (meanSourceWeight : R) : R :=
  (3 / 10 * Rmin (INR n / 10) 1
   + 3 / 10 * Rmin (INR distinctSources / 3) 1
   + 1 / 10 * meanSourceWeight)%R.

Definition clamp01 (x : R) : R := Rmax 0 (Rmin 1 x).

(** What [calculateConfidence] returns for data points of the price
    history: a number [c] of [0, 1], given by the formula when the mean
    price is positive and by the formula with a consistency term of 0
    otherwise. *)
Definition confidence_of (data : list PriceData) (confidence : jsnum) : Prop :=
  let n := length data in
  let distinctSources := length (uniq [] (map source data)) in
  let priceStdDev := calculateStandardDeviation (map price data) in
  let priceMean := mean (map price data) in
  let meanSourceWeight := Q2R (mean (map weight data)) in
  ∃ c, confidence = Num c
       ∧ (0 <= c <= 1)%R
       ∧ ((0 < priceMean)%Q →
          c = clamp01 (confidenceFormula n distinctSources priceStdDev
                         (Q2R priceMean) meanSourceWeight))
       ∧ (¬ (0 < priceMean)%Q →
          c = clamp01 (confidenceFormula_inconsistent n distinctSources
                         meanSourceWeight)).

(** ** Sample inputs *)

Definition defaultService : Service := newService RawConfig.empty.

(** [{ price, volume, source, timestamp }]. *)
Definition observation (p : value) (v : value) (src : string) (ts : option Z)
  : Raw.t :=
  {| Raw.price := p; Raw.volume := v; Raw.timestamp := ts;
     Raw.source := Some src; Raw.metadata := None |}.

(** [addPriceData] for each element of an array, all in the millisecond
    [now]. *)
Definition addAll (s : Service) (token : string) (data : list Raw.t) (now : Z)
  : Service :=
  fold_left (fun s priceData => addPriceData s token priceData now) data s.

(** The five observations of the basic VWAP scenario, without timestamps
    of their own. *)
Definition basicVWAPData : list Raw.t :=
  [ observation (Number (17750 # 100)) (Number 1000) "okx" None;
    observation (Number (17745 # 100)) (Number 1500) "binance" None;
    observation (Number (17755 # 100)) (Number 800) "coinbase" None;
    observation (Number (17748 # 100)) (Number 1200) "kraken" None;
    observation (Number (17752 # 100)) (Number 900) "huobi" None ].

(** The volume history that they leave when inserted at [now]. *)
Definition basicVWAPVolumes (now : Z) : list Vol.t :=
  [ {| Vol.volume := 1000; Vol.price := 17750 # 100; Vol.timestamp := now;
       Vol.source := "okx" |};
    {| Vol.volume := 1500; Vol.price := 17745 # 100; Vol.timestamp := now;
       Vol.source := "binance" |};
    {| Vol.volume := 800; Vol.price := 17755 # 100; Vol.timestamp := now;
       Vol.source := "coinbase" |};
    {| Vol.volume := 1200; Vol.price := 17748 # 100; Vol.timestamp := now;
       Vol.source := "kraken" |};
    {| Vol.volume := 900; Vol.price := 17752 # 100; Vol.timestamp := now;
       Vol.source := "huobi" |} ].

(** Five observations one minute apart, from sources of different
    weights (test 4 of the TWAP suite, with [now] = 1000000). *)
Definition weightedTWAPData : list Raw.t :=
  [ observation (Number (17750 # 100)) Undefined "okx" (Some 700000%Z);
    observation (Number (17760 # 100)) Undefined "binance" (Some 760000%Z);
    observation (Number (17745 # 100)) Undefined "raydium" (Some 820000%Z);
    observation (Number (17770 # 100)) Undefined "orca" (Some 880000%Z);
    observation (Number (17755 # 100)) Undefined "coinbase" (Some 940000%Z) ].

Definition weightedTWAPSnapshot : list PriceData :=
  [ {| price := 17750 # 100; volume := None; timestamp := 700000;
       source := "okx"; weight := 1; metadata := [] |};
    {| price := 17760 # 100; volume := None; timestamp := 760000;
       source := "binance"; weight := 1; metadata := [] |};
    {| price := 17745 # 100; volume := None; timestamp := 820000;
       source := "raydium"; weight := 8 # 10; metadata := [] |};
    {| price := 17770 # 100; volume := None; timestamp := 880000;
       source := "orca"; weight := 8 # 10; metadata := [] |};
    {| price := 17755 # 100; volume := None; timestamp := 940000;
       source := "coinbase"; weight := 9 # 10; metadata := [] |} ].

(** Five observations from distinct sources, stamped with the time of
    their insertion. *)
Definition singleTimeData : list Raw.t :=
  [ observation (Number 100) Undefined "okx" None;
    observation (Number 101) Undefined "binance" None;
    observation (Number 102) Undefined "coinbase" None;
    observation (Number 103) Undefined "raydium" None;
    observation (Number 104) Undefined "orca" None ].

Definition singleTimeSnapshot : list PriceData :=
  [ {| price := 100; volume := None; timestamp := 1000;
       source := "okx"; weight := 1; metadata := [] |};
    {| price := 101; volume := None; timestamp := 1000;
       source := "binance"; weight := 1; metadata := [] |};
    {| price := 102; volume := None; timestamp := 1000;
       source := "coinbase"; weight := 9 # 10; metadata := [] |};
    {| price := 103; volume := None; timestamp := 1000;
       source := "raydium"; weight := 8 # 10; metadata := [] |};
    {| price := 104; volume := None; timestamp := 1000;
       source := "orca"; weight := 8 # 10; metadata := [] |} ].

(** A data point inserted without a price, from okx at time 1000. *)
Definition unpriced : PriceData :=
  {| price := 0; volume := None; timestamp := 1000; source := "okx";
     weight := 1; metadata := [] |}.

(** A data point of price [p]. *)
Definition quote (p : Q) : PriceData :=
  {| price := p; volume := None; timestamp := 0; source := "okx";
     weight := 1; metadata := [] |}.

(** Resolves [Rmin], [Rmax] and [clamp01] on numerals. *)
Ltac minmax := unfold clamp01, Rmin, Rmax; repeat destruct (Rle_dec _ _); lra.

(** ** Counters *)

(** [s] with [outliersDetected], [vwapCalculations] and [twapCalculations]
    advanced by the given amounts. *)
Definition advance (s : Service) (outliers vwaps twaps : nat) : Service :=
  let st := stats s in
  set_stats s
    {| totalPricesProcessed := totalPricesProcessed st;
       outliersDetected := outliersDetected st + outliers;
       vwapCalculations := vwapCalculations st + vwaps;
       twapCalculations := twapCalculations st + twaps;
       lastUpdate := lastUpdate st |}.

(** ** Results and exceptions *)

(** The value that a call returned, and the exception that it threw. *)
Definition returned {A} (r : result A) : option A :=
  match r with Ok x => Some x | Err _ => None end.

Definition thrown {A} (r : result A) : option error :=
  match r with Ok _ => None | Err e => Some e end.

(** ** Retries *)

(** The requests of the attempts 1 to [k], with the delay [2^a] seconds
    after each failed attempt [a]. *)
Definition retries (k : nat) : list DataCollector.event :=
  concat (map (fun a => [DataCollector.Request a;
                         DataCollector.Wait (2 ^ Z.of_nat a * 1000)])
              (seq 1 (k - 1)))
  ++ [DataCollector.Request k].

(** The time that a list of events waits. *)
Definition waited (events : list DataCollector.event) : Z :=
  fold_right (fun e total =>
                match e with
                | DataCollector.Request _ => total
                | DataCollector.Wait delay => (delay + total)%Z
                end) 0%Z events.

(** ** Rounding errors *)

(** Every rounding error of the call is at most [ε] in absolute value. *)
Definition bounded (ε : R) (e : Rounding.t) : Prop :=
  (∀ i, (Rabs (Rounding.sub e i) <= ε)%R ∧ (Rabs (Rounding.mul e i) <= ε)%R
        ∧ (Rabs (Rounding.add e i) <= ε)%R ∧ (Rabs (Rounding.quot e i) <= ε)%R)
  ∧ (Rabs (Rounding.div e) <= ε)%R ∧ (Rabs (Rounding.root e) <= ε)%R.

(** The unit roundoff of double precision, 2^-53. *)
Definition unitRoundoff : R := (/ 2 ^ 53)%R.

(** A call all of whose operations round by the unit roundoff. *)
Definition roundedUp : Rounding.t :=
  {| Rounding.sub := fun _ => unitRoundoff;
     Rounding.mul := fun _ => unitRoundoff;
     Rounding.add := fun _ => unitRoundoff;
     Rounding.div := unitRoundoff;
     Rounding.root := unitRoundoff;
     Rounding.quot := fun _ => unitRoundoff |}.

(** The squares that [sumNthPowerDeviations] adds up, from index [i] on. *)
Fixpoint squares (e : Rounding.t) (meanValue : R) (x : list Q) (i : nat)
  : list R :=
  match x with
  | [] => []
  | xi :: x' => Doubles.square e meanValue xi i :: squares e meanValue x' (S i)
  end.

Definition sumR (xs : list R) : R := fold_right Rplus 0%R xs.

(** * Properties *)

(** ** The frame of [clearTokenData] *)

(** C10: [clearTokenData(P)] deletes the price history and the volume
    history of [P]; the histories of every other token, and the counters,
    are unchanged. *)
Theorem clearTokenData_frame (s : Service) (P : string) :
  priceHistory (clearTokenData s P) !! P = None
  ∧ volumeHistory (clearTokenData s P) !! P = None
  ∧ (∀ P' : string, P' ≠ P →
       priceHistory (clearTokenData s P) !! P' = priceHistory s !! P'
       ∧ volumeHistory (clearTokenData s P) !! P' = volumeHistory s !! P')
  ∧ stats (clearTokenData s P) = stats s
  ∧ config (clearTokenData s P) = config s
  ∧ sourceWeights (clearTokenData s P) = sourceWeights s.
Proof.
  unfold clearTokenData; simpl.
  repeat split; try apply lookup_delete_eq.
  - by apply lookup_delete_ne.
  - by apply lookup_delete_ne.
Qed.

Lemma clearTokenData_frame_witness :
  priceHistory
    (clearTokenData
       (addPriceData
          (addPriceData defaultService "SOL/USDC"
             (observation (Number (355 # 2)) (Number 1000) "okx" None) 1000)
          "BTC/USDT" (observation (Number 109751) (Number 2) "binance" None) 1000)
       "SOL/USDC") !! "BTC/USDT"
  = Some [{| price := 109751; volume := Some 2%Q; timestamp := 1000;
             source := "binance"; weight := 1; metadata := [] |}].
Proof.
  destruct (clearTokenData_frame
              (addPriceData
                 (addPriceData defaultService "SOL/USDC"
                    (observation (Number (355 # 2)) (Number 1000) "okx" None) 1000)
                 "BTC/USDT" (observation (Number 109751) (Number 2) "binance" None)
                 1000)
              "SOL/USDC") as (_ & _ & Hother & _).
  destruct (Hother "BTC/USDT") as [Hprice _]; [discriminate|].
  rewrite Hprice. vm_compute. reflexivity.
Defined.

(** ** The arrays that [cleanupOldData] leaves *)

Section CleanupArray.
Context {A : Type} (ts : A → Z) (cfg : Config) (now : Z).

Lemma cleanupArray_length (history : list A) :
  length (cleanupArray ts cfg now history) ≤ maxHistorySize cfg.
Proof.
  unfold cleanupArray.
  destruct (Nat.ltb_spec (maxHistorySize cfg)
              (length (List.filter (λ data, (now - ts data <=? maxAge cfg)%Z) history))).
  - rewrite length_drop. lia.
  - lia.
Qed.

Lemma cleanupArray_suffix (history : list A) :
  cleanupArray ts cfg now history
    `suffix_of` List.filter (λ data, (now - ts data <=? maxAge cfg)%Z) history.
Proof.
  unfold cleanupArray.
  destruct (_ <? _)%nat; [apply suffix_drop | done].
Qed.

Lemma cleanupArray_elem_of (history : list A) (d : A) :
  d ∈ cleanupArray ts cfg now history →
  d ∈ history ∧ (now - ts d ≤ maxAge cfg)%Z.
Proof.
  intros Hd.
  destruct (cleanupArray_suffix history) as [k Hk].
  assert (Hin : In d (List.filter (λ data, (now - ts data <=? maxAge cfg)%Z) history)).
  { rewrite Hk. apply list_elem_of_In, elem_of_app. by right. }
  apply filter_In in Hin as [Hin Hage].
  split; [by apply list_elem_of_In | lia].
Qed.

Lemma cleanupArray_snoc (history : list A) (d : A) :
  (now - ts d ≤ maxAge cfg)%Z → 0 < maxHistorySize cfg →
  ∃ kept, cleanupArray ts cfg now (history ++ [d]) = kept ++ [d]
          ∧ kept `suffix_of` List.filter (λ data, (now - ts data <=? maxAge cfg)%Z) history.
Proof.
  intros Hage Hsize. unfold cleanupArray.
  rewrite List.filter_app. simpl.
  replace (now - ts d <=? maxAge cfg)%Z with true by lia.
  set (kept := List.filter _ history).
  destruct (_ <? _)%nat.
  - exists (drop (length (kept ++ [d]) - maxHistorySize cfg) kept). split.
    + apply drop_app_le. rewrite length_app. simpl. lia.
    + apply suffix_drop.
  - by exists kept.
Qed.

Lemma cleanupArray_stale (history : list A) (d : A) :
  ¬ (now - ts d ≤ maxAge cfg)%Z →
  cleanupArray ts cfg now (history ++ [d]) = cleanupArray ts cfg now history.
Proof.
  intros Hage. unfold cleanupArray.
  rewrite List.filter_app. simpl.
  replace (now - ts d <=? maxAge cfg)%Z with false by lia.
  by rewrite app_nil_r.
Qed.
End CleanupArray.

(** ** [addPriceData], step by step *)

Lemma addPriceData_thrown s token priceData now e :
  normalizePriceData s priceData now = Err e →
  addPriceData s token priceData now = s.
Proof. intros Hn. unfold addPriceData, addPriceData_try. by rewrite Hn. Qed.

Lemma addPriceData_stored s token priceData now normalizedData :
  paired s →
  normalizePriceData s priceData now = Ok normalizedData →
  addPriceData s token priceData now =
    {| config := config s;
       priceHistory :=
         <[token := cleanupArray timestamp (config s) now
                      ((histories s token).1 ++ [normalizedData])]> (priceHistory s);
       volumeHistory :=
         <[token := cleanupArray Vol.timestamp (config s) now
                      ((histories s token).2 ++ volumeEntries normalizedData)]>
           (volumeHistory s);
       sourceWeights := sourceWeights s;
       stats := {| totalPricesProcessed := S (totalPricesProcessed (stats s));
                   outliersDetected := outliersDetected (stats s);
                   vwapCalculations := vwapCalculations (stats s);
                   twapCalculations := twapCalculations (stats s);
                   lastUpdate := Some now |} |}.
Proof.
  intros Hpair Hn.
  unfold addPriceData, addPriceData_try, histories, volumeEntries. rewrite Hn.
  destruct (priceHistory s !! token) as [history|] eqn:Hh.
  - destruct (proj1 (Hpair token)) as [vh Hvh]; [by rewrite Hh|].
    simpl. rewrite Hh, Hvh. simpl.
    destruct (volume normalizedData) as [v|]; simpl.
    + unfold cleanupOldData. simpl.
      rewrite !lookup_insert_eq. simpl. rewrite !lookup_insert_eq.
      unfold set_stats, set_volumeHistory, set_priceHistory. simpl.
      by rewrite !insert_insert_eq.
    + unfold cleanupOldData. simpl.
      rewrite !lookup_insert_eq. simpl. rewrite Hvh.
      unfold set_stats, set_volumeHistory, set_priceHistory. simpl.
      rewrite !insert_insert_eq. by rewrite app_nil_r.
  - simpl. rewrite !lookup_insert_eq. simpl.
    destruct (volume normalizedData) as [v|]; simpl.
    + unfold cleanupOldData. simpl.
      rewrite !lookup_insert_eq. simpl. rewrite !lookup_insert_eq.
      unfold set_stats, set_volumeHistory, set_priceHistory. simpl.
      by rewrite !insert_insert_eq.
    + unfold cleanupOldData. simpl.
      rewrite !lookup_insert_eq. simpl. rewrite !lookup_insert_eq.
      unfold set_stats, set_volumeHistory, set_priceHistory. simpl.
      by rewrite !insert_insert_eq.
Qed.

(** ** What the calculators leave unchanged *)

Lemma same_store_refl s : same_store s s.
Proof. by repeat split. Qed.

Lemma same_store_set_stats s st : same_store s (set_stats s st).
Proof. by repeat split. Qed.

Lemma same_store_trans s1 s2 s3 :
  same_store s1 s2 → same_store s2 s3 → same_store s1 s3.
Proof.
  intros (?&?&?&?) (?&?&?&?). repeat split; congruence.
Qed.

Create HintDb store.
#[local] Hint Resolve same_store_refl same_store_set_stats : store.

Lemma removeOutliers_store {A} `{Sample A} (s : Service) (data : list A) :
  same_store s (removeOutliers s data).2.
Proof.
  unfold removeOutliers.
  destruct (_ <? _)%nat; simpl; [auto with store|].
  destruct (0 <? _)%nat; auto with store.
Qed.

Lemma calculateVWAP_store s token windowMs now :
  same_store s (calculateVWAP s token windowMs now).2.
Proof.
  unfold calculateVWAP. cbv zeta.
  destruct (volumeHistory s !! token) as [[|d vh]|];
    [apply same_store_refl| |apply same_store_refl].
  set (rel := vwapRelevant _ _ _). clearbody rel.
  destruct (_ <? _)%nat; [apply same_store_refl|].
  pose proof (removeOutliers_store s rel) as Hs.
  destruct (removeOutliers s rel) as [cleanData s1]. simpl in Hs.
  destruct (_ =? _)%nat; [exact Hs|].
  destruct (vwapTotals cleanData) as [tvp tv].
  destruct (Qeq_bool tv 0); [exact Hs|].
  eapply same_store_trans; [exact Hs|]. apply same_store_set_stats.
Qed.

Lemma calculateTWAP_store s token windowMs now :
  same_store s (calculateTWAP s token windowMs now).2.
Proof.
  unfold calculateTWAP. cbv zeta.
  destruct (priceHistory s !! token) as [[|d h]|];
    [apply same_store_refl| |apply same_store_refl].
  set (rel := twapRelevant _ _). clearbody rel.
  destruct (_ <? _)%nat; [apply same_store_refl|].
  pose proof (removeOutliers_store s rel) as Hs.
  destruct (removeOutliers s rel) as [cleanData s1]. simpl in Hs.
  destruct (_ =? _)%nat; [exact Hs|].
  destruct (twapTotals cleanData now) as [ws tw].
  destruct (Qeq_bool tw 0); [exact Hs|].
  eapply same_store_trans; [exact Hs|]. apply same_store_set_stats.
Qed.

Lemma calculateWeightedAverage_store s token now :
  same_store s (calculateWeightedAverage s token now).2.
Proof.
  unfold calculateWeightedAverage. cbv zeta.
  destruct (priceHistory s !! token) as [[|d h]|];
    [apply same_store_refl| |apply same_store_refl].
  set (rel := drop _ _). clearbody rel.
  pose proof (removeOutliers_store s rel) as Hs.
  destruct (removeOutliers s rel) as [cleanData s1]. simpl in Hs.
  destruct (_ =? _)%nat; [exact Hs|].
  destruct (weightedTotals cleanData) as [ws tw]. exact Hs.
Qed.

Lemma paired_same_store s s' : same_store s s' → paired s → paired s'.
Proof. intros (_&Hp&Hv&_) Hpair token. rewrite Hp, Hv. apply Hpair. Qed.

Lemma paired_addPriceData s token priceData now :
  paired s → paired (addPriceData s token priceData now).
Proof.
  intros Hpair.
  destruct (normalizePriceData s priceData now) as [nd|e] eqn:Hn.
  - rewrite (addPriceData_stored _ _ _ _ _ Hpair Hn). intros token'. simpl.
    destruct (decide (token = token')) as [->|Hne].
    + rewrite !lookup_insert_eq. split; eauto.
    + rewrite !lookup_insert_ne by done. apply Hpair.
  - by rewrite (addPriceData_thrown _ _ _ _ _ Hn).
Qed.

(** Every reachable service keeps the two maps paired. *)
Lemma reachable_paired s : reachable s → paired s.
Proof.
  induction 1 as [cfg|s token priceData now _ IH|s token _ IH|s _ IH
                 |s token w now _ IH|s token w now _ IH|s token now _ IH].
  - intros token. simpl. rewrite !lookup_empty. split; by intros [? ?].
  - by apply paired_addPriceData.
  - intros token'. unfold clearTokenData. simpl.
    destruct (decide (token = token')) as [->|Hne].
    + rewrite !lookup_delete_eq. split; by intros [? ?].
    + rewrite !lookup_delete_ne by done. apply IH.
  - intros token. simpl. rewrite !lookup_empty. split; by intros [? ?].
  - eapply paired_same_store; [apply calculateVWAP_store | done].
  - eapply paired_same_store; [apply calculateTWAP_store | done].
  - eapply paired_same_store; [apply calculateWeightedAverage_store | done].
Qed.

Lemma reachable_addAll s token data now :
  reachable s → reachable (addAll s token data now).
Proof.
  revert s. induction data as [|d data IH]; intros s Hs; [done|].
  apply IH. by constructor.
Qed.

Lemma addPriceData_config s token priceData now :
  paired s → config (addPriceData s token priceData now) = config s.
Proof.
  intros Hpair.
  destruct (normalizePriceData s priceData now) as [nd|e] eqn:Hn.
  - by rewrite (addPriceData_stored _ _ _ _ _ Hpair Hn).
  - by rewrite (addPriceData_thrown _ _ _ _ _ Hn).
Qed.

(** The configuration of a reachable service is the one that the
    constructor built. *)
Lemma reachable_config s : reachable s → ∃ config', config s = newConfig config'.
Proof.
  induction 1 as [cfg|s token priceData now Hr IH|s token _ IH|s _ IH
                 |s token w now _ IH|s token w now _ IH|s token now _ IH].
  - by exists cfg.
  - by rewrite (addPriceData_config _ _ _ _ (reachable_paired s Hr)).
  - done.
  - done.
  - destruct (calculateVWAP_store s token w now) as (Hc&_). by rewrite Hc.
  - destruct (calculateTWAP_store s token w now) as (Hc&_). by rewrite Hc.
  - destruct (calculateWeightedAverage_store s token now) as (Hc&_). by rewrite Hc.
Qed.

(** [maxHistorySize] is never 0: the constructor replaces 0 by 1000. *)
Lemma reachable_maxHistorySize s : reachable s → 0 < maxHistorySize (config s).
Proof.
  intros Hr. destruct (reachable_config s Hr) as [cfg ->]. simpl.
  unfold orNat. destruct (RawConfig.maxHistorySize cfg) as [n|]; [|lia].
  destruct (Nat.eqb_spec n 0); lia.
Qed.

(** ** [addPriceData] never throws and fails atomically *)

Lemma normalizePriceData_throws s priceData now :
  (∃ e, normalizePriceData s priceData now = Err e)
  ↔ Raw.price priceData = Invalid ∨ Raw.volume priceData = Invalid.
Proof.
  unfold normalizePriceData.
  destruct (Raw.price priceData) as [|p|], (Raw.volume priceData) as [|v|];
    simpl; try destruct (negb (Qeq_bool p 0)); try destruct (negb (Qeq_bool v 0));
    simpl; split; intros Hx;
    try (destruct Hx as [e He]; discriminate He);
    try (destruct Hx as [Hx|Hx]; discriminate Hx);
    eauto.
Qed.

(** C8: [addPriceData] is a total function of the service: the exception
    that its [try] block raises is dropped by the [catch] clause.
    Normalization throws exactly when the price or the volume is a value
    that [new Decimal] rejects, and the call then returns the service as
    it was: every price history, every volume history and the counters
    [totalPricesProcessed] and [lastUpdate] are unchanged. *)
Theorem addPriceData_atomic (s : Service) (token : string) (priceData : Raw.t)
    (now : Z) :
  Raw.price priceData = Invalid ∨ Raw.volume priceData = Invalid →
  (∃ e, normalizePriceData s priceData now = Err e
        ∧ addPriceData_try s token priceData now = (s, Some e))
  ∧ addPriceData s token priceData now = s
  ∧ priceHistory (addPriceData s token priceData now) = priceHistory s
  ∧ volumeHistory (addPriceData s token priceData now) = volumeHistory s
  ∧ totalPricesProcessed (stats (addPriceData s token priceData now))
    = totalPricesProcessed (stats s)
  ∧ lastUpdate (stats (addPriceData s token priceData now)) = lastUpdate (stats s).
Proof.
  intros Hbad.
  apply normalizePriceData_throws with (s := s) (now := now) in Hbad as [e He].
  rewrite (addPriceData_thrown _ _ _ _ _ He).
  split; [|done].
  exists e. split; [done|].
  unfold addPriceData_try. by rewrite He.
Qed.

Lemma addPriceData_atomic_witness :
  addPriceData
    (addPriceData defaultService "SOL/USDC"
       (observation (Number (355 # 2)) (Number 1000) "okx" None) 1000)
    "SOL/USDC" (observation Invalid (Number 1000) "binance" None) 2000
  = addPriceData defaultService "SOL/USDC"
      (observation (Number (355 # 2)) (Number 1000) "okx" None) 1000.
Proof.
  apply (addPriceData_atomic
           (addPriceData defaultService "SOL/USDC"
              (observation (Number (355 # 2)) (Number 1000) "okx" None) 1000)
           "SOL/USDC" (observation Invalid (Number 1000) "binance" None) 2000).
  left. reflexivity.
Defined.

(** ** The value of a calculation *)

Lemma removeOutliers_fst {A} `{Sample A} (s : Service) (data : list A) :
  (removeOutliers s data).1 = survivors (config s) data.
Proof. unfold removeOutliers, survivors. by destruct (_ <? _)%nat. Qed.

Lemma calculateVWAP_value s token windowMs now :
  (calculateVWAP s token windowMs now).1
  = vwapValue (config s) (default [] (volumeHistory s !! token)) windowMs now.
Proof.
  unfold calculateVWAP, vwapValue. cbv zeta.
  destruct (volumeHistory s !! token) as [[|d vh]|]; try done.
  simpl default.
  set (rel := vwapRelevant _ _ _). clearbody rel.
  destruct (_ <? _)%nat; [done|].
  rewrite <- removeOutliers_fst.
  destruct (removeOutliers s rel) as [cleanData s1]. simpl.
  destruct (_ =? _)%nat; [done|].
  destruct (vwapTotals cleanData) as [tvp tv]. simpl.
  by destruct (Qeq_bool tv 0).
Qed.

Lemma calculateTWAP_value s token windowMs now :
  (calculateTWAP s token windowMs now).1
  = twapValue (config s) (default [] (priceHistory s !! token)) windowMs now.
Proof.
  unfold calculateTWAP, twapValue. cbv zeta.
  destruct (priceHistory s !! token) as [[|d h]|]; try done.
  simpl default.
  set (rel := twapRelevant _ _). clearbody rel.
  destruct (_ <? _)%nat; [done|].
  rewrite <- removeOutliers_fst.
  destruct (removeOutliers s rel) as [cleanData s1]. simpl.
  destruct (_ =? _)%nat; [done|].
  destruct (twapTotals cleanData now) as [ws tw]. simpl.
  by destruct (Qeq_bool tw 0).
Qed.

Lemma calculateWeightedAverage_value s token now :
  (calculateWeightedAverage s token now).1
  = weightedAverageValue (config s) (default [] (priceHistory s !! token)) now.
Proof.
  unfold calculateWeightedAverage, weightedAverageValue. cbv zeta.
  destruct (priceHistory s !! token) as [[|d h]|]; try done.
  simpl default.
  set (rel := drop _ _). clearbody rel.
  rewrite <- removeOutliers_fst.
  destruct (removeOutliers s rel) as [cleanData s1]. simpl.
  destruct (_ =? _)%nat; [done|].
  by destruct (weightedTotals cleanData) as [ws tw].
Qed.

(** ** The filters only remove *)

Lemma filter_index_sublist {A} (p : A → nat → bool) (i : nat) (l : list A) :
  filter_index p i l `sublist_of` l.
Proof.
  revert i. induction l as [|x l IH]; intros i; simpl; [constructor|].
  destruct (p x i); [apply sublist_skip | apply sublist_cons]; apply IH.
Qed.

Lemma filter_sublist {A} (p : A → bool) (l : list A) :
  List.filter p l `sublist_of` l.
Proof.
  induction l as [|x l IH]; simpl; [constructor|].
  destruct (p x); [by apply sublist_skip | by apply sublist_cons].
Qed.

Lemma removeOutliersZScore_sublist {A} (cfg : Config) (data : list A) values :
  removeOutliersZScore cfg data values `sublist_of` data.
Proof.
  unfold removeOutliersZScore.
  destruct (_ <? _)%nat; [done|].
  destruct (Reqb _ _); [done|]. apply filter_index_sublist.
Qed.

Lemma removeOutliersIQR_sublist {A} `{Sample A} (cfg : Config) (data : list A) :
  removeOutliersIQR cfg data `sublist_of` data.
Proof.
  unfold removeOutliersIQR.
  destruct (_ <? _)%nat; [done|]. apply filter_sublist.
Qed.

Lemma survivors_sublist {A} `{Sample A} (cfg : Config) (data : list A) :
  survivors cfg data `sublist_of` data.
Proof.
  unfold survivors. destruct (_ <? _)%nat; [done|].
  etransitivity; [apply removeOutliersIQR_sublist|].
  apply removeOutliersZScore_sublist.
Qed.




(** ** The bounds of the stored histories *)

Lemma cleanupArray_Forall {A} (ts : A → Z) cfg now (history : list A) :
  Forall (λ d, (now - ts d ≤ maxAge cfg)%Z) (cleanupArray ts cfg now history).
Proof.
  apply Forall_forall. intros d Hd.
  by apply cleanupArray_elem_of in Hd as [_ Hd].
Qed.

(** C5, as the code has it: after [addPriceData(P, O)] with an [O] that
    normalizes, no stored observation of [P] (price or volume history) is
    older than [now - maxAge]; each history holds at most [maxHistorySize]
    entries and is a suffix of what survived the age filter, so the oldest
    go first; and the last entry of the price history is [O] provided that
    [O] itself is not older than [maxAge].  An [O] older than [maxAge] is
    purged by its own insert. *)
Theorem addPriceData_history_bounds (s : Service) (P : string) (O : Raw.t)
    (now : Z) (normalizedData : PriceData) :
  reachable s →
  normalizePriceData s O now = Ok normalizedData →
  ∃ history' volumeHistory',
    priceHistory (addPriceData s P O now) !! P = Some history'
    ∧ volumeHistory (addPriceData s P O now) !! P = Some volumeHistory'
    ∧ ((now - timestamp normalizedData ≤ maxAge (config s))%Z →
       last history' = Some normalizedData)
    ∧ (¬ (now - timestamp normalizedData ≤ maxAge (config s))%Z →
       history' = cleanupArray timestamp (config s) now (histories s P).1)
    ∧ Forall (λ d, (now - timestamp d ≤ maxAge (config s))%Z) history'
    ∧ Forall (λ d, (now - Vol.timestamp d ≤ maxAge (config s))%Z) volumeHistory'
    ∧ length history' ≤ maxHistorySize (config s)
    ∧ length volumeHistory' ≤ maxHistorySize (config s)
    ∧ history' `suffix_of`
        List.filter (λ d, (now - timestamp d <=? maxAge (config s))%Z)
          ((histories s P).1 ++ [normalizedData])
    ∧ volumeHistory' `suffix_of`
        List.filter (λ d, (now - Vol.timestamp d <=? maxAge (config s))%Z)
          ((histories s P).2 ++ volumeEntries normalizedData).
Proof.
  intros Hr Hn.
  rewrite (addPriceData_stored _ _ _ _ _ (reachable_paired s Hr) Hn). simpl.
  rewrite !lookup_insert_eq.
  eexists _, _. split; [reflexivity|]. split; [reflexivity|].
  split; [|split; [|repeat split]].
  - intros Hage.
    destruct (cleanupArray_snoc timestamp (config s) now (histories s P).1
                normalizedData Hage (reachable_maxHistorySize s Hr))
      as (kept & -> & _).
    apply last_snoc.
  - apply cleanupArray_stale.
  - apply cleanupArray_Forall.
  - apply cleanupArray_Forall.
  - apply cleanupArray_length.
  - apply cleanupArray_length.
  - apply cleanupArray_suffix.
  - apply cleanupArray_suffix.
Qed.

Lemma addPriceData_history_bounds_witness :
  ∃ history',
    priceHistory
      (addPriceData defaultService "SOL/USDC"
         (observation (Number (355 # 2)) (Number 1000) "okx" (Some 700%Z)) 1000)
      !! "SOL/USDC" = Some history'
    ∧ last history'
      = Some {| price := 355 # 2; volume := Some 1000%Q; timestamp := 700;
                source := "okx"; weight := 1; metadata := [] |}.
Proof.
  destruct (addPriceData_history_bounds defaultService "SOL/USDC"
              (observation (Number (355 # 2)) (Number 1000) "okx" (Some 700%Z)) 1000
              {| price := 355 # 2; volume := Some 1000%Q; timestamp := 700;
                 source := "okx"; weight := 1; metadata := [] |})
    as (history' & vh' & Hh & _ & Hlast & _).
  - apply reachable_new.
  - vm_compute. reflexivity.
  - exists history'. split; [exact Hh|].
    apply Hlast. vm_compute. discriminate.
Defined.

(** C5 as stated fails for an observation that is itself older than
    [maxAge]: it is purged by the very insert, and the last stored
    observation is the previous one. *)
Lemma addPriceData_stale_not_last :
  let s1 := addPriceData defaultService "SOL/USDC"
              (observation (Number (355 # 2)) Undefined "okx" (Some 1000%Z)) 1000 in
  let O := observation (Number (1776 # 10)) Undefined "binance" (Some 500%Z) in
  let s2 := addPriceData s1 "SOL/USDC" O 301000 in
  ∃ normalizedData,
    normalizePriceData s1 O 301000 = Ok normalizedData
    ∧ map source (default [] (priceHistory s2 !! "SOL/USDC")) = ["okx"]
    ∧ last (default [] (priceHistory s2 !! "SOL/USDC")) ≠ Some normalizedData.
Proof.
  eexists. split; [vm_compute; reflexivity|].
  split; [vm_compute; reflexivity|].
  vm_compute. discriminate.
Qed.

(** ** The volume history and the volume floor *)

Lemma normalizePriceData_volume s priceData now normalizedData v :
  normalizePriceData s priceData now = Ok normalizedData →
  volume normalizedData = Some v →
  Raw.volume priceData = Number v ∧ ¬ (v == 0)%Q.
Proof.
  unfold normalizePriceData. intros Hn Hv.
  destruct (Raw.price priceData) as [|p|]; simpl in Hn;
    try destruct (negb (Qeq_bool p 0)); simpl in Hn; try done;
    (destruct (Raw.volume priceData) as [|q|]; simpl in Hn;
     [injection Hn as <-; done | | done]);
    (destruct (Qeq_bool q 0) eqn:Hq; simpl in Hn; injection Hn as <-;
     simpl in Hv; [done|]; injection Hv as ->; split; [done|];
     intros Hz; apply Qeq_bool_iff in Hz; congruence).
Qed.

Lemma vwapRelevant_floor cfg cutoffTime volumeHistory d :
  d ∈ vwapRelevant cfg cutoffTime volumeHistory →
  d ∈ volumeHistory ∧ (cutoffTime ≤ Vol.timestamp d)%Z
  ∧ (minVolume cfg <= Vol.volume d)%Q.
Proof.
  unfold vwapRelevant. intros Hd.
  apply list_elem_of_In, filter_In in Hd as [Hd Hp].
  apply andb_prop in Hp as [Ht Hq].
  split; [by apply list_elem_of_In|]. split; [lia|].
  by apply Qle_bool_iff.
Qed.

(** What a successful [calculateVWAP] was computed from. *)
Lemma vwapValue_Ok cfg volumeHistory windowMs now r :
  vwapValue cfg volumeHistory windowMs now = Ok r →
  let relevantData :=
    vwapRelevant cfg (now - orZ windowMs (vwapWindow cfg)) volumeHistory in
  let cleanData := survivors cfg relevantData in
  minDataPoints cfg ≤ length relevantData
  ∧ cleanData ≠ []
  ∧ ¬ ((vwapTotals cleanData).2 == 0)%Q
  ∧ VWAP.vwap r = ((vwapTotals cleanData).1 / (vwapTotals cleanData).2)%Q
  ∧ VWAP.totalVolume r = (vwapTotals cleanData).2
  ∧ VWAP.dataPoints r = length cleanData
  ∧ VWAP.outliers r = length relevantData - length cleanData
  ∧ VWAP.confidence r = calculateConfidence cleanData.
Proof.
  unfold vwapValue. cbv zeta.
  destruct volumeHistory as [|d vh]; [done|].
  set (rel := vwapRelevant _ _ _). clearbody rel.
  destruct (Nat.ltb_spec (length rel) (minDataPoints cfg)); [done|].
  destruct (survivors cfg rel) as [|c clean] eqn:Hclean; [done|].
  simpl length. simpl Nat.eqb.
  destruct (Qeq_bool _ 0) eqn:Hz; [done|].
  intros [= <-]. simpl.
  repeat split; try done.
  intros Hq. apply Qeq_bool_iff in Hq. congruence.
Qed.

Lemma reachable_volume_nonzero s :
  reachable s →
  ∀ token vh d, volumeHistory s !! token = Some vh → d ∈ vh →
                ¬ (Vol.volume d == 0)%Q.
Proof.
  induction 1 as [cfg|s token priceData now Hr IH|s token _ IH|s _ IH
                 |s token w now _ IH|s token w now _ IH|s token now _ IH];
    intros token' vh d Hvh Hd.
  - simpl in Hvh. by rewrite lookup_empty in Hvh.
  - destruct (normalizePriceData s priceData now) as [nd|e] eqn:Hn.
    + rewrite (addPriceData_stored _ _ _ _ _ (reachable_paired s Hr) Hn) in Hvh.
      simpl in Hvh.
      destruct (decide (token = token')) as [->|Hne].
      * rewrite lookup_insert_eq in Hvh. injection Hvh as <-.
        apply cleanupArray_elem_of in Hd as [Hd _].
        apply elem_of_app in Hd as [Hd|Hd].
        -- unfold histories in Hd.
           destruct (priceHistory s !! token'); [|by apply elem_of_nil in Hd].
           simpl in Hd.
           destruct (volumeHistory s !! token') as [vh|] eqn:Hvh;
             [|by apply elem_of_nil in Hd].
           by apply (IH token' vh d).
        -- unfold volumeEntries in Hd.
           destruct (volume nd) as [v|] eqn:Hv; [|by apply elem_of_nil in Hd].
           apply list_elem_of_singleton in Hd as ->. simpl.
           by destruct (normalizePriceData_volume _ _ _ _ _ Hn Hv).
      * rewrite lookup_insert_ne in Hvh by done. by apply (IH token' vh d).
    + rewrite (addPriceData_thrown _ _ _ _ _ Hn) in Hvh. by apply (IH token' vh d).
  - unfold clearTokenData in Hvh. simpl in Hvh.
    apply lookup_delete_Some in Hvh as [_ Hvh]. by apply (IH token' vh d).
  - simpl in Hvh. by rewrite lookup_empty in Hvh.
  - destruct (calculateVWAP_store s token w now) as (_&_&Hv&_).
    rewrite Hv in Hvh. by apply (IH token' vh d).
  - destruct (calculateTWAP_store s token w now) as (_&_&Hv&_).
    rewrite Hv in Hvh. by apply (IH token' vh d).
  - destruct (calculateWeightedAverage_store s token now) as (_&_&Hv&_).
    rewrite Hv in Hvh. by apply (IH token' vh d).
Qed.

(** C2, as the code has it: the volume history of a reachable service
    holds the retained observations whose volume is present and not zero;
    [addPriceData] appends every such observation, whatever [minVolume]
    is.  The floor is applied when the history is read: the data points
    that a successful [calculateVWAP] averages all have a volume of at
    least [minVolume]. *)
Theorem volume_floor_applied_by_calculateVWAP (s : Service) :
  reachable s →
  (∀ token vh d, volumeHistory s !! token = Some vh → d ∈ vh →
                 ¬ (Vol.volume d == 0)%Q)
  ∧ (∀ token priceData now normalizedData v,
       normalizePriceData s priceData now = Ok normalizedData →
       volume normalizedData = Some v →
       volumeHistory (addPriceData s token priceData now) !! token
       = Some (cleanupArray Vol.timestamp (config s) now
                 ((histories s token).2 ++
                  [{| Vol.volume := v;
                      Vol.price := price normalizedData;
                      Vol.timestamp := timestamp normalizedData;
                      Vol.source := source normalizedData |}])))
  ∧ (∀ token windowMs now r,
       (calculateVWAP s token windowMs now).1 = Ok r →
       ∃ cleanData,
         cleanData `sublist_of` default [] (volumeHistory s !! token)
         ∧ Forall (λ d, (minVolume (config s) <= Vol.volume d)%Q) cleanData
         ∧ VWAP.dataPoints r = length cleanData
         ∧ VWAP.totalVolume r = (vwapTotals cleanData).2
         ∧ VWAP.vwap r = ((vwapTotals cleanData).1 / (vwapTotals cleanData).2)%Q).
Proof.
  intros Hr. split; [by apply reachable_volume_nonzero|]. split.
  - intros token priceData now nd v Hn Hv.
    rewrite (addPriceData_stored _ _ _ _ _ (reachable_paired s Hr) Hn). simpl.
    rewrite lookup_insert_eq. unfold volumeEntries. by rewrite Hv.
  - intros token windowMs now r Hok.
    rewrite calculateVWAP_value in Hok.
    apply vwapValue_Ok in Hok as (_ & _ & _ & Hvwap & Htv & Hdp & _).
    eexists. split; [|split; [|by eauto]].
    + etransitivity; [apply survivors_sublist|]. apply filter_sublist.
    + apply Forall_forall. intros d Hd.
      eapply elem_of_sublist in Hd; [|apply survivors_sublist].
      by apply vwapRelevant_floor in Hd as (_ & _ & Hd).
Qed.

Lemma volume_floor_applied_by_calculateVWAP_witness :
  let s := addPriceData defaultService "SOL/USDC"
             (observation (Number (17755 # 100)) (Number 800) "coinbase" None) 1000 in
  ¬ (Vol.volume {| Vol.volume := 800; Vol.price := 17755 # 100;
                   Vol.timestamp := 1000; Vol.source := "coinbase" |} == 0)%Q.
Proof.
  intros s.
  apply (proj1 (volume_floor_applied_by_calculateVWAP s
                  (reachable_addPriceData _ _ _ _ (reachable_new RawConfig.empty)))
           "SOL/USDC"
           [{| Vol.volume := 800; Vol.price := 17755 # 100;
               Vol.timestamp := 1000; Vol.source := "coinbase" |}]).
  - vm_compute. reflexivity.
  - apply list_elem_of_singleton. reflexivity.
Defined.

(** C2 as stated fails: an observation whose volume is positive and below
    [minVolume] is appended to the volume history. *)
Lemma low_volume_is_stored :
  let s := addPriceData defaultService "SOL/USDC"
             (observation (Number (17755 # 100)) (Number (5 # 1000)) "low_volume2" None)
             1000 in
  ∃ d, volumeHistory s !! "SOL/USDC" = Some [d]
       ∧ (0 < Vol.volume d)%Q
       ∧ (Vol.volume d < minVolume (config s))%Q.
Proof.
  eexists. split; [vm_compute; reflexivity|].
  split; vm_compute; reflexivity.
Qed.

(** ** Deciding the z-score test *)

Lemma Reqb_sqrt (q : Q) : Reqb (sqrt (Q2R q)) 0 = Qle_bool q 0.
Proof.
  unfold Reqb. destruct (Req_dec_T _ _) as [Hz|Hnz].
  - symmetry. apply Qle_bool_iff.
    destruct (Qlt_le_dec 0 q) as [Hpos|Hle]; [|done].
    apply Qlt_Rlt in Hpos. rewrite RMicromega.Q2R_0 in Hpos.
    apply sqrt_lt_R0 in Hpos. lra.
  - destruct (Qle_bool q 0) eqn:Hq; [|done].
    apply Qle_bool_iff, Qle_Rle in Hq. rewrite RMicromega.Q2R_0 in Hq.
    by apply sqrt_neg_0 in Hq.
Qed.

Lemma Rabs_div_sqrt (a x : R) :
  (0 < x)%R → Rabs (a / sqrt x) = (Rabs a / sqrt x)%R.
Proof.
  intros Hx. pose proof (sqrt_lt_R0 x Hx) as Hs.
  unfold Rdiv. rewrite Rabs_mult, Rabs_inv.
  by rewrite (Rabs_pos_eq (sqrt x)) by lra.
Qed.

Lemma Rle_scaled_iff (a b sd V T : R) :
  (0 < sd)%R → (sd * sd = V)%R → (b * b = a * a)%R → (0 <= b)%R →
  (b <= T * sd)%R ↔ (0 <= T)%R ∧ (a * a <= T * T * V)%R.
Proof.
  intros Hs Hss Hb2 Hb. split.
  - intros Hle. assert (Ht : (0 <= T)%R).
    { destruct (Rle_lt_dec 0 T) as [Ht|Ht]; [exact Ht|]. exfalso. nra. }
    split; [exact Ht|]. subst V. rewrite <- Hb2.
    replace (T * T * (sd * sd))%R with ((T * sd) * (T * sd))%R by ring.
    apply Rmult_le_compat; lra.
  - intros [Ht Hle].
    destruct (Rle_lt_dec b (T * sd)) as [H|H]; [exact H|]. exfalso.
    assert (H0 : (0 <= T * sd)%R) by (apply Rmult_le_pos; lra).
    pose proof (Rmult_le_0_lt_compat _ _ _ _ H0 H0 H H) as Hsq.
    subst V.
    replace (T * T * (sd * sd))%R with ((T * sd) * (T * sd))%R in Hle by ring.
    lra.
Qed.

Lemma zScore_decide (v meanValue variance threshold : Q) :
  ¬ (variance <= 0)%Q →
  Rleb (Rabs ((Q2R v - Q2R meanValue) / sqrt (Q2R variance))) (Q2R threshold)
  = Qle_bool 0 threshold
    && Qle_bool ((v - meanValue) * (v - meanValue)) (threshold * threshold * variance).
Proof.
  intros Hvar. apply Qnot_le_lt, Qlt_Rlt in Hvar.
  rewrite RMicromega.Q2R_0 in Hvar.
  pose proof (sqrt_lt_R0 _ Hvar) as Hs.
  pose proof (sqrt_sqrt (Q2R variance) ltac:(lra)) as Hss.
  rewrite (Rabs_div_sqrt _ _ Hvar).
  set (a := (Q2R v - Q2R meanValue)%R).
  assert (Ha2 : (Rabs a * Rabs a = a * a)%R).
  { unfold Rabs. destruct (Rcase_abs a); lra. }
  pose proof (Rabs_pos a) as Ha.
  assert (Hmul : (Rabs a / sqrt (Q2R variance) <= Q2R threshold)%R
                 ↔ (Rabs a <= Q2R threshold * sqrt (Q2R variance))%R).
  { split; intros Hle.
    - apply (Rmult_le_compat_r (sqrt (Q2R variance))) in Hle; [|lra].
      unfold Rdiv in Hle. rewrite Rmult_assoc, Rinv_l in Hle by lra. lra.
    - apply (Rmult_le_reg_r (sqrt (Q2R variance))); [done|].
      unfold Rdiv. rewrite Rmult_assoc, Rinv_l by lra. lra. }
  pose proof (Rle_scaled_iff a (Rabs a) _ _ (Q2R threshold) Hs Hss Ha2 Ha) as Hiff.
  rewrite <- Hmul in Hiff.
  unfold Rleb. destruct (Rle_dec _ _) as [Hle|Hnle].
  - apply Hiff in Hle as [Ht Hle]. symmetry. apply andb_true_intro. split.
    + apply Qle_bool_iff, Rle_Qle. by rewrite RMicromega.Q2R_0.
    + apply Qle_bool_iff, Rle_Qle.
      by rewrite !Q2R_mult, !Q2R_minus.
  - symmetry. apply not_true_is_false. intros Hb.
    apply andb_prop in Hb as [Ht Hle]. apply Hnle, Hiff. split.
    + apply Qle_bool_iff, Qle_Rle in Ht. by rewrite RMicromega.Q2R_0 in Ht.
    + apply Qle_bool_iff, Qle_Rle in Hle.
      by rewrite !Q2R_mult, !Q2R_minus in Hle.
Qed.

Lemma filter_index_ext {A} (p q : A → nat → bool) (i : nat) (l : list A) :
  (∀ x j, p x j = q x j) → filter_index p i l = filter_index q i l.
Proof.
  intros Hpq. revert i. induction l as [|x l IH]; intros i; simpl; [done|].
  by rewrite Hpq, IH.
Qed.

Lemma removeOutliersZScore_decide {A} (cfg : Config) (data : list A) values :
  removeOutliersZScore cfg data values = removeOutliersZScore_decided cfg data values.
Proof.
  unfold removeOutliersZScore, removeOutliersZScore_decided.
  destruct (Nat.ltb_spec (length values) 3) as [|Hlen]; [done|].
  unfold standardDeviation.
  replace (length values =? 1)%nat with false
    by (symmetry; apply Nat.eqb_neq; lia).
  rewrite Reqb_sqrt.
  destruct (Qle_bool (variance values) 0) eqn:Hvar; [done|].
  apply filter_index_ext. intros _ j.
  destruct (values !! j) as [v|]; [|done].
  apply zScore_decide. intros Hle. apply Qle_bool_iff in Hle. congruence.
Qed.

Lemma survivors_decide {A} `{Sample A} (cfg : Config) (data : list A) :
  survivors cfg data = survivors_decided cfg data.
Proof.
  unfold survivors, survivors_decided. by rewrite removeOutliersZScore_decide.
Qed.

(** ** When a calculation succeeds *)

Lemma survivors_nil {A} `{Sample A} (cfg : Config) : survivors cfg [] = [].
Proof. unfold survivors. by destruct (_ <? _)%nat. Qed.

Lemma vwapValue_returns cfg volumeHistory windowMs now :
  let relevantData :=
    vwapRelevant cfg (now - orZ windowMs (vwapWindow cfg)) volumeHistory in
  let cleanData := survivors cfg relevantData in
  minDataPoints cfg ≤ length relevantData →
  cleanData ≠ [] →
  ¬ ((vwapTotals cleanData).2 == 0)%Q →
  ∃ r, vwapValue cfg volumeHistory windowMs now = Ok r
       ∧ VWAP.vwap r = ((vwapTotals cleanData).1 / (vwapTotals cleanData).2)%Q
       ∧ VWAP.totalVolume r = (vwapTotals cleanData).2
       ∧ VWAP.dataPoints r = length cleanData
       ∧ VWAP.outliers r = length relevantData - length cleanData
       ∧ VWAP.confidence r = calculateConfidence cleanData.
Proof.
  intros relevantData cleanData Hlen Hclean Htv.
  unfold vwapValue. cbv zeta.
  destruct volumeHistory as [|d vh].
  { exfalso. apply Hclean. apply survivors_nil. }
  fold relevantData. fold cleanData.
  replace (length relevantData <? minDataPoints cfg)%nat with false
    by (symmetry; apply Nat.ltb_ge; lia).
  destruct cleanData as [|c clean] eqn:Hc; [done|].
  simpl length. simpl Nat.eqb.
  destruct (Qeq_bool _ 0) eqn:Hz.
  { exfalso. apply Htv. by apply Qeq_bool_iff. }
  eexists. split; [reflexivity|]. by simpl.
Qed.

(** ** Scenario: basic VWAP *)

Lemma basicVWAP_stored :
  volumeHistory (addAll defaultService "SOL/USDC" basicVWAPData 1000) !! "SOL/USDC"
  = Some (basicVWAPVolumes 1000).
Proof. vm_compute. reflexivity. Qed.

Lemma basicVWAP_value :
  ∃ r, (calculateVWAP (addAll defaultService "SOL/USDC" basicVWAPData 1000)
          "SOL/USDC" None 1000).1 = Ok r
       ∧ VWAP.vwap r = ((vwapTotals (basicVWAPVolumes 1000)).1
                        / (vwapTotals (basicVWAPVolumes 1000)).2)%Q
       ∧ VWAP.totalVolume r = (vwapTotals (basicVWAPVolumes 1000)).2
       ∧ VWAP.dataPoints r = 5
       ∧ VWAP.outliers r = 0.
Proof.
  rewrite calculateVWAP_value, basicVWAP_stored.
  assert (Hcfg : config (addAll defaultService "SOL/USDC" basicVWAPData 1000)
                 = newConfig RawConfig.empty) by (vm_compute; reflexivity).
  rewrite Hcfg. simpl default.
  assert (Hrel : vwapRelevant (newConfig RawConfig.empty)
                   (1000 - orZ None (vwapWindow (newConfig RawConfig.empty)))
                   (basicVWAPVolumes 1000) = basicVWAPVolumes 1000)
    by (vm_compute; reflexivity).
  assert (Hclean : survivors (newConfig RawConfig.empty) (basicVWAPVolumes 1000)
                   = basicVWAPVolumes 1000)
    by (rewrite survivors_decide; vm_compute; reflexivity).
  destruct (vwapValue_returns (newConfig RawConfig.empty) (basicVWAPVolumes 1000)
              None 1000) as (r & Hr & Hvwap & Htv & Hdp & Hout & _).
  - rewrite Hrel. vm_compute. lia.
  - rewrite Hrel, Hclean. discriminate.
  - rewrite Hrel, Hclean. vm_compute. discriminate.
  - rewrite Hrel, Hclean in *. exists r. by repeat split.
Qed.

(** C1, as the code has it: with the five observations of the scenario
    inserted into a new service in one millisecond, [calculateVWAP]
    succeeds; the price is 958459/5400, which is 177.4924 to four
    decimals, from 5 data points, with no outlier and a total volume of
    5400. *)
Theorem vwap_basic_scenario :
  ∃ r, (calculateVWAP (addAll defaultService "SOL/USDC" basicVWAPData 1000)
          "SOL/USDC" None 1000).1 = Ok r
       ∧ (VWAP.vwap r == 958459 # 5400)%Q
       ∧ (Qabs (VWAP.vwap r - (1774924 # 10000)) <= 2 # 10000)%Q
       ∧ VWAP.dataPoints r = 5
       ∧ VWAP.outliers r = 0
       ∧ (VWAP.totalVolume r == 5400)%Q.
Proof.
  destruct basicVWAP_value as (r & Hr & Hvwap & Htv & Hdp & Hout).
  exists r. rewrite Hvwap, Htv. split; [exact Hr|].
  split; [vm_compute; reflexivity|].
  split; [vm_compute; discriminate|].
  split; [exact Hdp|]. split; [exact Hout|].
  vm_compute. reflexivity.
Qed.

(** C1 as stated fails: the price is not within 0.0002 of 177.4826. *)
Lemma vwap_basic_scenario_not_177_4826 :
  ∃ r, (calculateVWAP (addAll defaultService "SOL/USDC" basicVWAPData 1000)
          "SOL/USDC" None 1000).1 = Ok r
       ∧ ¬ (Qabs (VWAP.vwap r - (1774826 # 10000)) <= 2 # 10000)%Q.
Proof.
  destruct basicVWAP_value as (r & Hr & Hvwap & _).
  exists r. rewrite Hvwap. split; [exact Hr|].
  vm_compute. intros H. apply H. reflexivity.
Qed.

(** ** TWAP: the loop computes the sums of the specification *)

Lemma combinedWeights_length snapshot now :
  length (combinedWeights snapshot now) = length snapshot.
Proof. induction snapshot as [|d rest IH]; simpl; [done|]. by rewrite IH. Qed.

(** The loop of [calculateTWAP], started at index [length done'] with the
    accumulators [acc], adds the sums of the specification over the rest
    of the snapshot. *)
Lemma twapTotals_from (done' rest : list PriceData) (now : Z) (acc : Q * Q) :
  let totals :=
    fold_left (twapStep (done' ++ rest) now) (seq (length done') (length rest)) acc in
  (totals.1 == acc.1 + weightedPriceSum rest now)%Q
  ∧ (totals.2 == acc.2 + combinedWeightSum rest now)%Q.
Proof.
  revert done' acc. induction rest as [|d rest IH]; intros done' acc; cbv zeta.
  - simpl. unfold weightedPriceSum, combinedWeightSum. simpl. split; ring.
  - destruct acc as [weightedSum totalWeight].
    change (seq (length done') (length (d :: rest)))
      with (length done' :: seq (S (length done')) (length rest)).
    cbn [fold_left].
    assert (Hstep : twapStep (done' ++ d :: rest) now (weightedSum, totalWeight)
                      (length done')
                    = ((weightedSum + price d * List.hd 0%Q (combinedWeights (d :: rest) now))%Q,
                       (totalWeight + List.hd 0%Q (combinedWeights (d :: rest) now))%Q)).
    { unfold twapStep. rewrite list_lookup_middle by done.
      rewrite length_app.
      destruct rest as [|next rest'].
      - destruct (Nat.eqb_spec (length done') (length done' + length [d] - 1))
          as [_|Hne]; [done|].
        simpl in Hne. lia.
      - destruct (Nat.eqb_spec (length done')
                    (length done' + length (d :: next :: rest') - 1))
          as [Heq|_]; [simpl in Heq; lia|].
        replace (done' ++ d :: next :: rest') with ((done' ++ [d]) ++ next :: rest')
          by (by rewrite <- app_assoc).
        rewrite list_lookup_middle by (rewrite length_app; simpl; lia).
        done. }
    rewrite Hstep.
    replace (done' ++ d :: rest) with ((done' ++ [d]) ++ rest)
      by (by rewrite <- app_assoc).
    replace (S (length done')) with (length (done' ++ [d]))
      by (rewrite length_app; simpl; lia).
    destruct (IH (done' ++ [d])
                ((weightedSum + price d * List.hd 0%Q (combinedWeights (d :: rest) now))%Q,
                 (totalWeight + List.hd 0%Q (combinedWeights (d :: rest) now))%Q))
      as [IH1 IH2].
    split.
    + rewrite IH1. unfold weightedPriceSum. simpl. ring.
    + rewrite IH2. unfold combinedWeightSum. simpl. ring.
Qed.

(** The loop computes the two sums of the specification. *)
Lemma twapTotals_sums (cleanData : list PriceData) (now : Z) :
  ((twapTotals cleanData now).1 == weightedPriceSum cleanData now)%Q
  ∧ ((twapTotals cleanData now).2 == combinedWeightSum cleanData now)%Q.
Proof.
  destruct (twapTotals_from [] cleanData now (0%Q, 0%Q)) as [H1 H2].
  unfold twapTotals. simpl in H1, H2. split.
  - rewrite H1. ring.
  - rewrite H2. ring.
Qed.

(** ** TWAP: the snapshot is sorted by timestamp *)

Lemma insert_sorted_perm {A} (leb : A → A → bool) (x : A) (l : list A) :
  insert_sorted leb x l ≡ₚ x :: l.
Proof.
  induction l as [|y l IH]; simpl; [done|].
  destruct (leb x y); [done|]. rewrite IH. apply perm_swap.
Qed.

Lemma sort_by_perm {A} (leb : A → A → bool) (l : list A) : sort_by leb l ≡ₚ l.
Proof.
  induction l as [|x l IH]; simpl; [done|].
  by rewrite insert_sorted_perm, IH.
Qed.

Lemma insert_sorted_byTime (x : PriceData) (l : list PriceData) :
  StronglySorted byTime l →
  StronglySorted byTime
    (insert_sorted (fun a b => (timestamp a - timestamp b <=? 0)%Z) x l).
Proof.
  induction 1 as [|y l Hl IH Hy]; simpl.
  - repeat constructor.
  - destruct (Z.leb_spec (timestamp x - timestamp y) 0) as [Hle|Hgt].
    + constructor; [by constructor|].
      constructor; [unfold byTime; lia|].
      eapply Forall_impl; [exact Hy|]. unfold byTime. intros z Hz. lia.
    + constructor; [exact IH|].
      rewrite insert_sorted_perm. constructor; [unfold byTime; lia | exact Hy].
Qed.

Lemma twapRelevant_sorted cutoffTime history :
  StronglySorted byTime (twapRelevant cutoffTime history).
Proof.
  unfold twapRelevant, sort_by.
  induction (List.filter _ history) as [|x l IH]; simpl; [constructor|].
  by apply insert_sorted_byTime.
Qed.

Lemma twapRelevant_elem_of cutoffTime history d :
  d ∈ twapRelevant cutoffTime history → d ∈ history.
Proof.
  unfold twapRelevant. rewrite sort_by_perm.
  intros Hd. apply list_elem_of_In, filter_In in Hd as [Hd _].
  by apply list_elem_of_In.
Qed.

Lemma StronglySorted_sublist {A} (R : relation A) (l1 l2 : list A) :
  l1 `sublist_of` l2 → StronglySorted R l2 → StronglySorted R l1.
Proof.
  induction 1 as [|x l1 l2 Hsub IH|x l1 l2 Hsub IH]; intros Hs.
  - constructor.
  - apply StronglySorted_inv in Hs as [Hs Hx].
    constructor; [by apply IH|].
    apply Forall_forall. intros y Hy.
    rewrite Forall_forall in Hx. apply Hx. by eapply elem_of_sublist.
  - apply StronglySorted_inv in Hs as [Hs _]. by apply IH.
Qed.

(** ** TWAP: the combined weights, index by index *)

Lemma combinedWeights_lookup_next (snapshot : list PriceData) (now : Z) i d next :
  snapshot !! i = Some d → snapshot !! S i = Some next →
  combinedWeights snapshot now !! i
  = Some (inject_Z (timestamp next - timestamp d) * weight d)%Q.
Proof.
  revert i. induction snapshot as [|x rest IH]; intros i Hd Hn; [done|].
  destruct i as [|i].
  - simpl in Hd, Hn. injection Hd as ->.
    destruct rest as [|y rest']; [done|]. simpl in Hn. injection Hn as ->. done.
  - simpl in Hd, Hn. simpl. by apply IH.
Qed.

Lemma combinedWeights_last (snapshot : list PriceData) (now : Z) d :
  last snapshot = Some d →
  last (combinedWeights snapshot now)
  = Some (inject_Z (now - timestamp d) * weight d)%Q.
Proof.
  induction snapshot as [|x rest IH]; [done|]. intros Hl.
  destruct rest as [|y rest'].
  - simpl in Hl. injection Hl as ->. done.
  - change (last (x :: y :: rest')) with (last (y :: rest')) in Hl.
    specialize (IH Hl). exact IH.
Qed.

(** ** TWAP: when it returns *)

Lemma twapValue_cases cfg history windowMs now :
  let relevantData := twapRelevant (now - orZ windowMs (twapWindow cfg)) history in
  let cleanData := survivors cfg relevantData in
  minDataPoints cfg ≤ length relevantData →
  cleanData ≠ [] →
  ((combinedWeightSum cleanData now == 0)%Q →
   twapValue cfg history windowMs now = Err ZeroWeight)
  ∧ (¬ (combinedWeightSum cleanData now == 0)%Q →
     ∃ r, twapValue cfg history windowMs now = Ok r
          ∧ (TWAP.twap r == weightedPriceSum cleanData now
                            / combinedWeightSum cleanData now)%Q
          ∧ TWAP.dataPoints r = length cleanData
          ∧ TWAP.outliers r = length relevantData - length cleanData
          ∧ TWAP.confidence r = calculateConfidence cleanData).
Proof.
  intros relevantData cleanData Hlen Hclean.
  destruct (twapTotals_sums cleanData now) as [Hws Htw].
  unfold twapValue. cbv zeta.
  destruct history as [|d h].
  { exfalso. apply Hclean. apply survivors_nil. }
  fold relevantData. fold cleanData.
  replace (length relevantData <? minDataPoints cfg)%nat with false
    by (symmetry; apply Nat.ltb_ge; lia).
  destruct cleanData as [|c clean] eqn:Hc; [done|].
  simpl length. simpl Nat.eqb. cbv iota.
  split.
  - intros Hz. rewrite <- Htw in Hz. apply Qeq_bool_iff in Hz. by rewrite Hz.
  - intros Hnz. destruct (Qeq_bool _ 0) eqn:Hz.
    { exfalso. apply Hnz. rewrite <- Htw. by apply Qeq_bool_iff. }
    eexists. split; [reflexivity|]. simpl.
    split; [by rewrite Hws, Htw|done].
Qed.

(** C4: for the snapshot that [calculateTWAP] filters, which is sorted
    by ascending timestamp, the combined weight of every observation but
    the last is [(tᵢ₊₁ - tᵢ) · sourceWeightᵢ] and the one of the last is
    [(now - tₗₐₛₜ) · sourceWeightₗₐₛₜ]; an observation whose successor has
    the same timestamp has weight 0; [calculateTWAP] returns
    [Σ(priceᵢ · combinedWeightᵢ) / Σ(combinedWeightᵢ)], and throws "Total
    weight is zero" in the one case where that quotient is undefined. *)
Theorem calculateTWAP_formula (s : Service) (token : string)
    (windowMs : option Z) (now : Z) :
  let relevantData :=
    twapRelevant (now - orZ windowMs (twapWindow (config s)))
      (default [] (priceHistory s !! token)) in
  let cleanData := survivors (config s) relevantData in
  minDataPoints (config s) ≤ length relevantData →
  cleanData ≠ [] →
  StronglySorted byTime cleanData
  ∧ (∀ i d next,
       cleanData !! i = Some d → cleanData !! S i = Some next →
       combinedWeights cleanData now !! i
       = Some (inject_Z (timestamp next - timestamp d) * weight d)%Q)
  ∧ (∀ d, last cleanData = Some d →
          last (combinedWeights cleanData now)
          = Some (inject_Z (now - timestamp d) * weight d)%Q)
  ∧ (∀ i d next,
       cleanData !! i = Some d → cleanData !! S i = Some next →
       timestamp d = timestamp next →
       ∃ w, combinedWeights cleanData now !! i = Some w ∧ (w == 0)%Q
            ∧ (price d * w == 0)%Q)
  ∧ (¬ (combinedWeightSum cleanData now == 0)%Q →
     ∃ r, (calculateTWAP s token windowMs now).1 = Ok r
          ∧ (TWAP.twap r == weightedPriceSum cleanData now
                            / combinedWeightSum cleanData now)%Q
          ∧ TWAP.dataPoints r = length cleanData)
  ∧ ((combinedWeightSum cleanData now == 0)%Q →
     (calculateTWAP s token windowMs now).1 = Err ZeroWeight).
Proof.
  intros relevantData cleanData Hlen Hclean.
  split.
  { eapply StronglySorted_sublist; [apply survivors_sublist|].
    apply twapRelevant_sorted. }
  split; [intros i d next; apply combinedWeights_lookup_next|].
  split; [intros d; apply combinedWeights_last|].
  split.
  { intros i d next Hd Hn Ht.
    rewrite (combinedWeights_lookup_next _ _ _ _ _ Hd Hn). eexists.
    split; [reflexivity|]. rewrite Ht, Z.sub_diag. split; ring. }
  rewrite calculateTWAP_value.
  destruct (twapValue_cases (config s) (default [] (priceHistory s !! token))
              windowMs now Hlen Hclean) as [Hzero Hok].
  split; [|exact Hzero].
  intros Hnz. destruct (Hok Hnz) as (r & Hr & Htwap & Hdp & _).
  exists r. by repeat split.
Qed.

(** *** Scenario: TWAP with source weights *)

Lemma weightedTWAP_snapshot :
  let s := addAll defaultService "SOL/USDC" weightedTWAPData 1000000 in
  survivors (config s)
    (twapRelevant (1000000 - orZ None (twapWindow (config s)))
       (default [] (priceHistory s !! "SOL/USDC")))
  = weightedTWAPSnapshot.
Proof. intros s. rewrite survivors_decide. vm_compute. reflexivity. Qed.

Lemma calculateTWAP_formula_witness :
  ∃ r, (calculateTWAP (addAll defaultService "SOL/USDC" weightedTWAPData 1000000)
          "SOL/USDC" None 1000000).1 = Ok r
       ∧ (TWAP.twap r == 799015 # 4500)%Q
       ∧ TWAP.dataPoints r = 5.
Proof.
  pose proof weightedTWAP_snapshot as Hsnap. cbv zeta in Hsnap.
  destruct (calculateTWAP_formula
              (addAll defaultService "SOL/USDC" weightedTWAPData 1000000)
              "SOL/USDC" None 1000000) as (_ & _ & _ & _ & Hok & _).
  - vm_compute. lia.
  - rewrite Hsnap. discriminate.
  - destruct Hok as (r & Hr & Htwap & Hdp).
    + rewrite Hsnap. vm_compute. discriminate.
    + exists r. split; [exact Hr|]. rewrite Htwap, Hdp, Hsnap.
      split; vm_compute; reflexivity.
Defined.

(** ** TWAP of observations that share one timestamp *)

Lemma orQ_nonzero (x : option Q) (d : Q) : ¬ (d == 0)%Q → ¬ (orQ x d == 0)%Q.
Proof.
  intros Hd. unfold orQ. destruct x as [q|]; [|done].
  destruct (Qeq_bool q 0) eqn:Hq; [done|].
  intros Hz. apply Qeq_bool_iff in Hz. congruence.
Qed.

Lemma normalizePriceData_weight s priceData now normalizedData :
  normalizePriceData s priceData now = Ok normalizedData →
  ¬ (weight normalizedData == 0)%Q.
Proof.
  unfold normalizePriceData. intros Hn.
  destruct (Decimal (if truthy (Raw.price priceData) then _ else _)) as [p|];
    simpl in Hn; [|done].
  destruct (if truthy (Raw.volume priceData) then _ else _) as [v|];
    simpl in Hn; [|done].
  injection Hn as <-. simpl. by apply orQ_nonzero.
Qed.

(** Every stored data point has a source weight other than 0: the weight
    is [sourceWeights.get(source) || 0.5]. *)
Lemma reachable_weight_nonzero s :
  reachable s →
  ∀ token history d, priceHistory s !! token = Some history → d ∈ history →
                     ¬ (weight d == 0)%Q.
Proof.
  induction 1 as [cfg|s token priceData now Hr IH|s token _ IH|s _ IH
                 |s token w now _ IH|s token w now _ IH|s token now _ IH];
    intros token' h d Hh Hd.
  - simpl in Hh. by rewrite lookup_empty in Hh.
  - destruct (normalizePriceData s priceData now) as [nd|e] eqn:Hn.
    + rewrite (addPriceData_stored _ _ _ _ _ (reachable_paired s Hr) Hn) in Hh.
      simpl in Hh.
      destruct (decide (token = token')) as [->|Hne].
      * rewrite lookup_insert_eq in Hh. injection Hh as <-.
        apply cleanupArray_elem_of in Hd as [Hd _].
        apply elem_of_app in Hd as [Hd|Hd].
        -- unfold histories in Hd.
           destruct (priceHistory s !! token') as [h|] eqn:Hh;
             [|by apply elem_of_nil in Hd].
           by apply (IH token' h d).
        -- apply list_elem_of_singleton in Hd as ->.
           by apply (normalizePriceData_weight _ _ _ _ Hn).
      * rewrite lookup_insert_ne in Hh by done. by apply (IH token' h d).
    + rewrite (addPriceData_thrown _ _ _ _ _ Hn) in Hh. by apply (IH token' h d).
  - unfold clearTokenData in Hh. simpl in Hh.
    apply lookup_delete_Some in Hh as [_ Hh]. by apply (IH token' h d).
  - simpl in Hh. by rewrite lookup_empty in Hh.
  - destruct (calculateVWAP_store s token w now) as (_&Hp&_).
    rewrite Hp in Hh. by apply (IH token' h d).
  - destruct (calculateTWAP_store s token w now) as (_&Hp&_).
    rewrite Hp in Hh. by apply (IH token' h d).
  - destruct (calculateWeightedAverage_store s token now) as (_&Hp&_).
    rewrite Hp in Hh. by apply (IH token' h d).
Qed.

(** With one shared timestamp [t], every weight but the last is 0. *)
Lemma single_timestamp_sums (snapshot : list PriceData) (now t : Z) (d : PriceData) :
  Forall (λ x, timestamp x = t) snapshot →
  last snapshot = Some d →
  (weightedPriceSum snapshot now == price d * (inject_Z (now - t) * weight d))%Q
  ∧ (combinedWeightSum snapshot now == inject_Z (now - t) * weight d)%Q.
Proof.
  unfold weightedPriceSum, combinedWeightSum.
  induction snapshot as [|x rest IH]; [done|]. intros Ht Hl.
  apply Forall_cons in Ht as [Hx Ht].
  destruct rest as [|y rest'].
  - simpl in Hl. injection Hl as ->. simpl. rewrite Hx. split; ring.
  - change (last (x :: y :: rest')) with (last (y :: rest')) in Hl.
    destruct (IH Ht Hl) as [IH1 IH2].
    pose proof Ht as Hy. apply Forall_cons in Hy as [Hy _].
    change (combinedWeights (x :: y :: rest') now)
      with ((inject_Z (timestamp y - timestamp x) * weight x)%Q
            :: combinedWeights (y :: rest') now).
    rewrite Hx, Hy, Z.sub_diag.
    cbn [zip_with sumQ foldr]. fold (sumQ (combinedWeights (y :: rest') now)).
    fold (sumQ (zip_with (λ d w, (price d * w)%Q) (y :: rest')
                  (combinedWeights (y :: rest') now))).
    rewrite IH1, IH2. split; ring.
Qed.

(** C3, as the code has it: when the observations that survive the
    filters all share one timestamp [t], every time weight but the last
    one's is 0 and the last one's is [now - t].  [calculateTWAP] fails
    with "Total weight is zero" when [t] is [now]; for any other [t], and
    so for every past [t], it returns the price of the last observation. *)
Theorem calculateTWAP_single_timestamp (s : Service) (token : string)
    (windowMs : option Z) (now t : Z) :
  let relevantData :=
    twapRelevant (now - orZ windowMs (twapWindow (config s)))
      (default [] (priceHistory s !! token)) in
  let cleanData := survivors (config s) relevantData in
  reachable s →
  minDataPoints (config s) ≤ length relevantData →
  cleanData ≠ [] →
  Forall (λ d, timestamp d = t) cleanData →
  (t = now → (calculateTWAP s token windowMs now).1 = Err ZeroWeight)
  ∧ (t ≠ now →
     ∃ r d, (calculateTWAP s token windowMs now).1 = Ok r
            ∧ last cleanData = Some d
            ∧ (TWAP.twap r == price d)%Q
            ∧ TWAP.dataPoints r = length cleanData).
Proof.
  intros relevantData cleanData Hr Hlen Hclean Ht.
  destruct (last cleanData) as [d|] eqn:Hlast;
    [|by apply last_None in Hlast].
  destruct (single_timestamp_sums cleanData now t d Ht Hlast) as [Hws Htw].
  assert (Hw : ¬ (weight d == 0)%Q).
  { assert (Hd : d ∈ cleanData).
    { apply last_Some in Hlast as [l' ->]. apply elem_of_app. right.
      by apply list_elem_of_singleton. }
    eapply elem_of_sublist in Hd; [|apply survivors_sublist].
    apply twapRelevant_elem_of in Hd.
    destruct (priceHistory s !! token) as [h|] eqn:Hh;
      [|by apply elem_of_nil in Hd].
    by apply (reachable_weight_nonzero s Hr token h d). }
  rewrite calculateTWAP_value.
  destruct (twapValue_cases (config s) (default [] (priceHistory s !! token))
              windowMs now Hlen Hclean) as [Hzero Hok].
  fold relevantData in Hzero, Hok. fold cleanData in Hzero, Hok.
  split.
  - intros ->. apply Hzero. rewrite Htw, Z.sub_diag. ring.
  - intros Hne.
    assert (Hnz : ¬ (inject_Z (now - t) * weight d == 0)%Q).
    { intros Hz. apply Qmult_integral in Hz as [Hz|Hz]; [|done].
      unfold Qeq in Hz. simpl in Hz. lia. }
    destruct Hok as (r & Hr' & Htwap & Hdp & _); [by rewrite Htw|].
    exists r, d. split; [exact Hr'|]. split; [done|].
    split; [|exact Hdp].
    rewrite Htwap, Hws, Htw. by apply Qdiv_mult_l.
Qed.

(** *** Scenario: five observations at one timestamp *)

Lemma singleTime_snapshot (now : Z) :
  now = 1000%Z ∨ now = 2000%Z →
  let s := addAll defaultService "SINGLE/TIME" singleTimeData 1000 in
  survivors (config s)
    (twapRelevant (now - orZ None (twapWindow (config s)))
       (default [] (priceHistory s !! "SINGLE/TIME")))
  = singleTimeSnapshot.
Proof.
  intros [-> | ->] s; rewrite survivors_decide; vm_compute; reflexivity.
Qed.

Lemma calculateTWAP_single_timestamp_witness :
  (calculateTWAP (addAll defaultService "SINGLE/TIME" singleTimeData 1000)
     "SINGLE/TIME" None 1000).1 = Err ZeroWeight.
Proof.
  pose proof (singleTime_snapshot 1000 (or_introl eq_refl)) as Hsnap.
  cbv zeta in Hsnap.
  apply (calculateTWAP_single_timestamp
           (addAll defaultService "SINGLE/TIME" singleTimeData 1000)
           "SINGLE/TIME" None 1000 1000).
  - apply reachable_addAll, reachable_new.
  - vm_compute. lia.
  - rewrite Hsnap. discriminate.
  - rewrite Hsnap. repeat constructor.
  - reflexivity.
Defined.

(** C3 as stated fails: five observations from distinct sources share a
    timestamp one second in the past, and [calculateTWAP] returns the
    price of the last one instead of failing. *)
Lemma twap_single_past_timestamp_returns :
  let s := addAll defaultService "SINGLE/TIME" singleTimeData 1000 in
  let cleanData :=
    survivors (config s)
      (twapRelevant (2000 - orZ None (twapWindow (config s)))
         (default [] (priceHistory s !! "SINGLE/TIME"))) in
  length cleanData = 5
  ∧ Forall (λ d, timestamp d = 1000%Z) cleanData
  ∧ map source cleanData = ["okx"; "binance"; "coinbase"; "raydium"; "orca"]
  ∧ (calculateTWAP s "SINGLE/TIME" None 2000).1 ≠ Err ZeroWeight
  ∧ ∃ r, (calculateTWAP s "SINGLE/TIME" None 2000).1 = Ok r
         ∧ (TWAP.twap r == 104)%Q.
Proof.
  intros s cleanData.
  pose proof (singleTime_snapshot 2000 (or_intror eq_refl)) as Hsnap.
  cbv zeta in Hsnap. fold s in Hsnap. fold cleanData in Hsnap.
  split; [by rewrite Hsnap|].
  split; [rewrite Hsnap; repeat constructor|].
  split; [by rewrite Hsnap|].
  rewrite calculateTWAP_value.
  destruct (twapValue_cases (config s) (default [] (priceHistory s !! "SINGLE/TIME"))
              None 2000) as [_ Hok].
  - vm_compute. lia.
  - fold cleanData. rewrite Hsnap. discriminate.
  - destruct Hok as (r & Hr & Htwap & _).
    + fold cleanData. rewrite Hsnap. vm_compute. discriminate.
    + rewrite Hr. split; [discriminate|].
      exists r. split; [done|]. rewrite Htwap. fold cleanData. rewrite Hsnap.
      vm_compute. reflexivity.
Qed.

(** ** Confidence *)

Lemma clamp01_bounds (x : R) : (0 <= clamp01 x <= 1)%R.
Proof.
  unfold clamp01. split; [apply Rmax_l|].
  apply Rmax_lub; [lra | apply Rmin_l].
Qed.

Lemma Qltb_lt (x y : Q) : Qltb x y = true ↔ (x < y)%Q.
Proof.
  unfold Qltb. rewrite negb_true_iff. split.
  - intros Hb. apply Qnot_le_lt. intros Hle.
    apply Qle_bool_iff in Hle. congruence.
  - intros Hlt. apply not_true_is_false. intros Hb.
    apply Qle_bool_iff in Hb. by apply Qlt_not_le in Hlt.
Qed.

Lemma numbers_weights (data : list PriceData) :
  numbers (map sample_weight data) = Some (map weight data).
Proof.
  induction data as [|d data IH]; [done|].
  change (numbers (map sample_weight (d :: data)))
    with (cons (weight d) <$> numbers (map sample_weight data)).
  by rewrite IH.
Qed.

Lemma calculateConfidence_of (data : list PriceData) :
  data ≠ [] → confidence_of data (calculateConfidence data).
Proof.
  intros Hdata. unfold confidence_of, calculateConfidence. cbv zeta.
  destruct data as [|d data]; [done|].
  change (length (d :: data) =? 0)%nat with false. cbv iota.
  unfold mean_undef. rewrite numbers_weights.
  change (mean <$> Some (map weight (d :: data)))
    with (Some (mean (map weight (d :: data)))). cbv iota.
  change (map sample_price (d :: data)) with (map price (d :: data)).
  change (map sample_source (d :: data)) with (map source (d :: data)).
  eexists. split; [reflexivity|].
  split; [apply clamp01_bounds|].
  destruct (Qltb 0 (mean (map price (d :: data)))) eqn:Hm.
  - split; [|intros Hn; by apply Qltb_lt in Hm].
    intros _. unfold clamp01, confidenceFormula. f_equal. f_equal. ring.
  - split; [intros Hp; apply Qltb_lt in Hp; congruence|].
    intros _. unfold clamp01, confidenceFormula_inconsistent. f_equal. f_equal. ring.
Qed.

Lemma twapValue_Ok cfg history windowMs now r :
  twapValue cfg history windowMs now = Ok r →
  let cleanData :=
    survivors cfg (twapRelevant (now - orZ windowMs (twapWindow cfg)) history) in
  cleanData ≠ [] ∧ TWAP.confidence r = calculateConfidence cleanData
  ∧ TWAP.dataPoints r = length cleanData.
Proof.
  unfold twapValue. cbv zeta.
  destruct history as [|d h]; [done|].
  set (rel := twapRelevant _ _). clearbody rel.
  destruct (_ <? _)%nat; [done|].
  destruct (survivors cfg rel) as [|c clean] eqn:Hclean; [done|].
  simpl length. simpl Nat.eqb. cbv iota.
  destruct (Qeq_bool _ 0); [done|].
  by intros [= <-].
Qed.

Lemma weightedAverageValue_Ok cfg history now r :
  weightedAverageValue cfg history now = Ok r →
  let cleanData := survivors cfg (drop (length history - 10) history) in
  cleanData ≠ [] ∧ WeightedAverage.confidence r = calculateConfidence cleanData
  ∧ WeightedAverage.dataPoints r = length cleanData.
Proof.
  unfold weightedAverageValue. cbv zeta.
  destruct history as [|d h]; [done|].
  set (rel := drop _ _). clearbody rel.
  destruct (survivors cfg rel) as [|c clean] eqn:Hclean; [done|].
  simpl length. simpl Nat.eqb. cbv iota.
  by intros [= <-].
Qed.

(** C6, as the code has it, for TWAP and the weighted average: the
    reported confidence is the number
    [0.30·min(n/10, 1) + 0.30·min(distinctSources/3, 1)
     + 0.30·max(0, 1 − priceStdDev/priceMean) + 0.10·meanSourceWeight]
    over the surviving observations, clamped to [0, 1], when the mean
    price is positive; when it is not, the consistency term is 0.  The
    confidence lies in [0, 1]. *)
Theorem confidence_of_price_aggregations (s : Service) (token : string)
    (windowMs : option Z) (now : Z) :
  (∀ r, (calculateTWAP s token windowMs now).1 = Ok r →
        confidence_of
          (survivors (config s)
             (twapRelevant (now - orZ windowMs (twapWindow (config s)))
                (default [] (priceHistory s !! token))))
          (TWAP.confidence r))
  ∧ (∀ r, (calculateWeightedAverage s token now).1 = Ok r →
          confidence_of
            (survivors (config s)
               (drop (length (default [] (priceHistory s !! token)) - 10)
                  (default [] (priceHistory s !! token))))
            (WeightedAverage.confidence r)).
Proof.
  split; intros r Hr.
  - rewrite calculateTWAP_value in Hr.
    apply twapValue_Ok in Hr as (Hclean & -> & _).
    by apply calculateConfidence_of.
  - rewrite calculateWeightedAverage_value in Hr.
    apply weightedAverageValue_Ok in Hr as (Hclean & -> & _).
    by apply calculateConfidence_of.
Qed.

Lemma weightedTWAP_returns :
  ∃ r, (calculateTWAP (addAll defaultService "SOL/USDC" weightedTWAPData 1000000)
          "SOL/USDC" None 1000000).1 = Ok r.
Proof.
  pose proof weightedTWAP_snapshot as Hsnap. cbv zeta in Hsnap.
  rewrite calculateTWAP_value.
  destruct (twapValue_cases
              (config (addAll defaultService "SOL/USDC" weightedTWAPData 1000000))
              (default [] (priceHistory
                 (addAll defaultService "SOL/USDC" weightedTWAPData 1000000)
                 !! "SOL/USDC"))
              None 1000000) as [_ Hok].
  - vm_compute. lia.
  - rewrite Hsnap. discriminate.
  - destruct Hok as (r & Hr & _); [|by exists r].
    rewrite Hsnap. vm_compute. discriminate.
Qed.

Lemma confidence_of_price_aggregations_witness :
  ∃ r c, (calculateTWAP (addAll defaultService "SOL/USDC" weightedTWAPData 1000000)
            "SOL/USDC" None 1000000).1 = Ok r
         ∧ TWAP.confidence r = Num c
         ∧ (0 <= c <= 1)%R.
Proof.
  destruct weightedTWAP_returns as [r Hr].
  destruct (proj1 (confidence_of_price_aggregations
                     (addAll defaultService "SOL/USDC" weightedTWAPData 1000000)
                     "SOL/USDC" None 1000000) r Hr) as (c & Hc & Hb & _).
  exists r, c. split; [exact Hr|]. split; [exact Hc | exact Hb].
Defined.

(** The confidence that [calculateVWAP] reports is [NaN]: the entries of
    the volume history have no [weight], so [avgWeight] is the mean of
    [undefined] values. *)
Lemma calculateVWAP_confidence_NaN s token windowMs now r :
  (calculateVWAP s token windowMs now).1 = Ok r → VWAP.confidence r = NaN.
Proof.
  rewrite calculateVWAP_value. intros Hr.
  apply vwapValue_Ok in Hr as (_ & Hclean & _ & _ & _ & _ & _ & ->).
  destruct (survivors _ _) as [|c clean]; [done|].
  reflexivity.
Qed.

(** In the basic VWAP scenario too. *)
Lemma basicVWAP_confidence_NaN :
  ∃ r, (calculateVWAP (addAll defaultService "SOL/USDC" basicVWAPData 1000)
          "SOL/USDC" None 1000).1 = Ok r
       ∧ VWAP.confidence r = NaN.
Proof.
  destruct basicVWAP_value as (r & Hr & _).
  exists r. split; [exact Hr|]. by eapply calculateVWAP_confidence_NaN.
Qed.

(** *** Scenario: an observation without a price *)

Lemma calculateConfidence_unpriced :
  calculateConfidence [unpriced] = Num (23 / 100).
Proof.
  unfold calculateConfidence. cbv zeta.
  change (length [unpriced] =? 0)%nat with false. cbv iota.
  replace (Qltb 0 (mean (map sample_price [unpriced]))) with false
    by (vm_compute; reflexivity).
  replace (mean_undef (map sample_weight [unpriced])) with (Some (1 # 1)%Q)
    by (vm_compute; reflexivity).
  replace (length (uniq [] (map sample_source [unpriced]))) with 1
    by (vm_compute; reflexivity).
  f_equal. unfold Q2R. simpl. minmax.
Qed.

(** C6 as stated fails where the mean price is not positive.  A data
    point without a price is stored with price 0 ([priceData.price || 0]);
    the weighted average of that single data point succeeds and reports
    the confidence 0.23, while the formula of the claim, whose consistency
    term [max(0, 1 − 0/0)] is 1 when the quotient [0/0] is read as 0,
    gives 0.53. *)
Lemma confidence_without_positive_mean :
  let s := addPriceData defaultService "ZERO/PRICE"
             (observation Undefined Undefined "okx" None) 1000 in
  let history := default [] (priceHistory s !! "ZERO/PRICE") in
  let data := survivors (config s) (drop (length history - 10) history) in
  data = [unpriced]
  ∧ (∃ r, (calculateWeightedAverage s "ZERO/PRICE" 1000).1 = Ok r
          ∧ WeightedAverage.confidence r = Num (23 / 100))
  ∧ clamp01 (confidenceFormula (length data)
               (length (uniq [] (map source data)))
               (calculateStandardDeviation (map price data))
               (Q2R (mean (map price data)))
               (Q2R (mean (map weight data))))
    = (53 / 100)%R.
Proof.
  intros s history data.
  assert (Hdata : data = [unpriced]) by (vm_compute; reflexivity).
  split; [exact Hdata|]. split.
  - assert (Hok : ∃ r, (calculateWeightedAverage s "ZERO/PRICE" 1000).1 = Ok r).
    { rewrite calculateWeightedAverage_value. unfold weightedAverageValue.
      fold history. cbv zeta. fold data. rewrite Hdata.
      replace history with [unpriced] by (vm_compute; reflexivity).
      eexists. reflexivity. }
    destruct Hok as [r Hr]. exists r. split; [exact Hr|].
    rewrite calculateWeightedAverage_value in Hr.
    apply weightedAverageValue_Ok in Hr as (_ & -> & _).
    fold history. fold data. rewrite Hdata. apply calculateConfidence_unpriced.
  - rewrite Hdata.
    replace (length (uniq [] (map source [unpriced]))) with 1
      by (vm_compute; reflexivity).
    replace (mean (map price [unpriced])) with (0 # 1)%Q by (vm_compute; reflexivity).
    replace (mean (map weight [unpriced])) with (1 # 1)%Q by (vm_compute; reflexivity).
    unfold confidenceFormula, calculateStandardDeviation, Q2R. simpl. minmax.
Qed.

(** The same figures with a negative price, which [new Decimal] accepts:
    no division by zero is involved. *)
Lemma confidence_with_negative_mean :
  let d := {| price := -1; volume := None; timestamp := 1000; source := "okx";
              weight := 1; metadata := [] |} in
  calculateConfidence [d] = Num (23 / 100)
  ∧ clamp01 (confidenceFormula 1 1 (calculateStandardDeviation [price d])
               (Q2R (mean [price d])) (Q2R (mean [weight d])))
    = (53 / 100)%R.
Proof.
  intros d. split.
  - unfold calculateConfidence. cbv zeta.
    change (length [d] =? 0)%nat with false. cbv iota.
    replace (Qltb 0 (mean (map sample_price [d]))) with false
      by (vm_compute; reflexivity).
    replace (mean_undef (map sample_weight [d])) with (Some (1 # 1)%Q)
      by (vm_compute; reflexivity).
    replace (length (uniq [] (map sample_source [d]))) with 1
      by (vm_compute; reflexivity).
    f_equal. unfold Q2R. simpl. minmax.
  - replace (mean [price d]) with (-1 # 1)%Q by (vm_compute; reflexivity).
    replace (mean [weight d]) with (1 # 1)%Q by (vm_compute; reflexivity).
    unfold confidenceFormula, calculateStandardDeviation, Q2R. simpl. minmax.
Qed.

(** ** The filters are not idempotent *)

(** C7 as stated fails for both filters, with the default threshold and
    multiplier.  Of the prices 100 (seven times), 101, 103 the z-score
    filter removes 103, and then 101 from what is left.  Of the prices
    100 (four times), 101, 103 the IQR filter removes 103, and then 101
    from what is left. *)
Lemma filters_not_idempotent :
  let cfg := newConfig RawConfig.empty in
  let zData := map quote [100; 100; 100; 100; 100; 100; 100; 101; 103]%Q in
  let iqrData := map quote [100; 100; 100; 100; 101; 103]%Q in
  map price (zScoreFilter cfg zData) = [100; 100; 100; 100; 100; 100; 100; 101]%Q
  ∧ map price (zScoreFilter cfg (zScoreFilter cfg zData))
    = [100; 100; 100; 100; 100; 100; 100]%Q
  ∧ zScoreFilter cfg (zScoreFilter cfg zData) ≠ zScoreFilter cfg zData
  ∧ map price (removeOutliersIQR cfg iqrData) = [100; 100; 100; 100; 101]%Q
  ∧ map price (removeOutliersIQR cfg (removeOutliersIQR cfg iqrData))
    = [100; 100; 100; 100]%Q
  ∧ removeOutliersIQR cfg (removeOutliersIQR cfg iqrData)
    ≠ removeOutliersIQR cfg iqrData.
Proof.
  intros cfg zData iqrData. unfold zScoreFilter.
  rewrite !removeOutliersZScore_decide.
  repeat split; try (vm_compute; reflexivity); vm_compute; discriminate.
Qed.

(** C7, as the code has it: each filter returns a sub-sequence of its
    input, so a second application can only remove more; it removes
    nothing when the first application left fewer than 3 data points
    (z-score; fewer than 4 for IQR) or removed nothing. *)
Theorem outlier_filters_only_remove {A} `{Sample A} (cfg : Config) (data : list A) :
  zScoreFilter cfg data `sublist_of` data
  ∧ zScoreFilter cfg (zScoreFilter cfg data) `sublist_of` zScoreFilter cfg data
  ∧ (length (zScoreFilter cfg data) < 3 →
     zScoreFilter cfg (zScoreFilter cfg data) = zScoreFilter cfg data)
  ∧ (zScoreFilter cfg data = data →
     zScoreFilter cfg (zScoreFilter cfg data) = zScoreFilter cfg data)
  ∧ removeOutliersIQR cfg data `sublist_of` data
  ∧ removeOutliersIQR cfg (removeOutliersIQR cfg data)
      `sublist_of` removeOutliersIQR cfg data
  ∧ (length (removeOutliersIQR cfg data) < 4 →
     removeOutliersIQR cfg (removeOutliersIQR cfg data) = removeOutliersIQR cfg data)
  ∧ (removeOutliersIQR cfg data = data →
     removeOutliersIQR cfg (removeOutliersIQR cfg data) = removeOutliersIQR cfg data).
Proof.
  assert (Hz : ∀ l : list A, length l < 3 → zScoreFilter cfg l = l).
  { intros l Hl. unfold zScoreFilter, removeOutliersZScore.
    rewrite length_map.
    by replace (length l <? 3)%nat with true by (symmetry; apply Nat.ltb_lt; lia). }
  assert (Hq : ∀ l : list A, length l < 4 → removeOutliersIQR cfg l = l).
  { intros l Hl. unfold removeOutliersIQR.
    by replace (length l <? 4)%nat with true by (symmetry; apply Nat.ltb_lt; lia). }
  repeat split.
  - apply removeOutliersZScore_sublist.
  - apply removeOutliersZScore_sublist.
  - apply Hz.
  - intros Heq. by rewrite !Heq.
  - apply removeOutliersIQR_sublist.
  - apply removeOutliersIQR_sublist.
  - apply Hq.
  - intros Heq. by rewrite !Heq.
Qed.

Lemma outlier_filters_only_remove_witness :
  let cfg := newConfig RawConfig.empty in
  let data := map quote [100; 101; 103]%Q in
  removeOutliersIQR cfg (removeOutliersIQR cfg data) = removeOutliersIQR cfg data.
Proof.
  intros cfg data.
  destruct (outlier_filters_only_remove cfg data) as (_ & _ & _ & _ & _ & _ & Hq & _).
  apply Hq. vm_compute. lia.
Defined.

(** ** Observations without a volume *)




(** * Further properties of the service *)

(** ** Inserts and the other tokens *)

Lemma addPriceData_try_frame s token priceData now token' :
  token' ≠ token →
  priceHistory (addPriceData s token priceData now) !! token'
  = priceHistory s !! token'
  ∧ volumeHistory (addPriceData s token priceData now) !! token'
    = volumeHistory s !! token'.
Proof.
  intros Hne. unfold addPriceData, addPriceData_try.
  destruct (normalizePriceData s priceData now) as [nd|e]; [|done].
  cbv zeta.
  set (s1 := match priceHistory s !! token with Some _ => s | None => _ end).
  assert (H1 : priceHistory s1 !! token' = priceHistory s !! token'
               ∧ volumeHistory s1 !! token' = volumeHistory s !! token').
  { unfold s1. destruct (priceHistory s !! token); [done|]. simpl.
    by rewrite !lookup_insert_ne. }
  destruct H1 as [Hp Hv]. clearbody s1.
  destruct (volume nd) as [v|].
  - destruct (volumeHistory (set_priceHistory s1 _) !! token) as [vh|] eqn:Hvh.
    + simpl. unfold cleanupOldData. simpl.
      rewrite lookup_insert_eq. simpl. rewrite lookup_insert_eq. simpl.
      by rewrite !lookup_insert_ne.
    + simpl. by rewrite lookup_insert_ne.
  - simpl. unfold cleanupOldData. simpl. rewrite lookup_insert_eq. simpl.
    destruct (volumeHistory s1 !! token); simpl; by rewrite !lookup_insert_ne.
Qed.

(** X1: [addPriceData(token, …)] never touches the histories of another
    token, the configuration, the source weights or the calculation
    counters; when the data normalizes it adds exactly one to
    [totalPricesProcessed] and sets [lastUpdate] to [now]. *)
Theorem addPriceData_frame (s : Service) (token : string) (priceData : Raw.t)
    (now : Z) :
  reachable s →
  (∀ token', token' ≠ token →
     priceHistory (addPriceData s token priceData now) !! token'
     = priceHistory s !! token'
     ∧ volumeHistory (addPriceData s token priceData now) !! token'
       = volumeHistory s !! token')
  ∧ config (addPriceData s token priceData now) = config s
  ∧ sourceWeights (addPriceData s token priceData now) = sourceWeights s
  ∧ outliersDetected (stats (addPriceData s token priceData now))
    = outliersDetected (stats s)
  ∧ vwapCalculations (stats (addPriceData s token priceData now))
    = vwapCalculations (stats s)
  ∧ twapCalculations (stats (addPriceData s token priceData now))
    = twapCalculations (stats s)
  ∧ (∀ normalizedData,
       normalizePriceData s priceData now = Ok normalizedData →
       totalPricesProcessed (stats (addPriceData s token priceData now))
       = S (totalPricesProcessed (stats s))
       ∧ lastUpdate (stats (addPriceData s token priceData now)) = Some now).
Proof.
  intros Hr. split; [intros token' Hne; by apply addPriceData_try_frame|].
  destruct (normalizePriceData s priceData now) as [nd|e] eqn:Hn.
  - rewrite (addPriceData_stored _ _ _ _ _ (reachable_paired s Hr) Hn). simpl.
    repeat split; done.
  - rewrite (addPriceData_thrown _ _ _ _ _ Hn). repeat split; done.
Qed.

Lemma addPriceData_frame_witness :
  let s := addPriceData defaultService "SOL/USDC"
             (observation (Number (355 # 2)) (Number 1000) "okx" None) 1000 in
  priceHistory
    (addPriceData s "BTC/USDT" (observation (Number 109751) (Number 2) "binance" None)
       2000) !! "SOL/USDC"
  = priceHistory s !! "SOL/USDC".
Proof.
  intros s.
  destruct (addPriceData_frame s "BTC/USDT"
              (observation (Number 109751) (Number 2) "binance" None) 2000)
    as (Hother & _).
  - apply reachable_addPriceData, reachable_new.
  - destruct (Hother "SOL/USDC") as [Hp _]; [discriminate | exact Hp].
Defined.

(** ** Cleaning twice *)

Lemma filter_id {A} (p : A → bool) (l : list A) :
  Forall (λ x, p x = true) l → List.filter p l = l.
Proof.
  induction 1 as [|x l Hx _ IH]; simpl; [done|]. by rewrite Hx, IH.
Qed.

Lemma cleanupArray_idempotent {A} (ts : A → Z) cfg now (history : list A) :
  cleanupArray ts cfg now (cleanupArray ts cfg now history)
  = cleanupArray ts cfg now history.
Proof.
  pose proof (cleanupArray_length ts cfg now history) as Hlen.
  pose proof (cleanupArray_Forall ts cfg now history) as Hage.
  set (kept := cleanupArray ts cfg now history) in *. clearbody kept.
  unfold cleanupArray. rewrite filter_id.
  - by replace (maxHistorySize cfg <? length kept)%nat with false
      by (symmetry; apply Nat.ltb_ge; lia).
  - eapply Forall_impl; [exact Hage|]. simpl. intros d Hd. lia.
Qed.

(** X2: [cleanupOldData] is idempotent at a given time, and is a no-op
    right after a successful [addPriceData] made at that time. *)
Theorem cleanupOldData_idempotent (s : Service) (token : string) (now : Z) :
  cleanupOldData (cleanupOldData s token now) token now = cleanupOldData s token now
  ∧ (∀ priceData normalizedData,
       reachable s →
       normalizePriceData s priceData now = Ok normalizedData →
       cleanupOldData (addPriceData s token priceData now) token now
       = addPriceData s token priceData now).
Proof.
  split.
  - unfold cleanupOldData.
    destruct (priceHistory s !! token) as [h|] eqn:Hh;
      destruct (volumeHistory s !! token) as [vh|] eqn:Hvh;
      unfold set_priceHistory, set_volumeHistory;
      repeat (simpl; rewrite ?Hh, ?Hvh, ?lookup_insert_eq,
                ?insert_insert_eq, ?cleanupArray_idempotent);
      reflexivity.
  - intros priceData nd Hr Hn.
    rewrite (addPriceData_stored _ _ _ _ _ (reachable_paired s Hr) Hn).
    unfold cleanupOldData. simpl. rewrite lookup_insert_eq. simpl.
    rewrite lookup_insert_eq.
    unfold set_priceHistory, set_volumeHistory; simpl.
    by rewrite !insert_insert_eq, !cleanupArray_idempotent.
Qed.

Lemma cleanupOldData_idempotent_witness :
  let s := addPriceData defaultService "SOL/USDC"
             (observation (Number (355 # 2)) (Number 1000) "okx" None) 1000 in
  cleanupOldData
    (addPriceData s "SOL/USDC"
       (observation (Number (1776 # 10)) Undefined "binance" None) 2000)
    "SOL/USDC" 2000
  = addPriceData s "SOL/USDC"
      (observation (Number (1776 # 10)) Undefined "binance" None) 2000.
Proof.
  intros s.
  apply (proj2 (cleanupOldData_idempotent s "SOL/USDC" 2000)
           (observation (Number (1776 # 10)) Undefined "binance" None)
           {| price := 1776 # 10; volume := None; timestamp := 2000;
              source := "binance"; weight := 1; metadata := [] |}).
  - apply reachable_addPriceData, reachable_new.
  - vm_compute. reflexivity.
Defined.

(** ** The size of the store *)

(** No history of a reachable service is longer than [maxHistorySize]. *)
Lemma reachable_history_length s :
  reachable s →
  (∀ token history, priceHistory s !! token = Some history →
                    length history ≤ maxHistorySize (config s))
  ∧ (∀ token volumeHistory', volumeHistory s !! token = Some volumeHistory' →
                            length volumeHistory' ≤ maxHistorySize (config s)).
Proof.
  induction 1 as [cfg|s token priceData now Hr IH|s token _ IH|s _ IH
                 |s token w now _ IH|s token w now _ IH|s token now _ IH].
  - split; intros token h Hh; simpl in Hh; by rewrite lookup_empty in Hh.
  - destruct (normalizePriceData s priceData now) as [nd|e] eqn:Hn.
    + rewrite (addPriceData_stored _ _ _ _ _ (reachable_paired s Hr) Hn). simpl.
      split; intros token' h Hh;
        (destruct (decide (token = token')) as [->|Hne];
         [rewrite lookup_insert_eq in Hh; injection Hh as <-;
          apply cleanupArray_length
         |rewrite lookup_insert_ne in Hh by done; by eapply IH]).
    + by rewrite (addPriceData_thrown _ _ _ _ _ Hn).
  - unfold clearTokenData. simpl.
    split; intros token' h Hh; apply lookup_delete_Some in Hh as [_ Hh];
      by eapply IH.
  - split; intros token h Hh; simpl in Hh; by rewrite lookup_empty in Hh.
  - destruct (calculateVWAP_store s token w now) as (Hc&Hp&Hv&_).
    by rewrite Hc, Hp, Hv.
  - destruct (calculateTWAP_store s token w now) as (Hc&Hp&Hv&_).
    by rewrite Hc, Hp, Hv.
  - destruct (calculateWeightedAverage_store s token now) as (Hc&Hp&Hv&_).
    by rewrite Hc, Hp, Hv.
Qed.

Lemma fold_left_length_bound {A} (arrays : list (list A)) (n sum : nat) :
  Forall (λ arr, length arr ≤ n) arrays →
  fold_left (λ sum arr, sum + length arr) arrays sum ≤ sum + length arrays * n.
Proof.
  intros Hall. revert sum.
  induction Hall as [|arr arrays Harr _ IH]; intros sum; simpl; [lia|].
  etrans; [apply IH|]. lia.
Qed.

Lemma totalLength_bound {A} (m : gmap string (list A)) (n : nat) :
  (∀ token arr, m !! token = Some arr → length arr ≤ n) →
  totalLength m ≤ size m * n.
Proof.
  intros Hall. unfold totalLength.
  etrans; [apply (fold_left_length_bound _ n)|].
  - apply Forall_fmap, Forall_forall. intros [token arr] Hin. simpl.
    apply elem_of_map_to_list in Hin. by eapply Hall.
  - by rewrite length_fmap, length_map_to_list.
Qed.

Lemma paired_size s : paired s → size (volumeHistory s) = size (priceHistory s).
Proof.
  intros Hpair. rewrite <- !size_dom. f_equal. apply set_eq. intros token.
  rewrite !elem_of_dom. symmetry. apply Hpair.
Qed.

(** X3: in the statistics of a reachable service the number of stored
    price points and the number of stored volume points are each at most
    [activeTokens * maxHistorySize], and [activeTokens] also counts the
    volume histories. *)
Theorem getStats_bounds (s : Service) :
  reachable s →
  let st := getStats s in
  ServiceStats.totalDataPoints st
    ≤ ServiceStats.activeTokens st * maxHistorySize (ServiceStats.config st)
  ∧ ServiceStats.totalVolumePoints st
      ≤ ServiceStats.activeTokens st * maxHistorySize (ServiceStats.config st)
  ∧ ServiceStats.activeTokens st = size (volumeHistory s).
Proof.
  intros Hr. simpl.
  destruct (reachable_history_length s Hr) as [Hp Hv].
  rewrite <- (paired_size s (reachable_paired s Hr)).
  split; [|split; [|done]].
  - rewrite (paired_size s (reachable_paired s Hr)). by apply totalLength_bound.
  - by apply totalLength_bound.
Qed.

Lemma getStats_bounds_witness :
  let s := addAll defaultService "SOL/USDC" basicVWAPData 1000 in
  let st := getStats s in
  ServiceStats.totalDataPoints st
    ≤ ServiceStats.activeTokens st * maxHistorySize (ServiceStats.config st)
  ∧ ServiceStats.totalVolumePoints st
      ≤ ServiceStats.activeTokens st * maxHistorySize (ServiceStats.config st)
  ∧ ServiceStats.activeTokens st = size (volumeHistory s).
Proof.
  intros s. apply (getStats_bounds s).
  apply reachable_addAll, reachable_new.
Defined.

(** ** Source weights *)

(** A property of the data points that [normalizePriceData] builds holds
    of every stored data point. *)
Lemma reachable_price_entries (P : PriceData → Prop) :
  (∀ s priceData now normalizedData,
     reachable s → normalizePriceData s priceData now = Ok normalizedData →
     P normalizedData) →
  ∀ s, reachable s →
       ∀ token history d, priceHistory s !! token = Some history → d ∈ history → P d.
Proof.
  intros HP.
  induction 1 as [cfg|s token priceData now Hr IH|s token _ IH|s _ IH
                 |s token w now _ IH|s token w now _ IH|s token now _ IH];
    intros token' h d Hh Hd.
  - simpl in Hh. by rewrite lookup_empty in Hh.
  - destruct (normalizePriceData s priceData now) as [nd|e] eqn:Hn.
    + rewrite (addPriceData_stored _ _ _ _ _ (reachable_paired s Hr) Hn) in Hh.
      simpl in Hh.
      destruct (decide (token = token')) as [->|Hne].
      * rewrite lookup_insert_eq in Hh. injection Hh as <-.
        apply cleanupArray_elem_of in Hd as [Hd _].
        apply elem_of_app in Hd as [Hd|Hd].
        -- unfold histories in Hd.
           destruct (priceHistory s !! token') as [h|] eqn:Hh;
             [|by apply elem_of_nil in Hd].
           by apply (IH token' h d).
        -- apply list_elem_of_singleton in Hd as ->. by eapply HP.
      * rewrite lookup_insert_ne in Hh by done. by apply (IH token' h d).
    + rewrite (addPriceData_thrown _ _ _ _ _ Hn) in Hh. by apply (IH token' h d).
  - unfold clearTokenData in Hh. simpl in Hh.
    apply lookup_delete_Some in Hh as [_ Hh]. by apply (IH token' h d).
  - simpl in Hh. by rewrite lookup_empty in Hh.
  - destruct (calculateVWAP_store s token w now) as (_&Hp&_).
    rewrite Hp in Hh. by apply (IH token' h d).
  - destruct (calculateTWAP_store s token w now) as (_&Hp&_).
    rewrite Hp in Hh. by apply (IH token' h d).
  - destruct (calculateWeightedAverage_store s token now) as (_&Hp&_).
    rewrite Hp in Hh. by apply (IH token' h d).
Qed.

(** No method replaces the table that [initializeSourceWeights] built. *)
Lemma reachable_sourceWeights s :
  reachable s → sourceWeights s = initializeSourceWeights.
Proof.
  induction 1 as [cfg|s token priceData now Hr IH|s token _ IH|s _ IH
                 |s token w now _ IH|s token w now _ IH|s token now _ IH].
  - done.
  - destruct (normalizePriceData s priceData now) as [nd|e] eqn:Hn.
    + by rewrite (addPriceData_stored _ _ _ _ _ (reachable_paired s Hr) Hn).
    + by rewrite (addPriceData_thrown _ _ _ _ _ Hn).
  - done.
  - done.
  - destruct (calculateVWAP_store s token w now) as (_&_&_&Hw). by rewrite Hw.
  - destruct (calculateTWAP_store s token w now) as (_&_&_&Hw). by rewrite Hw.
  - destruct (calculateWeightedAverage_store s token now) as (_&_&_&Hw).
    by rewrite Hw.
Qed.

Lemma initializeSourceWeights_values src w :
  initializeSourceWeights !! src = Some w → w ∈ [1%Q; 9 # 10; 8 # 10].
Proof.
  unfold initializeSourceWeights. intros Hw.
  repeat (apply lookup_insert_Some in Hw as [[_ <-]|[_ Hw]];
          [set_solver|]).
  by rewrite lookup_empty in Hw.
Qed.

Lemma reachable_weight_values s :
  reachable s →
  ∀ token history d, priceHistory s !! token = Some history → d ∈ history →
                     weight d ∈ [1%Q; 9 # 10; 8 # 10; 1 # 2].
Proof.
  revert s.
  apply (reachable_price_entries (λ d, weight d ∈ [1%Q; 9 # 10; 8 # 10; 1 # 2])).
  intros s priceData now nd Hr Hn. unfold normalizePriceData in Hn.
  destruct (Decimal (if truthy (Raw.price priceData) then _ else _)) as [p|];
    simpl in Hn; [|done].
  destruct (if truthy (Raw.volume priceData) then _ else _) as [v|];
    simpl in Hn; [|done].
  injection Hn as <-. simpl. rewrite (reachable_sourceWeights s Hr).
  unfold orQ.
  destruct (Raw.source priceData) as [src|]; simpl; [|set_solver].
  destruct (initializeSourceWeights !! src) as [w|] eqn:Hw; [|set_solver].
  apply initializeSourceWeights_values in Hw.
  destruct (Qeq_bool w 0); [by do 3 right; left|].
  change (w ∈ [1%Q; 9 # 10; 8 # 10] ++ [1 # 2]). apply elem_of_app. by left.
Qed.

Lemma reachable_weight_pos s :
  reachable s →
  ∀ token history d, priceHistory s !! token = Some history → d ∈ history →
                     (0 < weight d)%Q.
Proof.
  intros Hr token h d Hh Hd.
  pose proof (reachable_weight_values s Hr token h d Hh Hd) as Hw.
  repeat (apply elem_of_cons in Hw as [->|Hw]; [done|]).
  by apply elem_of_nil in Hw.
Qed.

(** ** The counters of the calculators *)

Lemma advance_0 s : advance s 0 0 0 = s.
Proof.
  destruct s as [cfg ph vh sw [tp od vc tc lu]]. unfold advance, set_stats. simpl.
  by rewrite !Nat.add_0_r.
Qed.

Lemma advance_advance s a b c a' b' c' :
  advance (advance s a b c) a' b' c' = advance s (a + a') (b + b') (c + c').
Proof.
  unfold advance, set_stats. simpl. by rewrite !Nat.add_assoc.
Qed.

Lemma removeOutliers_snd {A} `{Sample A} (s : Service) (data : list A) :
  (removeOutliers s data).2
  = advance s (length data - length (survivors (config s) data)) 0 0.
Proof.
  unfold removeOutliers, survivors.
  destruct (_ <? _)%nat; simpl.
  - by rewrite Nat.sub_diag, advance_0.
  - destruct (Nat.ltb_spec 0 (length data - length
        (removeOutliersIQR (config s)
           (removeOutliersZScore (config s) data (map sample_price data))))) as [Hlt|Hge].
    + unfold advance. by rewrite !Nat.add_0_r.
    + replace (length data - _) with 0 by lia. by rewrite advance_0.
Qed.

Lemma survivors_length {A} `{Sample A} (cfg : Config) (data : list A) :
  length (survivors cfg data) ≤ length data.
Proof. apply sublist_length, survivors_sublist. Qed.

(** X5: [calculateVWAP] changes the counters only.  When it returns, it
    has added one to [vwapCalculations] and the reported number of
    outliers to [outliersDetected], and [dataPoints + outliers] is the
    number of volume entries inside the window and above the floor.
    When it throws, [vwapCalculations] is unchanged; the outliers stay
    counted when the exception is raised after the filter. *)
Theorem calculateVWAP_counters (s : Service) (token : string)
    (windowMs : option Z) (now : Z) :
  let s' := (calculateVWAP s token windowMs now).2 in
  match (calculateVWAP s token windowMs now).1 with
  | Ok r =>
      s' = advance s (VWAP.outliers r) 1 0
      ∧ VWAP.dataPoints r + VWAP.outliers r
        = length (vwapRelevant (config s)
                    (now - orZ windowMs (vwapWindow (config s)))
                    (default [] (volumeHistory s !! token)))
  | Err e =>
      ∃ outliers, s' = advance s outliers 0 0
                  ∧ (e ≠ AllOutliers → e ≠ ZeroVolume → outliers = 0)
  end.
Proof.
  unfold calculateVWAP. cbv zeta.
  destruct (volumeHistory s !! token) as [[|d vh]|];
    [exists 0; by rewrite advance_0| |exists 0; by rewrite advance_0].
  simpl default.
  set (rel := vwapRelevant _ _ _). clearbody rel.
  destruct (_ <? _)%nat; [exists 0; by rewrite advance_0|].
  pose proof (removeOutliers_snd s rel) as Hs.
  pose proof (removeOutliers_fst s rel) as Hc.
  pose proof (survivors_length (config s) rel) as Hlen.
  destruct (removeOutliers s rel) as [cleanData s1]. simpl in Hs, Hc.
  subst s1. rewrite <- Hc in *.
  destruct (_ =? _)%nat; [by eexists|].
  destruct (vwapTotals cleanData) as [tvp tv].
  destruct (Qeq_bool tv 0); [by eexists|].
  simpl. split; [|lia].
  unfold bump_vwapCalculations, advance, set_stats. simpl.
  by rewrite !Nat.add_0_r, Nat.add_1_r.
Qed.

(** X6: [calculateTWAP] changes the counters only, in the same way: one
    more [twapCalculations] and the reported outliers when it returns, no
    calculation counted when it throws. *)
Theorem calculateTWAP_counters (s : Service) (token : string)
    (windowMs : option Z) (now : Z) :
  let s' := (calculateTWAP s token windowMs now).2 in
  match (calculateTWAP s token windowMs now).1 with
  | Ok r =>
      s' = advance s (TWAP.outliers r) 0 1
      ∧ TWAP.dataPoints r + TWAP.outliers r
        = length (List.filter
                    (λ data, (now - orZ windowMs (twapWindow (config s))
                              <=? timestamp data)%Z)
                    (default [] (priceHistory s !! token)))
  | Err e =>
      ∃ outliers, s' = advance s outliers 0 0
                  ∧ (e ≠ AllOutliers → e ≠ ZeroWeight → outliers = 0)
  end.
Proof.
  unfold calculateTWAP. cbv zeta.
  destruct (priceHistory s !! token) as [[|d h]|];
    [exists 0; by rewrite advance_0| |exists 0; by rewrite advance_0].
  simpl default.
  rewrite <- (Permutation_length
                (sort_by_perm (λ a b, (timestamp a - timestamp b <=? 0)%Z)
                   (List.filter _ (d :: h)))).
  fold (twapRelevant (now - orZ windowMs (twapWindow (config s))) (d :: h)).
  set (rel := twapRelevant _ _). clearbody rel.
  destruct (_ <? _)%nat; [exists 0; by rewrite advance_0|].
  pose proof (removeOutliers_snd s rel) as Hs.
  pose proof (removeOutliers_fst s rel) as Hc.
  pose proof (survivors_length (config s) rel) as Hlen.
  destruct (removeOutliers s rel) as [cleanData s1]. simpl in Hs, Hc.
  subst s1. rewrite <- Hc in *.
  destruct (_ =? _)%nat; [by eexists|].
  destruct (twapTotals cleanData now) as [ws tw].
  destruct (Qeq_bool tw 0); [by eexists|].
  simpl. split; [|lia].
  unfold bump_twapCalculations, advance, set_stats. simpl.
  by rewrite !Nat.add_0_r, Nat.add_1_r.
Qed.

(** ** Averages lie between the extremes *)

Lemma minimum_fold (xs : list Q) (m : Q) :
  let r := fold_left (λ m y, if Qltb y m then y else m) xs m in
  (r <= m)%Q ∧ ∀ x, x ∈ xs → (r <= x)%Q.
Proof.
  revert m. induction xs as [|y xs IH]; intros m; cbv zeta; simpl.
  - split; [apply Qle_refl|]. intros x Hx. by apply elem_of_nil in Hx.
  - destruct (IH (if Qltb y m then y else m)) as [Hm Hxs].
    assert (Hym : ((if Qltb y m then y else m) <= m)%Q
                  ∧ ((if Qltb y m then y else m) <= y)%Q).
    { destruct (Qltb y m) eqn:Hlt.
      - apply Qltb_lt in Hlt. split; [by apply Qlt_le_weak | apply Qle_refl].
      - split; [apply Qle_refl|]. unfold Qltb in Hlt.
        apply negb_false_iff, Qle_bool_iff in Hlt. exact Hlt. }
    split; [eapply Qle_trans; [exact Hm | apply Hym]|].
    intros x Hx. apply elem_of_cons in Hx as [->|Hx]; [|by apply Hxs].
    eapply Qle_trans; [exact Hm | apply Hym].
Qed.

Lemma maximum_fold (xs : list Q) (m : Q) :
  let r := fold_left (λ m y, if Qltb m y then y else m) xs m in
  (m <= r)%Q ∧ ∀ x, x ∈ xs → (x <= r)%Q.
Proof.
  revert m. induction xs as [|y xs IH]; intros m; cbv zeta; simpl.
  - split; [apply Qle_refl|]. intros x Hx. by apply elem_of_nil in Hx.
  - destruct (IH (if Qltb m y then y else m)) as [Hm Hxs].
    assert (Hym : (m <= (if Qltb m y then y else m))%Q
                  ∧ (y <= (if Qltb m y then y else m))%Q).
    { destruct (Qltb m y) eqn:Hlt.
      - apply Qltb_lt in Hlt. split; [by apply Qlt_le_weak | apply Qle_refl].
      - split; [apply Qle_refl|]. unfold Qltb in Hlt.
        apply negb_false_iff, Qle_bool_iff in Hlt. exact Hlt. }
    split; [eapply Qle_trans; [apply Hym | exact Hm]|].
    intros x Hx. apply elem_of_cons in Hx as [->|Hx]; [|by apply Hxs].
    eapply Qle_trans; [apply Hym | exact Hm].
Qed.

Lemma minimum_le (xs : list Q) (x : Q) : x ∈ xs → (minimum xs <= x)%Q.
Proof.
  destruct xs as [|y xs]; [intros Hx; by apply elem_of_nil in Hx|].
  intros Hx. unfold minimum. destruct (minimum_fold xs y) as [Hy Hxs].
  apply elem_of_cons in Hx as [->|Hx]; [done | by apply Hxs].
Qed.

Lemma maximum_ge (xs : list Q) (x : Q) : x ∈ xs → (x <= maximum xs)%Q.
Proof.
  destruct xs as [|y xs]; [intros Hx; by apply elem_of_nil in Hx|].
  intros Hx. unfold maximum. destruct (maximum_fold xs y) as [Hy Hxs].
  apply elem_of_cons in Hx as [->|Hx]; [done | by apply Hxs].
Qed.

Lemma fold_left_choice {A} (f : A → A → A) (xs : list A) (m : A) :
  (∀ m y, f m y = m ∨ f m y = y) → fold_left f xs m ∈ m :: xs.
Proof.
  intros Hf. revert m. induction xs as [|y xs IH]; intros m; simpl; [by left|].
  specialize (IH (f m y)). apply elem_of_cons in IH as [IH|IH].
  - rewrite IH. destruct (Hf m y) as [->| ->]; [left | right; left].
  - by do 2 right.
Qed.

Lemma Qdiv_between (a b lo hi : Q) :
  (0 < b)%Q → (lo * b <= a)%Q → (a <= hi * b)%Q → (lo <= a / b <= hi)%Q.
Proof.
  intros Hb Hlo Hhi. split.
  - by apply Qle_shift_div_l.
  - by apply Qle_shift_div_r.
Qed.

(** A loop that accumulates [Σ pᵢ·wᵢ] and [Σ wᵢ] with weights that are
    not negative keeps the first sum between [lo·Σ wᵢ] and [hi·Σ wᵢ]. *)
Lemma weighted_fold_between {A} (step : Q * Q → A → Q * Q) (p w : A → Q)
    (lo hi : Q) (l : list A) (acc : Q * Q) :
  (∀ a b x, step (a, b) x = ((a + p x * w x)%Q, (b + w x)%Q)) →
  (∀ x, x ∈ l → (0 <= w x)%Q ∧ (lo <= p x)%Q ∧ (p x <= hi)%Q) →
  (lo * acc.2 <= acc.1)%Q → (acc.1 <= hi * acc.2)%Q → (0 <= acc.2)%Q →
  let r := fold_left step l acc in
  (lo * r.2 <= r.1)%Q ∧ (r.1 <= hi * r.2)%Q ∧ (0 <= r.2)%Q.
Proof.
  intros Hstep. revert acc.
  induction l as [|x l IH]; intros [a b] Hl Hlo Hhi Hb; cbv zeta; simpl.
  - done.
  - rewrite Hstep. simpl in Hlo, Hhi, Hb.
    destruct (Hl x) as (Hw & Hpl & Hph); [by left|].
    apply IH; simpl.
    + intros y Hy. apply Hl. by right.
    + nra.
    + nra.
    + lra.
Qed.

Lemma vwapTotals_between (cleanData : list Vol.t) (lo hi : Q) :
  (∀ d, d ∈ cleanData →
        (0 <= Vol.volume d)%Q ∧ (lo <= Vol.price d)%Q ∧ (Vol.price d <= hi)%Q) →
  (lo * (vwapTotals cleanData).2 <= (vwapTotals cleanData).1)%Q
  ∧ ((vwapTotals cleanData).1 <= hi * (vwapTotals cleanData).2)%Q
  ∧ (0 <= (vwapTotals cleanData).2)%Q.
Proof.
  intros Hall. unfold vwapTotals.
  apply (weighted_fold_between _ Vol.price Vol.volume); simpl; try done; lra.
Qed.

Lemma weightedTotals_between (cleanData : list PriceData) (lo hi : Q) :
  (∀ d, d ∈ cleanData → (0 <= weight d)%Q ∧ (lo <= price d)%Q ∧ (price d <= hi)%Q) →
  (lo * (weightedTotals cleanData).2 <= (weightedTotals cleanData).1)%Q
  ∧ ((weightedTotals cleanData).1 <= hi * (weightedTotals cleanData).2)%Q
  ∧ (0 <= (weightedTotals cleanData).2)%Q.
Proof.
  intros Hall. unfold weightedTotals.
  apply (weighted_fold_between _ price weight); simpl; try done; lra.
Qed.

(** With weights above 0 the total weight of a non-empty list is above 0. *)
Lemma weightedTotals_pos (cleanData : list PriceData) :
  cleanData ≠ [] → (∀ d, d ∈ cleanData → (0 < weight d)%Q) →
  (0 < (weightedTotals cleanData).2)%Q.
Proof.
  intros Hne Hall. unfold weightedTotals.
  destruct cleanData as [|d rest]; [done|]. simpl.
  assert (Hd : (0 < weight d)%Q) by (apply Hall; by left).
  assert (Hrest : ∀ x, x ∈ rest → (0 <= weight x)%Q ∧ (0 <= 0)%Q ∧ (0 <= 0)%Q).
  { intros x Hx. split; [apply Qlt_le_weak, Hall; by right | split; lra]. }
  clear Hall Hne.
  assert (Hgen : ∀ acc : Q * Q, (0 < acc.2)%Q →
            (0 < (fold_left
                    (λ '(weightedSum, totalWeight) data,
                       ((weightedSum + price data * weight data)%Q,
                        (totalWeight + weight data)%Q)) rest acc).2)%Q).
  { clear Hd. induction rest as [|x rest IH]; intros [a b] Hb; simpl; [done|].
    apply IH.
    - intros y Hy. apply Hrest. by right.
    - simpl in *. destruct (Hrest x) as [Hx _]; [by left|]. lra. }
  apply Hgen. simpl. lra.
Qed.

(** What a successful calculation returns, field by field. *)
Lemma vwapValue_inv cfg volumeHistory windowMs now r :
  vwapValue cfg volumeHistory windowMs now = Ok r →
  let windowMs' := orZ windowMs (vwapWindow cfg) in
  let relevantData := vwapRelevant cfg (now - windowMs') volumeHistory in
  let cleanData := survivors cfg relevantData in
  cleanData ≠ []
  ∧ ¬ ((vwapTotals cleanData).2 == 0)%Q
  ∧ r = {| VWAP.vwap := ((vwapTotals cleanData).1 / (vwapTotals cleanData).2)%Q;
           VWAP.totalVolume := (vwapTotals cleanData).2;
           VWAP.dataPoints := length cleanData;
           VWAP.outliers := length relevantData - length cleanData;
           VWAP.timeWindow := windowMs';
           VWAP.timestamp := now;
           VWAP.sources := uniq [] (map Vol.source cleanData);
           VWAP.confidence := calculateConfidence cleanData;
           VWAP.minPrice := minimum (map Vol.price cleanData);
           VWAP.maxPrice := maximum (map Vol.price cleanData);
           VWAP.avgVolume :=
             ((vwapTotals cleanData).2 / Qnat (length cleanData))%Q |}.
Proof.
  unfold vwapValue. cbv zeta.
  destruct volumeHistory as [|d vh]; [done|].
  set (rel := vwapRelevant _ _ _). clearbody rel.
  destruct (_ <? _)%nat; [done|].
  destruct (survivors cfg rel) as [|c clean] eqn:Hclean; [done|].
  simpl length. simpl Nat.eqb. cbv iota.
  destruct (Qeq_bool _ 0) eqn:Hz; [done|].
  intros [= <-]. split; [done|]. split; [|done].
  intros Hq. apply Qeq_bool_iff in Hq. congruence.
Qed.

Lemma twapValue_inv cfg history windowMs now r :
  twapValue cfg history windowMs now = Ok r →
  let windowMs' := orZ windowMs (twapWindow cfg) in
  let relevantData := twapRelevant (now - windowMs') history in
  let cleanData := survivors cfg relevantData in
  cleanData ≠ []
  ∧ ¬ ((twapTotals cleanData now).2 == 0)%Q
  ∧ r = {| TWAP.twap :=
             ((twapTotals cleanData now).1 / (twapTotals cleanData now).2)%Q;
           TWAP.dataPoints := length cleanData;
           TWAP.outliers := length relevantData - length cleanData;
           TWAP.timeWindow := windowMs';
           TWAP.timestamp := now;
           TWAP.sources := uniq [] (map source cleanData);
           TWAP.confidence := calculateConfidence cleanData;
           TWAP.minPrice := minimum (map price cleanData);
           TWAP.maxPrice := maximum (map price cleanData);
           TWAP.priceStdDev := calculateStandardDeviation (map price cleanData);
           TWAP.timeSpread :=
             (from_option timestamp 0 (last cleanData)
              - from_option timestamp 0 (head cleanData))%Z |}.
Proof.
  unfold twapValue. cbv zeta.
  destruct history as [|d h]; [done|].
  set (rel := twapRelevant _ _). clearbody rel.
  destruct (_ <? _)%nat; [done|].
  destruct (survivors cfg rel) as [|c clean] eqn:Hclean; [done|].
  simpl length. simpl Nat.eqb. cbv iota.
  destruct (Qeq_bool _ 0) eqn:Hz; [done|].
  intros [= <-]. split; [done|]. split; [|done].
  intros Hq. apply Qeq_bool_iff in Hq. congruence.
Qed.

Lemma weightedAverageValue_inv cfg history now r :
  weightedAverageValue cfg history now = Ok r →
  let cleanData := survivors cfg (drop (length history - 10) history) in
  cleanData ≠ []
  ∧ r = {| WeightedAverage.price :=
             ((weightedTotals cleanData).1 / (weightedTotals cleanData).2)%Q;
           WeightedAverage.dataPoints := length cleanData;
           WeightedAverage.confidence := calculateConfidence cleanData;
           WeightedAverage.timestamp := now |}.
Proof.
  unfold weightedAverageValue. cbv zeta.
  destruct history as [|d h]; [done|].
  set (rel := drop _ _). clearbody rel.
  destruct (survivors cfg rel) as [|c clean] eqn:Hclean; [done|].
  simpl length. simpl Nat.eqb. cbv iota.
  by intros [= <-].
Qed.

Lemma Qnonneg_nonzero_pos (q : Q) : (0 <= q)%Q → ¬ (q == 0)%Q → (0 < q)%Q.
Proof.
  intros Hle Hne. apply Qle_lteq in Hle as [Hlt|Heq]; [done|].
  exfalso. apply Hne. by symmetry.
Qed.

(** X7: when [minVolume] is not negative, the price that [calculateVWAP]
    returns lies between the [minPrice] and the [maxPrice] that it
    reports, and the reported total volume is above 0. *)
Theorem vwap_between_min_and_max (s : Service) (token : string)
    (windowMs : option Z) (now : Z) (r : VWAP.t) :
  (0 <= minVolume (config s))%Q →
  (calculateVWAP s token windowMs now).1 = Ok r →
  (VWAP.minPrice r <= VWAP.vwap r)%Q ∧ (VWAP.vwap r <= VWAP.maxPrice r)%Q
  ∧ (0 < VWAP.totalVolume r)%Q.
Proof.
  intros Hmin Hr. rewrite calculateVWAP_value in Hr.
  apply vwapValue_inv in Hr as (Hne & Hnz & ->). simpl.
  set (rel := vwapRelevant _ _ _) in *.
  set (clean := survivors (config s) rel) in *.
  destruct (vwapTotals_between clean (minimum (map Vol.price clean))
              (maximum (map Vol.price clean))) as (Hlo & Hhi & Hpos).
  { intros d Hd. split; [|split].
    - assert (Hrel : d ∈ rel) by (eapply elem_of_sublist; [exact Hd|apply survivors_sublist]).
      apply vwapRelevant_floor in Hrel as (_ & _ & Hv).
      eapply Qle_trans; [exact Hmin | exact Hv].
    - apply minimum_le, list_elem_of_fmap. by exists d.
    - apply maximum_ge, list_elem_of_fmap. by exists d. }
  pose proof (Qnonneg_nonzero_pos _ Hpos Hnz) as Hgt.
  destruct (Qdiv_between _ _ _ _ Hgt Hlo Hhi). done.
Qed.

Lemma vwap_between_min_and_max_witness :
  ∃ r, (calculateVWAP (addAll defaultService "SOL/USDC" basicVWAPData 1000)
          "SOL/USDC" None 1000).1 = Ok r
       ∧ (VWAP.minPrice r <= VWAP.vwap r)%Q ∧ (VWAP.vwap r <= VWAP.maxPrice r)%Q
       ∧ (0 < VWAP.totalVolume r)%Q.
Proof.
  destruct basicVWAP_value as (r & Hr & _). exists r. split; [exact Hr|].
  apply (vwap_between_min_and_max
           (addAll defaultService "SOL/USDC" basicVWAPData 1000)
           "SOL/USDC" None 1000 r); [|exact Hr].
  vm_compute. discriminate.
Defined.

(** With ascending timestamps, none of them after [now], and source
    weights that are not negative, no combined weight is negative. *)
Lemma combined_between (snapshot : list PriceData) (now : Z) (lo hi : Q) :
  StronglySorted byTime snapshot →
  (∀ d, d ∈ snapshot →
        (timestamp d ≤ now)%Z ∧ (0 <= weight d)%Q
        ∧ (lo <= price d)%Q ∧ (price d <= hi)%Q) →
  (lo * combinedWeightSum snapshot now <= weightedPriceSum snapshot now)%Q
  ∧ (weightedPriceSum snapshot now <= hi * combinedWeightSum snapshot now)%Q
  ∧ (0 <= combinedWeightSum snapshot now)%Q.
Proof.
  unfold combinedWeightSum, weightedPriceSum.
  induction 1 as [|d rest Hrest IH Hd]; intros Hall.
  - simpl. split; [lra|]. split; lra.
  - destruct IH as (IHlo & IHhi & IHpos).
    { intros x Hx. apply Hall. by right. }
    destruct (Hall d) as (Hnow & Hw & Hlo & Hhi); [by left|].
    set (timeWeight := match rest with
                       | [] => (now - timestamp d)%Z
                       | next :: _ => (timestamp next - timestamp d)%Z
                       end).
    assert (Htw : (0 <= inject_Z timeWeight)%Q).
    { change 0%Q with (inject_Z 0). rewrite <- Zle_Qle. unfold timeWeight.
      destruct rest as [|next rest']; [lia|].
      apply Forall_cons in Hd as [Hd _]. unfold byTime in Hd. lia. }
    change (combinedWeights (d :: rest) now)
      with ((inject_Z timeWeight * weight d)%Q :: combinedWeights rest now).
    simpl.
    set (W := sumQ (combinedWeights rest now)) in *.
    set (P := sumQ (zip_with _ rest _)) in *.
    assert (Hc : (0 <= inject_Z timeWeight * weight d)%Q)
      by (by apply Qmult_le_0_compat).
    set (c := (inject_Z timeWeight * weight d)%Q) in *.
    split; [nra|]. split; [nra|lra].
Qed.

Lemma twapRelevant_cutoff cutoffTime history d :
  d ∈ twapRelevant cutoffTime history → (cutoffTime ≤ timestamp d)%Z.
Proof.
  unfold twapRelevant. rewrite sort_by_perm.
  intros Hd. apply list_elem_of_In, filter_In in Hd as [_ Hd]. lia.
Qed.

Lemma sorted_head_last (l : list PriceData) :
  StronglySorted byTime l →
  (from_option timestamp 0 (head l) ≤ from_option timestamp 0 (last l))%Z.
Proof.
  intros Hs. destruct l as [|x l]; [done|]. simpl head. simpl from_option at 1.
  destruct (last (x :: l)) as [y|] eqn:Hl; [|by apply last_None in Hl].
  simpl. apply last_Some_elem_of, elem_of_cons in Hl as [->|Hl]; [done|].
  apply StronglySorted_inv in Hs as [_ Hx].
  rewrite Forall_forall in Hx. by apply Hx.
Qed.

(** X8: on a reachable service whose history of the token holds no
    timestamp after [now], the price that [calculateTWAP] returns lies
    between the [minPrice] and the [maxPrice] that it reports, and the
    reported [timeSpread] lies between 0 and the time window. *)
Theorem twap_between_min_and_max (s : Service) (token : string)
    (windowMs : option Z) (now : Z) (r : TWAP.t) :
  reachable s →
  (∀ history d, priceHistory s !! token = Some history → d ∈ history →
                (timestamp d ≤ now)%Z) →
  (calculateTWAP s token windowMs now).1 = Ok r →
  (TWAP.minPrice r <= TWAP.twap r)%Q ∧ (TWAP.twap r <= TWAP.maxPrice r)%Q
  ∧ (0 ≤ TWAP.timeSpread r ≤ TWAP.timeWindow r)%Z.
Proof.
  intros Hreach Hnow Hr. rewrite calculateTWAP_value in Hr.
  destruct (priceHistory s !! token) as [history|] eqn:Hh; [|done].
  simpl default in Hr.
  apply twapValue_inv in Hr as (Hne & Hnz & ->). simpl.
  set (rel := twapRelevant _ _) in *.
  set (clean := survivors (config s) rel) in *.
  assert (Hsub : clean `sublist_of` rel) by apply survivors_sublist.
  assert (Hsorted : StronglySorted byTime clean).
  { eapply StronglySorted_sublist; [exact Hsub | apply twapRelevant_sorted]. }
  assert (Hin : ∀ d, d ∈ clean → d ∈ history ∧ d ∈ rel).
  { intros d Hd. assert (d ∈ rel) by (by eapply elem_of_sublist).
    split; [by eapply twapRelevant_elem_of | done]. }
  destruct (twapTotals_sums clean now) as [Hws Htw].
  destruct (combined_between clean now (minimum (map price clean))
              (maximum (map price clean)) Hsorted) as (Hlo & Hhi & Hpos).
  { intros d Hd. destruct (Hin d Hd) as [Hdh _].
    split; [by eapply Hnow|]. split; [|split].
    - apply Qlt_le_weak. by eapply reachable_weight_pos.
    - apply minimum_le, list_elem_of_fmap. by exists d.
    - apply maximum_ge, list_elem_of_fmap. by exists d. }
  rewrite <- Hws, <- Htw in *.
  pose proof (Qnonneg_nonzero_pos _ Hpos Hnz) as Hgt.
  destruct (Qdiv_between _ _ _ _ Hgt Hlo Hhi) as [H1 H2].
  split; [done|]. split; [done|].
  split; [pose proof (sorted_head_last clean Hsorted); lia|].
  destruct clean as [|c clean'] eqn:Hc; [done|].
  destruct (last (c :: clean')) as [l|] eqn:Hl; [|by apply last_None in Hl].
  simpl. apply last_Some_elem_of in Hl.
  destruct (Hin l Hl) as [Hlh _].
  destruct (Hin c) as [_ Hcr]; [by left|].
  apply twapRelevant_cutoff in Hcr.
  specialize (Hnow history l eq_refl Hlh). lia.
Qed.

Lemma twap_between_min_and_max_witness :
  ∃ r, (calculateTWAP (addAll defaultService "SOL/USDC" weightedTWAPData 1000000)
          "SOL/USDC" None 1000000).1 = Ok r
       ∧ (TWAP.minPrice r <= TWAP.twap r)%Q ∧ (TWAP.twap r <= TWAP.maxPrice r)%Q
       ∧ (0 ≤ TWAP.timeSpread r ≤ TWAP.timeWindow r)%Z.
Proof.
  destruct weightedTWAP_returns as [r Hr]. exists r. split; [exact Hr|].
  apply (twap_between_min_and_max
           (addAll defaultService "SOL/USDC" weightedTWAPData 1000000)
           "SOL/USDC" None 1000000 r); [| |exact Hr].
  - apply reachable_addAll, reachable_new.
  - intros history d Hh Hd.
    assert (Hs : priceHistory
                   (addAll defaultService "SOL/USDC" weightedTWAPData 1000000)
                   !! "SOL/USDC" = Some weightedTWAPSnapshot)
      by (vm_compute; reflexivity).
    rewrite Hs in Hh. injection Hh as <-. clear Hr Hs.
    repeat (apply elem_of_cons in Hd as [->|Hd]; [simpl; lia|]).
    by apply elem_of_nil in Hd.
Defined.

(** X9: on a reachable service the divisor of [calculateWeightedAverage]
    is above 0; the price that it returns is computed from at most ten
    data points and lies between the lowest and the highest price of the
    token's history. *)
Theorem weightedAverage_between (s : Service) (token : string) (now : Z)
    (r : WeightedAverage.t) :
  reachable s →
  (calculateWeightedAverage s token now).1 = Ok r →
  ∃ history,
    priceHistory s !! token = Some history
    ∧ (0 < (weightedTotals
              (survivors (config s) (drop (length history - 10) history))).2)%Q
    ∧ (minimum (map price history) <= WeightedAverage.price r)%Q
    ∧ (WeightedAverage.price r <= maximum (map price history))%Q
    ∧ 0 < WeightedAverage.dataPoints r ≤ 10.
Proof.
  intros Hreach Hr. rewrite calculateWeightedAverage_value in Hr.
  destruct (priceHistory s !! token) as [history|] eqn:Hh; [|done].
  simpl default in Hr. exists history. split; [done|].
  apply weightedAverageValue_inv in Hr as (Hne & ->). simpl.
  set (recent := drop _ history) in *.
  set (clean := survivors (config s) recent) in *.
  assert (Hin : ∀ d, d ∈ clean → d ∈ history).
  { intros d Hd. eapply elem_of_sublist; [exact Hd|].
    etrans; [apply survivors_sublist | apply sublist_drop]. }
  assert (Hpos : (0 < (weightedTotals clean).2)%Q).
  { apply weightedTotals_pos; [done|].
    intros d Hd. eapply reachable_weight_pos; eauto. }
  destruct (weightedTotals_between clean (minimum (map price history))
              (maximum (map price history))) as (Hlo & Hhi & _).
  { intros d Hd. split; [|split].
    - apply Qlt_le_weak. eapply reachable_weight_pos; eauto.
    - apply minimum_le, list_elem_of_fmap. exists d. auto.
    - apply maximum_ge, list_elem_of_fmap. exists d. auto. }
  destruct (Qdiv_between _ _ _ _ Hpos Hlo Hhi) as [H1 H2].
  split; [done|]. split; [done|]. split; [done|].
  pose proof (survivors_length (config s) recent) as Hlen.
  fold clean in Hlen. unfold recent in Hlen. rewrite length_drop in Hlen.
  destruct clean; [done|]. simpl in *. lia.
Qed.

Lemma weightedAverage_between_witness :
  let s := addAll defaultService "SOL/USDC" singleTimeData 1000 in
  ∃ r history,
    (calculateWeightedAverage s "SOL/USDC" 1000).1 = Ok r
    ∧ priceHistory s !! "SOL/USDC" = Some history
    ∧ (0 < (weightedTotals
              (survivors (config s) (drop (length history - 10) history))).2)%Q
    ∧ (minimum (map price history) <= WeightedAverage.price r)%Q
    ∧ (WeightedAverage.price r <= maximum (map price history))%Q
    ∧ 0 < WeightedAverage.dataPoints r ≤ 10.
Proof.
  intros s.
  assert (Hs : survivors (config s)
                 (drop (length singleTimeSnapshot - 10) singleTimeSnapshot)
               = singleTimeSnapshot)
    by (rewrite survivors_decide; vm_compute; reflexivity).
  assert (Hh : priceHistory s !! "SOL/USDC" = Some singleTimeSnapshot)
    by (vm_compute; reflexivity).
  assert (Hr : ∃ r, (calculateWeightedAverage s "SOL/USDC" 1000).1 = Ok r).
  { rewrite calculateWeightedAverage_value, Hh. simpl default.
    unfold weightedAverageValue. cbv zeta. rewrite Hs. by eexists. }
  destruct Hr as [r Hr]. exists r.
  destruct (weightedAverage_between s "SOL/USDC" 1000 r) as (history & H).
  - apply reachable_addAll, reachable_new.
  - exact Hr.
  - exists history. split; [exact Hr | exact H].
Defined.

(** ** The recommended price *)

Lemma jsgt_trans_false (c' best current : jsnum) :
  jsgt current best = true → jsgt c' best = false → jsgt c' current = false.
Proof.
  unfold jsgt, Rltb.
  destruct current as [|a]; [done|]. destruct best as [|b]; [done|].
  destruct c' as [|z]; [done|].
  destruct (Rlt_dec b a); [|done]. destruct (Rlt_dec b z); [done|].
  destruct (Rlt_dec a z); [lra|done].
Qed.

Lemma jsgt_irrefl (a : jsnum) : jsgt a a = false.
Proof.
  unfold jsgt, Rltb. destruct a as [|x]; [done|].
  destruct (Rlt_dec x x); [lra|done].
Qed.

(** [reduce] returns one of the candidates. *)
Lemma fold_better_elem (others : list Candidate.t) (first : Candidate.t) :
  fold_left better others first ∈ first :: others.
Proof.
  apply fold_left_choice. intros best current. unfold better.
  destruct (jsgt _ _); auto.
Qed.

(** No candidate compares greater than the one that [reduce] returns. *)
Lemma fold_better_max (others : list Candidate.t) (first : Candidate.t)
    (seen : list Candidate.t) :
  (∀ c', c' ∈ seen → jsgt (score c') (score first) = false) →
  ∀ c', c' ∈ first :: seen ++ others →
        jsgt (score c') (score (fold_left better others first)) = false.
Proof.
  revert first seen. induction others as [|current others IH];
    intros first seen Hseen c' Hc'; simpl.
  - rewrite app_nil_r in Hc'.
    apply elem_of_cons in Hc' as [->|Hc']; [apply jsgt_irrefl | by apply Hseen].
  - apply (IH (better first current) (first :: current :: seen)).
    + intros c Hc. unfold better.
      destruct (jsgt (score current) (score first)) eqn:Hgt.
      * apply elem_of_cons in Hc as [->|Hc].
        { eapply jsgt_trans_false; [exact Hgt | apply jsgt_irrefl]. }
        apply elem_of_cons in Hc as [->|Hc]; [apply jsgt_irrefl|].
        eapply jsgt_trans_false; [exact Hgt | by apply Hseen].
      * apply elem_of_cons in Hc as [->|Hc]; [apply jsgt_irrefl|].
        apply elem_of_cons in Hc as [->|Hc]; [exact Hgt | by apply Hseen].
    + right. simpl.
      apply elem_of_cons in Hc' as [->|Hc']; [by left|].
      apply elem_of_app in Hc' as [Hc'|Hc'].
      { do 2 right. apply elem_of_app. by left. }
      apply elem_of_cons in Hc' as [->|Hc']; [right; by left|].
      do 2 right. apply elem_of_app. by right.
Qed.

(** X10: [selectBestPrice] reports an error exactly when there is no
    candidate; otherwise it returns one of the candidates, no candidate
    has a score that compares greater than the score of the returned
    one, and the first candidate is returned unless a later one has a
    score that compares greater than its score. *)
Theorem selectBestPrice_best (results : Results.t) :
  match selectBestPrice results with
  | NoValidPrice => candidates results = []
  | Best c =>
      c ∈ candidates results
      ∧ (∀ c', c' ∈ candidates results → jsgt (score c') (score c) = false)
      ∧ (∀ first others,
           candidates results = first :: others →
           (∀ c', c' ∈ others → jsgt (score c') (score first) = false) →
           c = first)
  end.
Proof.
  unfold selectBestPrice.
  destruct (candidates results) as [|first others]; [done|].
  split; [apply fold_better_elem|]. split.
  - intros c' Hc'. apply (fold_better_max others first []); [|done].
    intros c Hc. by apply elem_of_nil in Hc.
  - intros first' others' [= <- <-] Hle. clear results.
    induction others as [|current others IH]; simpl; [done|].
    unfold better at 2. rewrite (Hle current) by (by left).
    apply IH. intros c' Hc'. apply Hle. by right.
Qed.

(** ** The aggregated price *)

(** A first candidate of score [NaN] is never replaced. *)
Lemma fold_better_NaN (others : list Candidate.t) (first : Candidate.t) :
  score first = NaN → fold_left better others first = first.
Proof.
  intros Hnan. induction others as [|current others IH]; simpl; [done|].
  unfold better at 2. rewrite Hnan.
  replace (jsgt (score current) NaN) with false; [exact IH|].
  unfold jsgt. by destruct (score current).
Qed.

(** X11: whenever [calculateVWAP] returns, [getAggregatedPrice]
    recommends the VWAP, whatever the other two calculations gave: the
    confidence of the VWAP is [NaN], and no score compares greater than
    [NaN]. *)
Theorem getAggregatedPrice_recommends_vwap (s : Service) (token : string)
    (options : Options.t) (now : Z) (r : VWAP.t) :
  (calculateVWAP s token (Options.vwapWindow options) now).1 = Ok r →
  Aggregated.recommendedPrice (getAggregatedPrice s token options now).1
  = Best {| Candidate.type := "vwap";
            Candidate.price := VWAP.vwap r;
            Candidate.confidence := NaN;
            Candidate.dataPoints := VWAP.dataPoints r |}.
Proof.
  intros Hr. pose proof (calculateVWAP_confidence_NaN _ _ _ _ _ Hr) as Hnan.
  unfold getAggregatedPrice.
  destruct (calculateVWAP s token (Options.vwapWindow options) now) as [vwap s1].
  simpl in Hr. subst vwap.
  destruct (calculateTWAP s1 token (Options.twapWindow options) now) as [twap s2].
  destruct (calculateWeightedAverage s2 token now) as [weightedAverage s3].
  simpl. unfold selectBestPrice, candidates. simpl.
  rewrite fold_better_NaN; [by rewrite Hnan|].
  unfold score. simpl. by rewrite Hnan.
Qed.

Lemma getAggregatedPrice_recommends_vwap_witness :
  ∃ r, (calculateVWAP (addAll defaultService "SOL/USDC" basicVWAPData 1000)
          "SOL/USDC" None 1000).1 = Ok r
       ∧ Aggregated.recommendedPrice
           (getAggregatedPrice (addAll defaultService "SOL/USDC" basicVWAPData 1000)
              "SOL/USDC" Options.empty 1000).1
         = Best {| Candidate.type := "vwap";
                   Candidate.price := VWAP.vwap r;
                   Candidate.confidence := NaN;
                   Candidate.dataPoints := VWAP.dataPoints r |}.
Proof.
  destruct basicVWAP_value as (r & Hr & _). exists r. split; [exact Hr|].
  apply (getAggregatedPrice_recommends_vwap
           (addAll defaultService "SOL/USDC" basicVWAPData 1000)
           "SOL/USDC" Options.empty 1000 r).
  exact Hr.
Defined.

Lemma calculateVWAP_snd s token windowMs now :
  ∃ outliers,
    (calculateVWAP s token windowMs now).2
    = advance s outliers
        (match (calculateVWAP s token windowMs now).1 with
         | Ok _ => 1 | Err _ => 0 end) 0.
Proof.
  unfold calculateVWAP. cbv zeta.
  destruct (volumeHistory s !! token) as [[|d vh]|];
    [exists 0; by rewrite advance_0| |exists 0; by rewrite advance_0].
  set (rel := vwapRelevant _ _ _). clearbody rel.
  destruct (_ <? _)%nat; [exists 0; by rewrite advance_0|].
  pose proof (removeOutliers_snd s rel) as Hs.
  destruct (removeOutliers s rel) as [cleanData s1]. simpl in Hs. subst s1.
  destruct (_ =? _)%nat; [by eexists|].
  destruct (vwapTotals cleanData) as [tvp tv].
  destruct (Qeq_bool tv 0); [by eexists|].
  exists (length rel - length (survivors (config s) rel)).
  simpl. unfold bump_vwapCalculations, advance, set_stats. simpl.
  by rewrite !Nat.add_0_r, Nat.add_1_r.
Qed.

Lemma calculateTWAP_snd s token windowMs now :
  ∃ outliers,
    (calculateTWAP s token windowMs now).2
    = advance s outliers 0
        (match (calculateTWAP s token windowMs now).1 with
         | Ok _ => 1 | Err _ => 0 end).
Proof.
  unfold calculateTWAP. cbv zeta.
  destruct (priceHistory s !! token) as [[|d h]|];
    [exists 0; by rewrite advance_0| |exists 0; by rewrite advance_0].
  set (rel := twapRelevant _ _). clearbody rel.
  destruct (_ <? _)%nat; [exists 0; by rewrite advance_0|].
  pose proof (removeOutliers_snd s rel) as Hs.
  destruct (removeOutliers s rel) as [cleanData s1]. simpl in Hs. subst s1.
  destruct (_ =? _)%nat; [by eexists|].
  destruct (twapTotals cleanData now) as [ws tw].
  destruct (Qeq_bool tw 0); [by eexists|].
  exists (length rel - length (survivors (config s) rel)).
  simpl. unfold bump_twapCalculations, advance, set_stats. simpl.
  by rewrite !Nat.add_0_r, Nat.add_1_r.
Qed.

Lemma calculateWeightedAverage_snd s token now :
  ∃ outliers, (calculateWeightedAverage s token now).2 = advance s outliers 0 0.
Proof.
  unfold calculateWeightedAverage. cbv zeta.
  destruct (priceHistory s !! token) as [[|d h]|];
    [exists 0; by rewrite advance_0| |exists 0; by rewrite advance_0].
  set (rel := drop _ _). clearbody rel.
  pose proof (removeOutliers_snd s rel) as Hs.
  destruct (removeOutliers s rel) as [cleanData s1]. simpl in Hs. subst s1.
  destruct (_ =? _)%nat; [by eexists|].
  destruct (weightedTotals cleanData) as [ws tw]. by eexists.
Qed.

(** [getAggregatedPrice] is its three calculators in a row. *)
Lemma getAggregatedPrice_snd s token options now :
  (getAggregatedPrice s token options now).2
  = (calculateWeightedAverage
       (calculateTWAP
          (calculateVWAP s token (Options.vwapWindow options) now).2
          token (Options.twapWindow options) now).2
       token now).2.
Proof.
  unfold getAggregatedPrice.
  destruct (calculateVWAP s token (Options.vwapWindow options) now) as [vwap s1].
  simpl.
  destruct (calculateTWAP s1 token (Options.twapWindow options) now) as [twap s2].
  simpl.
  by destruct (calculateWeightedAverage s2 token now) as [weightedAverage s3].
Qed.

Lemma getAggregatedPrice_fst s token options now :
  let v := calculateVWAP s token (Options.vwapWindow options) now in
  let t := calculateTWAP v.2 token (Options.twapWindow options) now in
  let w := calculateWeightedAverage t.2 token now in
  let results :=
    {| Results.vwap := returned v.1; Results.vwapError := thrown v.1;
       Results.twap := returned t.1; Results.twapError := thrown t.1;
       Results.weightedAverage := returned w.1;
       Results.weightedAverageError := thrown w.1 |} in
  (getAggregatedPrice s token options now).1
  = {| Aggregated.token := token;
       Aggregated.timestamp := now;
       Aggregated.results := results;
       Aggregated.recommendedPrice := selectBestPrice results;
       Aggregated.dataPoints := from_option length 0 (priceHistory w.2 !! token);
       Aggregated.volumePoints := from_option length 0 (volumeHistory w.2 !! token);
       Aggregated.sources := getActiveSources w.2 token now |}.
Proof.
  unfold getAggregatedPrice. cbv zeta.
  destruct (calculateVWAP s token (Options.vwapWindow options) now) as [vwap s1].
  simpl.
  destruct (calculateTWAP s1 token (Options.twapWindow options) now) as [twap s2].
  simpl.
  by destruct (calculateWeightedAverage s2 token now) as [weightedAverage s3].
Qed.

(** The value of a calculation depends on the store only. *)
Lemma calculateTWAP_same_store s s' token windowMs now :
  same_store s s' →
  (calculateTWAP s' token windowMs now).1 = (calculateTWAP s token windowMs now).1.
Proof.
  intros (Hc & Hp & _). by rewrite !calculateTWAP_value, Hc, Hp.
Qed.

Lemma calculateWeightedAverage_same_store s s' token now :
  same_store s s' →
  (calculateWeightedAverage s' token now).1 = (calculateWeightedAverage s token now).1.
Proof.
  intros (Hc & Hp & _). by rewrite !calculateWeightedAverage_value, Hc, Hp.
Qed.

(** X12: [getAggregatedPrice] collects what each of the three
    calculators gives on the service as it was called: the calculators
    do not influence each other.  It changes the counters only, counting
    one calculation for each of VWAP and TWAP that returned; the service
    stays reachable, and the metadata describe the histories of the
    token. *)
Theorem getAggregatedPrice_effects (s : Service) (token : string)
    (options : Options.t) (now : Z) :
  let v := (calculateVWAP s token (Options.vwapWindow options) now).1 in
  let t := (calculateTWAP s token (Options.twapWindow options) now).1 in
  let w := (calculateWeightedAverage s token now).1 in
  let a := (getAggregatedPrice s token options now).1 in
  let s' := (getAggregatedPrice s token options now).2 in
  Aggregated.results a
  = {| Results.vwap := returned v; Results.vwapError := thrown v;
       Results.twap := returned t; Results.twapError := thrown t;
       Results.weightedAverage := returned w;
       Results.weightedAverageError := thrown w |}
  ∧ Aggregated.recommendedPrice a = selectBestPrice (Aggregated.results a)
  ∧ (∃ outliers,
       s' = advance s outliers (match v with Ok _ => 1 | Err _ => 0 end)
              (match t with Ok _ => 1 | Err _ => 0 end))
  ∧ (reachable s → reachable s')
  ∧ Aggregated.dataPoints a = length (default [] (priceHistory s !! token))
  ∧ Aggregated.volumePoints a = length (default [] (volumeHistory s !! token))
  ∧ Aggregated.sources a = getActiveSources s token now.
Proof.
  cbv zeta. rewrite getAggregatedPrice_fst, getAggregatedPrice_snd. simpl.
  set (cv := calculateVWAP s token (Options.vwapWindow options) now).
  set (ct := calculateTWAP cv.2 token (Options.twapWindow options) now).
  set (cw := calculateWeightedAverage ct.2 token now).
  assert (H1 : same_store s cv.2) by apply calculateVWAP_store.
  assert (H2 : same_store s ct.2).
  { eapply same_store_trans; [exact H1 | apply calculateTWAP_store]. }
  assert (H3 : same_store s cw.2).
  { eapply same_store_trans; [exact H2 | apply calculateWeightedAverage_store]. }
  assert (Ht : ct.1 = (calculateTWAP s token (Options.twapWindow options) now).1)
    by (by apply calculateTWAP_same_store).
  assert (Hw : cw.1 = (calculateWeightedAverage s token now).1)
    by (by apply calculateWeightedAverage_same_store).
  rewrite <- Ht, <- Hw.
  split; [done|]. split; [done|]. split; [|split; [|split; [|split]]].
  - destruct (calculateVWAP_snd s token (Options.vwapWindow options) now)
      as [o1 E1].
    destruct (calculateTWAP_snd cv.2 token (Options.twapWindow options) now)
      as [o2 E2].
    destruct (calculateWeightedAverage_snd ct.2 token now) as [o3 E3].
    fold cv in E1. fold ct in E2. fold cw in E3.
    exists (o1 + o2 + o3). rewrite E3, E2, E1, !advance_advance.
    f_equal; lia.
  - intros Hr. unfold cw, ct, cv. by do 3 constructor.
  - destruct H3 as (_ & -> & _). by destruct (priceHistory s !! token).
  - destruct H3 as (_ & _ & -> & _). by destruct (volumeHistory s !! token).
  - destruct H3 as (Hc & Hp & _). unfold getActiveSources. by rewrite Hc, Hp.
Qed.

(** ** The weight of an observation *)




(** ** Too few data points *)

Lemma filter_length {A} (p : A → bool) (l : list A) :
  length (List.filter p l) ≤ length l.
Proof. apply sublist_length, filter_sublist. Qed.

(** X13: for a token whose price history is not empty but shorter than
    [minDataPoints], and whose volume history is shorter than
    [minDataPoints] too, VWAP and TWAP throw, the weighted average is
    computed over the last ten data points without any filtering, and
    [getAggregatedPrice] recommends it and leaves the service as it
    was. *)
Theorem weightedAverage_is_the_fallback (s : Service) (token : string)
    (options : Options.t) (now : Z) (history : list PriceData) :
  priceHistory s !! token = Some history →
  history ≠ [] →
  length history < minDataPoints (config s) →
  (∀ volumeHistory', volumeHistory s !! token = Some volumeHistory' →
                     length volumeHistory' < minDataPoints (config s)) →
  ∃ r,
    (calculateWeightedAverage s token now).1 = Ok r
    ∧ WeightedAverage.dataPoints r = length history `min` 10
    ∧ is_Some (thrown (calculateVWAP s token (Options.vwapWindow options) now).1)
    ∧ is_Some (thrown (calculateTWAP s token (Options.twapWindow options) now).1)
    ∧ getAggregatedPrice s token options now
      = ({| Aggregated.token := token;
            Aggregated.timestamp := now;
            Aggregated.results :=
              {| Results.vwap := None;
                 Results.vwapError :=
                   thrown (calculateVWAP s token (Options.vwapWindow options) now).1;
                 Results.twap := None;
                 Results.twapError :=
                   thrown (calculateTWAP s token (Options.twapWindow options) now).1;
                 Results.weightedAverage := Some r;
                 Results.weightedAverageError := None |};
            Aggregated.recommendedPrice :=
              Best {| Candidate.type := "weightedAverage";
                      Candidate.price := WeightedAverage.price r;
                      Candidate.confidence := WeightedAverage.confidence r;
                      Candidate.dataPoints := WeightedAverage.dataPoints r |};
            Aggregated.dataPoints := length history;
            Aggregated.volumePoints :=
              length (default [] (volumeHistory s !! token));
            Aggregated.sources := getActiveSources s token now |},
         s).
Proof.
  intros Hh Hne Hlen Hvol.
  destruct history as [|d h]; [done|]. clear Hne.
  assert (Hv : ∃ e, calculateVWAP s token (Options.vwapWindow options) now
                    = (Err e, s)).
  { unfold calculateVWAP. cbv zeta.
    destruct (volumeHistory s !! token) as [[|v vh]|] eqn:Hvh; [by eexists| |by eexists].
    specialize (Hvol _ eq_refl).
    pose proof (filter_length
      (λ data, (now - orZ (Options.vwapWindow options) (vwapWindow (config s))
                <=? Vol.timestamp data)%Z
               && Qle_bool (minVolume (config s)) (Vol.volume data)) (v :: vh)) as Hf.
    fold (vwapRelevant (config s)
            (now - orZ (Options.vwapWindow options) (vwapWindow (config s)))
            (v :: vh)) in Hf.
    set (rel := vwapRelevant _ _ _) in *.
    replace (length rel <? minDataPoints (config s))%nat with true
      by (symmetry; apply Nat.ltb_lt; lia).
    by eexists. }
  assert (Ht : ∃ e, calculateTWAP s token (Options.twapWindow options) now
                    = (Err e, s)).
  { unfold calculateTWAP. cbv zeta. rewrite Hh.
    pose proof (filter_length
      (λ data, (now - orZ (Options.twapWindow options) (twapWindow (config s))
                <=? timestamp data)%Z) (d :: h)) as Hf.
    rewrite <- (Permutation_length
                  (sort_by_perm (λ a b, (timestamp a - timestamp b <=? 0)%Z) _))
      in Hf.
    fold (twapRelevant
            (now - orZ (Options.twapWindow options) (twapWindow (config s)))
            (d :: h)) in Hf.
    set (rel := twapRelevant _ _) in *.
    replace (length rel <? minDataPoints (config s))%nat with true
      by (symmetry; apply Nat.ltb_lt; lia).
    by eexists. }
  set (recent := drop (length (d :: h) - 10) (d :: h)).
  assert (Hrecent : length recent = length (d :: h) `min` 10)
    by (unfold recent; rewrite length_drop; lia).
  assert (Hw : calculateWeightedAverage s token now
               = (Ok {| WeightedAverage.price :=
                          ((weightedTotals recent).1 / (weightedTotals recent).2)%Q;
                        WeightedAverage.dataPoints := length recent;
                        WeightedAverage.confidence := calculateConfidence recent;
                        WeightedAverage.timestamp := now |}, s)).
  { unfold calculateWeightedAverage. cbv zeta. rewrite Hh.
    cbv beta iota. fold recent. unfold removeOutliers.
    replace (length recent <? minDataPoints (config s))%nat with true
      by (symmetry; apply Nat.ltb_lt; lia).
    replace (length recent =? 0)%nat with false
      by (symmetry; apply Nat.eqb_neq; rewrite Hrecent; simpl; lia).
    by destruct (weightedTotals recent). }
  destruct Hv as [ev Hv]. destruct Ht as [et Ht].
  eexists. rewrite Hw, Hv, Ht. simpl.
  split; [done|]. split; [done|]. split; [by eexists|]. split; [by eexists|].
  unfold getAggregatedPrice. rewrite Hv, Ht, Hw. simpl. rewrite Hh. simpl.
  by destruct (volumeHistory s !! token).
Qed.

Lemma weightedAverage_is_the_fallback_witness :
  let s := addPriceData defaultService "SOL/USDC"
             (observation (Number 100) Undefined "okx" None) 1000 in
  ∃ r,
    (calculateWeightedAverage s "SOL/USDC" 2000).1 = Ok r
    ∧ WeightedAverage.dataPoints r = 1
    ∧ Aggregated.recommendedPrice
        (getAggregatedPrice s "SOL/USDC" Options.empty 2000).1
      = Best {| Candidate.type := "weightedAverage";
                Candidate.price := WeightedAverage.price r;
                Candidate.confidence := WeightedAverage.confidence r;
                Candidate.dataPoints := WeightedAverage.dataPoints r |}.
Proof.
  intros s.
  destruct (weightedAverage_is_the_fallback s "SOL/USDC" Options.empty 2000
              [{| price := 100; volume := None; timestamp := 1000;
                  source := "okx"; weight := 1; metadata := [] |}])
    as (r & Hr & Hn & _ & _ & Hagg).
  - vm_compute. reflexivity.
  - discriminate.
  - vm_compute. lia.
  - intros volumeHistory' Hv. vm_compute in Hv. injection Hv as <-.
    vm_compute. lia.
  - exists r. split; [exact Hr|]. split; [exact Hn|]. by rewrite Hagg.
Defined.

(** ** Sources *)

Lemma uniq_elem_of (seen l : list string) (x : string) :
  x ∈ uniq seen l ↔ x ∈ l ∧ x ∉ seen.
Proof.
  revert seen. induction l as [|y l IH]; intros seen; simpl.
  - split; [intros Hx; by apply elem_of_nil in Hx | intros [Hx _]; by apply elem_of_nil in Hx].
  - destruct (bool_decide_reflect (y ∈ seen)) as [Hy|Hy].
    + rewrite IH, elem_of_cons. split; [tauto|].
      intros [[->|Hx] Hn]; [done | tauto].
    + rewrite !elem_of_cons, IH, not_elem_of_cons.
      destruct (decide (x = y)) as [->|Hne]; tauto.
Qed.

Lemma uniq_NoDup (seen l : list string) : NoDup (uniq seen l).
Proof.
  revert seen. induction l as [|y l IH]; intros seen; simpl; [constructor|].
  destruct (bool_decide (y ∈ seen)); [apply IH|].
  constructor; [|apply IH].
  rewrite uniq_elem_of, not_elem_of_cons. tauto.
Qed.

Lemma uniq_length (seen l : list string) : length (uniq seen l) ≤ length l.
Proof.
  revert seen. induction l as [|y l IH]; intros seen; simpl; [done|].
  destruct (bool_decide (y ∈ seen)); [specialize (IH seen) | specialize (IH (y :: seen))];
    simpl; lia.
Qed.

(** X14: [getActiveSources] lists, each once, the sources of the stored
    data points of the token that are not older than [maxAge]. *)
Theorem getActiveSources_spec (s : Service) (token : string) (now : Z) :
  NoDup (getActiveSources s token now)
  ∧ ∀ src,
      src ∈ getActiveSources s token now
      ↔ ∃ history d,
          priceHistory s !! token = Some history ∧ d ∈ history
          ∧ source d = src ∧ (now - timestamp d ≤ maxAge (config s))%Z.
Proof.
  unfold getActiveSources.
  destruct (priceHistory s !! token) as [history|]; split.
  - apply uniq_NoDup.
  - intros src. rewrite uniq_elem_of. split.
    + intros [Hsrc _]. apply list_elem_of_fmap in Hsrc as (d & -> & Hd).
      apply list_elem_of_In, filter_In in Hd as [Hd Hage].
      exists history, d. split; [done|]. split; [by apply list_elem_of_In|].
      split; [done|lia].
    + intros (h & d & [= <-] & Hd & <- & Hage).
      split; [|apply not_elem_of_nil].
      apply list_elem_of_fmap. exists d. split; [done|].
      apply list_elem_of_In, filter_In. split; [by apply list_elem_of_In|lia].
  - constructor.
  - intros src. split; [intros Hsrc; by apply elem_of_nil in Hsrc|].
    by intros (h & d & Hh & _).
Qed.

(** X15: the sources that a VWAP or a TWAP result lists are distinct,
    not more than its data points, and each is the source of a stored
    entry of the token inside the time window. *)
Theorem result_sources (s : Service) (token : string) (windowMs : option Z)
    (now : Z) :
  (∀ r, (calculateVWAP s token windowMs now).1 = Ok r →
        NoDup (VWAP.sources r)
        ∧ length (VWAP.sources r) ≤ VWAP.dataPoints r
        ∧ ∀ src, src ∈ VWAP.sources r →
                 ∃ volumeHistory' d,
                   volumeHistory s !! token = Some volumeHistory'
                   ∧ d ∈ volumeHistory' ∧ Vol.source d = src
                   ∧ (now - orZ windowMs (vwapWindow (config s))
                      ≤ Vol.timestamp d)%Z)
  ∧ (∀ r, (calculateTWAP s token windowMs now).1 = Ok r →
          NoDup (TWAP.sources r)
          ∧ length (TWAP.sources r) ≤ TWAP.dataPoints r
          ∧ ∀ src, src ∈ TWAP.sources r →
                   ∃ history d,
                     priceHistory s !! token = Some history
                     ∧ d ∈ history ∧ source d = src
                     ∧ (now - orZ windowMs (twapWindow (config s))
                        ≤ timestamp d)%Z).
Proof.
  split; intros r Hr.
  - rewrite calculateVWAP_value in Hr.
    destruct (volumeHistory s !! token) as [vh|]; [|done]. simpl default in Hr.
    apply vwapValue_inv in Hr as (_ & _ & ->). simpl.
    split; [apply uniq_NoDup|]. split.
    { etrans; [apply uniq_length|]. by rewrite length_map. }
    intros src Hsrc. apply uniq_elem_of in Hsrc as [Hsrc _].
    apply list_elem_of_fmap in Hsrc as (d & -> & Hd).
    assert (Hrel : d ∈ vwapRelevant (config s)
                     (now - orZ windowMs (vwapWindow (config s))) vh)
      by (eapply elem_of_sublist; [exact Hd | apply survivors_sublist]).
    destruct (vwapRelevant_floor _ _ _ _ Hrel) as (Hin & Ht & _).
    by exists vh, d.
  - rewrite calculateTWAP_value in Hr.
    destruct (priceHistory s !! token) as [h|]; [|done]. simpl default in Hr.
    apply twapValue_inv in Hr as (_ & _ & ->). simpl.
    split; [apply uniq_NoDup|]. split.
    { etrans; [apply uniq_length|]. by rewrite length_map. }
    intros src Hsrc. apply uniq_elem_of in Hsrc as [Hsrc _].
    apply list_elem_of_fmap in Hsrc as (d & -> & Hd).
    assert (Hrel : d ∈ twapRelevant (now - orZ windowMs (twapWindow (config s))) h)
      by (eapply elem_of_sublist; [exact Hd | apply survivors_sublist]).
    exists h, d. split; [done|].
    split; [by eapply twapRelevant_elem_of|]. split; [done|].
    by eapply twapRelevant_cutoff.
Qed.

Lemma result_sources_witness :
  (∃ r, (calculateVWAP (addAll defaultService "SOL/USDC" basicVWAPData 1000)
           "SOL/USDC" None 1000).1 = Ok r
        ∧ NoDup (VWAP.sources r)
        ∧ length (VWAP.sources r) ≤ VWAP.dataPoints r)
  ∧ (∃ r, (calculateTWAP (addAll defaultService "SOL/USDC" weightedTWAPData 1000000)
             "SOL/USDC" None 1000000).1 = Ok r
          ∧ NoDup (TWAP.sources r)
          ∧ length (TWAP.sources r) ≤ TWAP.dataPoints r).
Proof.
  split.
  - destruct basicVWAP_value as (r & Hr & _). exists r. split; [exact Hr|].
    destruct (proj1 (result_sources
                       (addAll defaultService "SOL/USDC" basicVWAPData 1000)
                       "SOL/USDC" None 1000) r Hr) as (Hnd & Hlen & _).
    by split.
  - destruct weightedTWAP_returns as [r Hr]. exists r. split; [exact Hr|].
    destruct (proj2 (result_sources
                       (addAll defaultService "SOL/USDC" weightedTWAPData 1000000)
                       "SOL/USDC" None 1000000) r Hr) as (Hnd & Hlen & _).
    by split.
Defined.

(** ** A token without data *)

Lemma getAggregatedPrice_unknown s token options now :
  priceHistory s !! token = None → volumeHistory s !! token = None →
  getAggregatedPrice s token options now
  = ({| Aggregated.token := token;
        Aggregated.timestamp := now;
        Aggregated.results :=
          {| Results.vwap := None; Results.vwapError := Some NoVolumeData;
             Results.twap := None; Results.twapError := Some NoPriceData;
             Results.weightedAverage := None;
             Results.weightedAverageError := Some NoPriceData |};
        Aggregated.recommendedPrice := NoValidPrice;
        Aggregated.dataPoints := 0;
        Aggregated.volumePoints := 0;
        Aggregated.sources := [] |},
     s).
Proof.
  intros Hp Hv.
  unfold getAggregatedPrice, calculateVWAP, calculateTWAP,
    calculateWeightedAverage, getActiveSources.
  cbv zeta. rewrite Hv, Hp. simpl. by rewrite ?Hp, ?Hv.
Qed.

Lemma totalLength_empty (A : Type) : totalLength (∅ : gmap string (list A)) = 0.
Proof. unfold totalLength. by rewrite map_to_list_empty. Qed.

(** X16: after [clearTokenData(token)] the three calculations of
    [getAggregatedPrice(token)] throw for lack of data, no price is
    recommended and the service is left as it is; the same holds for
    every token after [clearAllData], whose statistics are those of a
    new service. *)
Theorem cleared_token_has_no_price (s : Service) (token : string)
    (options : Options.t) (now : Z) :
  let nothing token :=
    {| Aggregated.token := token;
       Aggregated.timestamp := now;
       Aggregated.results :=
         {| Results.vwap := None; Results.vwapError := Some NoVolumeData;
            Results.twap := None; Results.twapError := Some NoPriceData;
            Results.weightedAverage := None;
            Results.weightedAverageError := Some NoPriceData |};
       Aggregated.recommendedPrice := NoValidPrice;
       Aggregated.dataPoints := 0;
       Aggregated.volumePoints := 0;
       Aggregated.sources := [] |} in
  getAggregatedPrice (clearTokenData s token) token options now
  = (nothing token, clearTokenData s token)
  ∧ (∀ token', getAggregatedPrice (clearAllData s) token' options now
               = (nothing token', clearAllData s))
  ∧ getStats (clearAllData s)
    = {| ServiceStats.stats := initialStats;
         ServiceStats.activeTokens := 0;
         ServiceStats.totalDataPoints := 0;
         ServiceStats.totalVolumePoints := 0;
         ServiceStats.sourceWeights := sourceWeights s;
         ServiceStats.config := config s |}.
Proof.
  cbv zeta. split; [|split].
  - apply getAggregatedPrice_unknown; unfold clearTokenData; simpl;
      apply lookup_delete_eq.
  - intros token'. apply getAggregatedPrice_unknown; simpl; apply lookup_empty.
  - unfold getStats. simpl. by rewrite (totalLength_empty PriceData), (totalLength_empty Vol.t).
Qed.

(** ** The configuration *)

(** X17: no number in the configuration of a reachable service is 0,
    and logging is enabled: the constructor replaces a configured 0, and
    a configured [false], by the default. *)
Theorem reachable_config_nonzero (s : Service) :
  reachable s →
  ¬ (zScoreThreshold (config s) == 0)%Q
  ∧ ¬ (iqrMultiplier (config s) == 0)%Q
  ∧ minDataPoints (config s) ≠ 0
  ∧ maxAge (config s) ≠ 0%Z
  ∧ twapWindow (config s) ≠ 0%Z
  ∧ twapInterval (config s) ≠ 0%Z
  ∧ vwapWindow (config s) ≠ 0%Z
  ∧ ¬ (minVolume (config s) == 0)%Q
  ∧ maxHistorySize (config s) ≠ 0
  ∧ enableLogging (config s) = true.
Proof.
  intros Hr. destruct (reachable_config s Hr) as [raw ->]. simpl.
  assert (HZ : ∀ x d, d ≠ 0%Z → orZ x d ≠ 0%Z).
  { intros x d Hd. unfold orZ. destruct x as [z|]; [|done].
    by destruct (Z.eqb_spec z 0). }
  assert (HN : ∀ x d, d ≠ 0 → orNat x d ≠ 0).
  { intros x d Hd. unfold orNat. destruct x as [n|]; [|done].
    by destruct (Nat.eqb_spec n 0). }
  repeat split; try (by apply orQ_nonzero); try (by apply HZ); by apply HN.
Qed.

Lemma reachable_config_nonzero_witness :
  let s := newService
             {| RawConfig.zScoreThreshold := Some 0%Q;
                RawConfig.iqrMultiplier := None;
                RawConfig.minDataPoints := Some 0;
                RawConfig.maxAge := Some 0%Z;
                RawConfig.twapWindow := None;
                RawConfig.twapInterval := None;
                RawConfig.vwapWindow := None;
                RawConfig.minVolume := Some 0%Q;
                RawConfig.maxHistorySize := Some 0;
                RawConfig.enableLogging := Some false |} in
  ¬ (zScoreThreshold (config s) == 0)%Q
  ∧ ¬ (minVolume (config s) == 0)%Q
  ∧ maxHistorySize (config s) ≠ 0
  ∧ enableLogging (config s) = true.
Proof.
  intros s.
  destruct (reachable_config_nonzero s (reachable_new _))
    as (H1 & _ & _ & _ & _ & _ & _ & H8 & H9 & H10).
  by repeat split.
Defined.

(** ** A fresh observation *)

(** X18: after [addPriceData] has stored an observation that is not
    older than [maxAge], the source of the observation is among the
    active sources of the token, and the observation is the last entry
    of the history that [getAggregatedPrice] counts. *)
Theorem added_source_is_active (s : Service) (token : string)
    (priceData : Raw.t) (now : Z) (normalizedData : PriceData) :
  reachable s →
  normalizePriceData s priceData now = Ok normalizedData →
  (now - timestamp normalizedData ≤ maxAge (config s))%Z →
  let s' := addPriceData s token priceData now in
  source normalizedData ∈ getActiveSources s' token now
  ∧ (∃ history, priceHistory s' !! token = Some history
                ∧ last history = Some normalizedData)
  ∧ ∀ options,
      0 < Aggregated.dataPoints (getAggregatedPrice s' token options now).1.
Proof.
  intros Hr Hn Hage. cbv zeta.
  pose proof (addPriceData_config s token priceData now (reachable_paired s Hr))
    as Hcfg.
  assert (Hh : ∃ kept, priceHistory (addPriceData s token priceData now) !! token
                       = Some (kept ++ [normalizedData])).
  { rewrite (addPriceData_stored _ _ _ _ _ (reachable_paired s Hr) Hn). simpl.
    rewrite lookup_insert_eq.
    destruct (cleanupArray_snoc timestamp (config s) now (histories s token).1
                normalizedData Hage (reachable_maxHistorySize s Hr))
      as (kept & -> & _).
    by exists kept. }
  destruct Hh as [kept Hh]. split; [|split].
  - unfold getActiveSources. rewrite Hh, Hcfg.
    apply uniq_elem_of. split; [|apply not_elem_of_nil].
    apply list_elem_of_fmap. exists normalizedData. split; [done|].
    apply list_elem_of_In, filter_In. split; [|lia].
    apply list_elem_of_In, elem_of_app. right. by left.
  - exists (kept ++ [normalizedData]). split; [done|]. apply last_snoc.
  - intros options. rewrite getAggregatedPrice_fst. simpl.
    set (s3 := (calculateWeightedAverage _ _ _).2).
    assert (Hs : same_store (addPriceData s token priceData now) s3).
    { unfold s3. eapply same_store_trans; [|apply calculateWeightedAverage_store].
      eapply same_store_trans; [apply calculateVWAP_store|apply calculateTWAP_store]. }
    destruct Hs as (_ & -> & _). rewrite Hh. simpl. rewrite length_app. simpl. lia.
Qed.

Lemma added_source_is_active_witness :
  let s' := addPriceData defaultService "SOL/USDC"
              (observation (Number 100) Undefined "okx" None) 1000 in
  "okx" ∈ getActiveSources s' "SOL/USDC" 1000.
Proof.
  intros s'.
  apply (added_source_is_active defaultService "SOL/USDC"
           (observation (Number 100) Undefined "okx" None) 1000
           {| price := 100; volume := None; timestamp := 1000;
              source := "okx"; weight := 1; metadata := [] |}).
  - apply reachable_new.
  - vm_compute. reflexivity.
  - vm_compute. discriminate.
Defined.

(** ** What the filters keep *)

Lemma filter_index_nonempty {A} (p : A → nat → bool) (i j : nat) (l : list A) x :
  l !! j = Some x → p x (i + j) = true → filter_index p i l ≠ [].
Proof.
  revert i j. induction l as [|y l IH]; intros i j Hj Hp; [done|].
  simpl. destruct j as [|j].
  - simpl in Hj. injection Hj as ->. rewrite Nat.add_0_r in Hp. by rewrite Hp.
  - simpl in Hj. destruct (p y i); [done|].
    apply (IH (S i) j); [done|]. by replace (S i + j) with (i + S j) by lia.
Qed.

Lemma filter_index_all {A} (p : A → nat → bool) (i : nat) (l : list A) :
  (∀ j x, l !! j = Some x → p x (i + j) = true) → filter_index p i l = l.
Proof.
  revert i. induction l as [|y l IH]; intros i Hall; simpl; [done|].
  rewrite <- (Nat.add_0_r i) at 1. rewrite (Hall 0 y eq_refl).
  f_equal. apply IH. intros j x Hj.
  replace (S i + j) with (i + S j) by lia. by apply Hall.
Qed.

Lemma insert_sorted_Qle (x : Q) (l : list Q) :
  StronglySorted Qle l → StronglySorted Qle (insert_sorted Qle_bool x l).
Proof.
  induction 1 as [|y l Hl IH Hy]; simpl.
  - repeat constructor.
  - destruct (Qle_bool x y) eqn:Hxy.
    + apply Qle_bool_iff in Hxy.
      constructor; [by constructor|].
      constructor; [done|].
      eapply Forall_impl; [exact Hy|]. simpl. intros z Hz.
      eapply Qle_trans; [exact Hxy | exact Hz].
    + constructor; [exact IH|].
      rewrite insert_sorted_perm. constructor; [|exact Hy].
      apply Qlt_le_weak, Qnot_le_lt. intros Hle.
      apply Qle_bool_iff in Hle. congruence.
Qed.

Lemma sort_by_Qle_sorted (l : list Q) : StronglySorted Qle (sort_by Qle_bool l).
Proof.
  unfold sort_by. induction l as [|x l IH]; simpl; [constructor|].
  by apply insert_sorted_Qle.
Qed.

Lemma nth_elem_of (x : list Q) (i : nat) : i < length x → nth i x 0%Q ∈ x.
Proof. intros Hi. by apply list_elem_of_In, nth_In. Qed.

Lemma sorted_nth (x : list Q) (i j : nat) :
  StronglySorted Qle x → i ≤ j → j < length x → (nth i x 0 <= nth j x 0)%Q.
Proof.
  intros Hs. revert i j. induction Hs as [|a l Hl IH Ha]; intros i j Hij Hj.
  - simpl in Hj. lia.
  - destruct i as [|i], j as [|j]; simpl in *; try lia.
    + apply Qle_refl.
    + rewrite Forall_forall in Ha. apply Ha, nth_elem_of. lia.
    + apply IH; lia.
Qed.

(** The position [x.length * p] of a quartile. *)
Lemma quartile_index (len : nat) (a : positive) :
  let idx := (Qnat len * (Z.pos a # 4))%Q in
  Qfloor idx = (Z.of_nat len * Z.pos a / 4)%Z
  ∧ Qceiling idx = (- (- (Z.of_nat len * Z.pos a) / 4))%Z
  ∧ (Qeq_bool (inject_Z (Qfloor idx)) idx = true
     ↔ (Z.of_nat len * Z.pos a) mod 4 = 0)%Z.
Proof.
  cbv zeta. split; [reflexivity|]. split; [reflexivity|].
  rewrite Qeq_bool_iff. unfold Qeq, Qfloor, Qnat, Qmult, inject_Z. simpl.
  set (n := (Z.of_nat len * Z.pos a)%Z).
  Z.to_euclidean_division_equations. lia.
Qed.

(** Between the two quartiles of at least four sorted values lies one of
    the values. *)
Lemma quartiles_bracket (x : list Q) :
  StronglySorted Qle x → 4 ≤ length x →
  ∃ e, e ∈ x ∧ (quantileSorted x (1 # 4) <= e)%Q
             ∧ (e <= quantileSorted x (3 # 4))%Q.
Proof.
  intros Hs Hlen. unfold quantileSorted. cbv zeta.
  change (Qeq_bool (1 # 4) 1) with false. change (Qeq_bool (1 # 4) 0) with false.
  change (Qeq_bool (3 # 4) 1) with false. change (Qeq_bool (3 # 4) 0) with false.
  cbv iota.
  destruct (quartile_index (length x) 1) as (Hf1 & Hc1 & Hi1).
  destruct (quartile_index (length x) 3) as (Hf3 & Hc3 & Hi3).
  cbv zeta in *. rewrite Hf1, Hc1, Hf3, Hc3 in *. clear Hf1 Hc1 Hf3 Hc3.
  set (n := Z.of_nat (length x)) in *.
  assert (Hn : (4 <= n)%Z) by lia.
  assert (Hnat : length x = Z.to_nat n) by lia.
  destruct (Qeq_bool _ (Qnat (length x) * (1 # 4))) eqn:E1;
    destruct (Qeq_bool _ (Qnat (length x) * (3 # 4))) eqn:E3; simpl negb; cbv iota.
  - assert (Hmod : (n mod 4 = 0)%Z).
    { destruct Hi1 as [Hi1 _]. specialize (Hi1 eq_refl).
      revert Hi1. clear. Z.to_euclidean_division_equations. lia. }
    assert (Heven : Nat.even (length x) = true).
    { apply Nat.even_spec. exists (2 * Z.to_nat (n / 4)). rewrite Hnat.
      revert Hmod Hn. clear. Z.to_euclidean_division_equations. lia. }
    rewrite Heven.
    set (i := Z.to_nat ((n * 1) / 4)). set (j := Z.to_nat ((n * 3) / 4)).
    assert (Hij : 1 ≤ i ∧ i ≤ j - 1 ∧ j < length x).
    { unfold i, j. rewrite Hnat. revert Hmod Hn. clear.
      Z.to_euclidean_division_equations. lia. }
    exists (nth i x 0%Q). split; [apply nth_elem_of; lia|].
    pose proof (sorted_nth x (i - 1) i Hs ltac:(lia) ltac:(lia)) as H1.
    pose proof (sorted_nth x i (j - 1) Hs ltac:(lia) ltac:(lia)) as H2.
    pose proof (sorted_nth x (j - 1) j Hs ltac:(lia) ltac:(lia)) as H3.
    split.
    + apply Qle_shift_div_r; [done|]. lra.
    + apply Qle_shift_div_l; [done|]. lra.
  - exfalso. destruct Hi1 as [Hi1 _]. specialize (Hi1 eq_refl).
    assert (Hmod : ((n * 3) mod 4 = 0)%Z).
    { revert Hi1. clear. Z.to_euclidean_division_equations. lia. }
    apply Hi3 in Hmod. congruence.
  - exfalso. destruct Hi3 as [Hi3 _]. specialize (Hi3 eq_refl).
    assert (Hmod : ((n * 1) mod 4 = 0)%Z).
    { revert Hi3. clear. Z.to_euclidean_division_equations. lia. }
    apply Hi1 in Hmod. congruence.
  - assert (Hmod : ((n * 1) mod 4 ≠ 0)%Z).
    { intros Hmod. apply Hi1 in Hmod. congruence. }
    set (i := Z.to_nat (- (- (n * 1) / 4) - 1)).
    set (j := Z.to_nat (- (- (n * 3) / 4) - 1)).
    assert (Hij : i ≤ j ∧ j < length x).
    { unfold i, j. rewrite Hnat. revert Hmod Hn. clear.
      Z.to_euclidean_division_equations. lia. }
    exists (nth i x 0%Q). split; [apply nth_elem_of; lia|].
    split; [apply Qle_refl|]. apply sorted_nth; [done|lia|lia].
Qed.

Lemma removeOutliersIQR_nonempty {A} `{Sample A} (cfg : Config) (data : list A) :
  (0 <= iqrMultiplier cfg)%Q → data ≠ [] → removeOutliersIQR cfg data ≠ [].
Proof.
  intros Hk Hne. unfold removeOutliersIQR.
  destruct (Nat.ltb_spec (length data) 4) as [|Hlen]; [done|]. cbv zeta.
  unfold quantile.
  set (x := sort_by Qle_bool (sort_by Qle_bool (map sample_price data))).
  assert (Hperm : x ≡ₚ map sample_price data)
    by (unfold x; by rewrite !sort_by_perm).
  destruct (quartiles_bracket x) as (e & He & Hq1 & Hq3).
  { apply sort_by_Qle_sorted. }
  { by rewrite Hperm, length_map. }
  rewrite Hperm in He. apply list_elem_of_fmap in He as (d & -> & Hd).
  set (q1 := quantileSorted x (1 # 4)) in *.
  set (q3 := quantileSorted x (3 # 4)) in *.
  assert (Hin : d ∈ List.filter
                  (λ d, Qle_bool (q1 - iqrMultiplier cfg * (q3 - q1)) (sample_price d)
                        && Qle_bool (sample_price d)
                             (q3 + iqrMultiplier cfg * (q3 - q1))) data).
  { apply list_elem_of_In, filter_In. split; [by apply list_elem_of_In|].
    set (k := iqrMultiplier cfg) in *. set (p := sample_price d) in *.
    clearbody q1 q3 k p.
    apply andb_true_intro. split; apply Qle_bool_iff; nra. }
  intros Hnil. rewrite Hnil in Hin. by apply elem_of_nil in Hin.
Qed.

(** X20: with a multiplier that is not negative the IQR filter never
    removes every data point: one of the values lies between the two
    quartiles. *)
Theorem iqr_keeps_one {A} `{Sample A} (cfg : Config) (data : list A) :
  (0 <= iqrMultiplier cfg)%Q → data ≠ [] → removeOutliersIQR cfg data ≠ [].
Proof. apply removeOutliersIQR_nonempty. Qed.

Lemma iqr_keeps_one_witness :
  removeOutliersIQR (newConfig RawConfig.empty) singleTimeSnapshot ≠ [].
Proof.
  apply (iqr_keeps_one (newConfig RawConfig.empty) singleTimeSnapshot).
  - vm_compute. discriminate.
  - discriminate.
Defined.


(** ** The z-score filter on doubles *)

Section Rounded.
Context (e : Rounding.t) (meanValue ε : R).
Hypothesis (He : bounded ε e) (Hε : (0 <= ε < 1)%R).

Lemma rounded_factor (δ : R) : (Rabs δ <= ε)%R → (1 - ε <= 1 + δ <= 1 + ε)%R.
Proof. unfold Rabs. destruct (Rcase_abs δ); lra. Qed.

Lemma square_lower (xi : Q) (i : nat) :
  let tempValue := ((Q2R xi - meanValue) * (1 + Rounding.sub e i))%R in
  ((1 - ε) * (tempValue * tempValue) <= Doubles.square e meanValue xi i)%R.
Proof.
  cbv zeta. unfold Doubles.square.
  destruct He as [Hi _]. destruct (Hi i) as (_ & Hmul & _).
  apply rounded_factor in Hmul.
  set (t := ((Q2R xi - meanValue) * (1 + Rounding.sub e i))%R).
  assert (Ht : (0 <= t * t)%R) by nra.
  nra.
Qed.

Lemma square_nonneg (xi : Q) (i : nat) :
  (0 <= Doubles.square e meanValue xi i)%R.
Proof.
  pose proof (square_lower xi i) as Hl. cbv zeta in Hl.
  set (t := ((Q2R xi - meanValue) * (1 + Rounding.sub e i))%R) in *.
  assert (Ht : (0 <= t * t)%R) by nra. nra.
Qed.

Lemma sumR_squares_nonneg (x : list Q) (i : nat) :
  (0 <= sumR (squares e meanValue x i))%R.
Proof.
  revert i. induction x as [|xi x IH]; intros i.
  - simpl. lra.
  - cbn [squares]. unfold sumR. cbn [fold_right].
    pose proof (square_nonneg xi i). specialize (IH (S i)). unfold sumR in IH. lra.
Qed.

(** The computed sum of squares is not below the exact sum of the
    computed squares, up to one rounding for each addition. *)
Lemma sumNthPowerDeviations_lower (x : list Q) (i : nat) (sum : R) :
  (0 <= sum)%R →
  ((1 - ε) ^ length x * (sum + sumR (squares e meanValue x i))
   <= Doubles.sumNthPowerDeviations e meanValue x i sum)%R
  ∧ (0 <= Doubles.sumNthPowerDeviations e meanValue x i sum)%R.
Proof.
  revert i sum. induction x as [|xi x IH]; intros i sum Hsum.
  - simpl. split; lra.
  - cbn [Doubles.sumNthPowerDeviations squares length sumR fold_right].
    fold (sumR (squares e meanValue x (S i))).
    destruct He as [Hi _]. destruct (Hi i) as (_ & _ & Hadd & _).
    apply rounded_factor in Hadd.
    pose proof (square_nonneg xi i) as Hsq.
    pose proof (sumR_squares_nonneg x (S i)) as Hrest.
    set (sq := Doubles.square e meanValue xi i) in *.
    set (rest := sumR (squares e meanValue x (S i))) in *.
    set (a := Rounding.add e i) in *.
    assert (Hacc : (0 <= (sum + sq) * (1 + a))%R) by nra.
    destruct (IH (S i) ((sum + sq) * (1 + a))%R Hacc) as [IH1 IH2].
    split; [|exact IH2].
    eapply Rle_trans; [|exact IH1].
    assert (Hp : (0 <= (1 - ε) ^ length x)%R) by (apply pow_le; lra).
    rewrite <- tech_pow_Rmult.
    rewrite Rmult_assoc, (Rmult_comm (1 - ε)), Rmult_assoc.
    apply Rmult_le_compat_l; [exact Hp|].
    fold rest. clear IH IH1 IH2 Hp Hacc. clearbody sq rest a. nra.
Qed.

(** The computed z-score of a value whose square is at most the [c]-th
    part of the sum of the squares. *)
Lemma zScore_bound (values : list Q) (j : nat) (v : Q) (c : R) :
  length values ≠ 1 →
  values !! j = Some v →
  (0 <= c)%R →
  (c * Doubles.square e meanValue v j <= sumR (squares e meanValue values 0))%R →
  Doubles.standardDeviation e meanValue values ≠ 0%R →
  let z := Doubles.zScore e meanValue
             (Doubles.standardDeviation e meanValue values) v j in
  (c * (z * z) * (1 - ε) ^ (length values + 4)
   <= INR (length values) * ((1 + ε) * (1 + ε)))%R.
Proof.
  intros Hlen Hj Hc Hsq Hsd. cbv zeta.
  assert (Hn : (0 < INR (length values))%R).
  { apply lt_0_INR. apply lookup_lt_Some in Hj. lia. }
  destruct He as (Hi & Hdiv & Hroot). destruct (Hi j) as (_ & _ & _ & Hquot).
  apply rounded_factor in Hdiv, Hroot, Hquot.
  pose proof (square_lower v j) as Hlow. cbv zeta in Hlow.
  destruct (sumNthPowerDeviations_lower values 0 0 (Rle_refl 0)) as [HS HS0].
  rewrite Rplus_0_l in HS.
  unfold Doubles.standardDeviation in *.
  destruct (Nat.eqb_spec (length values) 1) as [|_]; [done|].
  unfold Doubles.variance in *.
  set (S := Doubles.sumNthPowerDeviations e meanValue values 0 0) in *.
  set (V := (S / INR (length values) * (1 + Rounding.div e))%R) in *.
  assert (HV : (0 <= V)%R).
  { unfold V. apply Rmult_le_pos; [|lra]. apply Rmult_le_pos; [exact HS0|].
    apply Rlt_le, Rinv_0_lt_compat, Hn. }
  assert (HPS : ((1 - ε) * S <= INR (length values) * V)%R).
  { unfold V. unfold Rdiv.
    replace (INR (length values) * (S * / INR (length values) * (1 + Rounding.div e)))%R
      with (S * (1 + Rounding.div e))%R by (field; lra).
    nra. }
  pose proof (sqrt_sqrt V HV) as Hss.
  set (r := sqrt V) in *.
  set (sd := (r * (1 + Rounding.root e))%R) in *.
  assert (Hsd2 : ((1 - ε) * ((1 - ε) * V) <= sd * sd)%R).
  { unfold sd. rewrite <- Hss.
    assert (Hr : (0 <= r * r)%R) by nra.
    set (k := (1 + Rounding.root e)%R) in *. clearbody k r.
    assert (Hk : ((1 - ε) * (1 - ε) <= k * k)%R) by nra.
    replace (r * k * (r * k))%R with (r * r * (k * k))%R by ring. nra. }
  assert (Hsdpos : (0 < sd * sd)%R).
  { assert (sd * sd <> 0)%R by (by apply Rmult_integral_contrapositive).
    assert (0 <= sd * sd)%R by nra. lra. }
  unfold Doubles.zScore.
  set (t := ((Q2R v - meanValue) * (1 + Rounding.sub e j))%R) in *.
  set (q := (1 + Rounding.quot e j)%R) in *.
  set (y := (t / sd * q)%R).
  assert (Hz : (Rabs y * Rabs y = y * y)%R).
  { unfold Rabs. destruct (Rcase_abs y); ring. }
  rewrite Hz.
  assert (Hy : (y * y * (sd * sd) = t * t * (q * q))%R).
  { unfold y. field. intros H0. apply Hsd. exact H0. }
  set (P := (1 - ε)%R) in *.
  set (Pn := (P ^ length values)%R) in *.
  assert (HP : (0 < P)%R) by (unfold P; lra).
  assert (HPn : (0 <= Pn)%R) by (apply pow_le; lra).
  rewrite pow_add. fold Pn. simpl pow. rewrite Rmult_1_r.
  set (t2 := (t * t)%R) in *. set (sq := Doubles.square e meanValue v j) in *.
  set (Σ := sumR (squares e meanValue values 0)) in *.
  set (n := INR (length values)) in *.
  set (sd2 := (sd * sd)%R) in *. set (y2 := (y * y)%R) in *.
  set (q2 := (q * q)%R) in *.
  assert (Ht2 : (0 <= t2)%R) by (unfold t2; nra).
  assert (Hq2 : (q2 <= (1 + ε) * (1 + ε))%R) by (unfold q2, P in *; nra).
  assert (Hq20 : (0 <= q2)%R) by (unfold q2; nra).
  clearbody t2 sq Σ n sd2 y2 q2 Pn P V S.
  clear Hz Hss HV HS0 Hsd Hj Hlen Hquot Hroot Hdiv Hi.
  assert (A1 : (c * (P * t2) <= Σ)%R).
  { eapply Rle_trans; [|exact Hsq]. apply Rmult_le_compat_l; [exact Hc|exact Hlow]. }
  assert (A2 : (Pn * (c * (P * t2)) <= S)%R).
  { eapply Rle_trans; [|exact HS]. apply Rmult_le_compat_l; [exact HPn|exact A1]. }
  assert (A3 : (P * (Pn * (c * (P * t2))) <= n * V)%R).
  { eapply Rle_trans; [|exact HPS]. apply Rmult_le_compat_l; [lra|exact A2]. }
  assert (A4 : (P * (P * (P * (Pn * (c * (P * t2))))) <= n * sd2)%R).
  { eapply Rle_trans; [|apply Rmult_le_compat_l; [lra|exact Hsd2]].
    replace (n * (P * (P * V)))%R with (P * (P * (n * V)))%R by ring.
    apply Rmult_le_compat_l; [lra|]. apply Rmult_le_compat_l; [lra|exact A3]. }
  apply (Rmult_le_reg_r sd2); [exact Hsdpos|].
  replace (c * y2 * (Pn * (P * (P * (P * P)))) * sd2)%R
    with (P * (P * (P * (Pn * (c * (P * (y2 * sd2))))))) %R by ring.
  rewrite Hy.
  replace (P * (P * (P * (Pn * (c * (P * (t2 * q2)))))))%R
    with ((P * (P * (P * (Pn * (c * (P * t2)))))) * q2)%R by ring.
  replace (n * ((1 + ε) * (1 + ε)) * sd2)%R
    with ((n * sd2) * ((1 + ε) * (1 + ε)))%R by ring.
  assert (HX : (0 <= P * (P * (P * (Pn * (c * (P * t2))))))%R).
  { repeat (apply Rmult_le_pos; try lra). }
  apply Rmult_le_compat; [exact HX|exact Hq20|exact A4|exact Hq2].
Qed.

Lemma squares_lookup (x : list Q) (i j : nat) (v : Q) :
  x !! j = Some v →
  squares e meanValue x i !! j = Some (Doubles.square e meanValue v (i + j)).
Proof.
  revert i j. induction x as [|xi x IH]; intros i j Hj; [done|].
  destruct j as [|j]; simpl in *.
  - injection Hj as ->. by rewrite Nat.add_0_r.
  - rewrite (IH (S i) j Hj). do 2 f_equal. lia.
Qed.

Lemma squares_length (x : list Q) (i : nat) :
  length (squares e meanValue x i) = length x.
Proof. revert i. induction x as [|xi x IH]; intros i; simpl; [done|by rewrite IH]. Qed.

Lemma squares_Forall (x : list Q) (i : nat) :
  Forall (λ y, (0 <= y)%R) (squares e meanValue x i).
Proof.
  revert i. induction x as [|xi x IH]; intros i; simpl; constructor;
    [apply square_nonneg|apply IH].
Qed.
End Rounded.

(** Some element of a list of real numbers is at most the arithmetic mean
    of the list. *)
Lemma sumR_smallest (l : list R) :
  l ≠ [] → ∃ j y, l !! j = Some y ∧ (INR (length l) * y <= sumR l)%R.
Proof.
  induction l as [|a l IH]; [done|]. intros _.
  destruct l as [|b l].
  - exists 0, a. split; [done|]. simpl. lra.
  - destruct IH as (j & y & Hj & Hy); [done|].
    change (sumR (a :: b :: l)) with (a + sumR (b :: l))%R.
    change (length (a :: b :: l)) with (S (length (b :: l))).
    rewrite S_INR.
    assert (Hn : (0 < INR (length (b :: l)))%R) by (apply lt_0_INR; simpl; lia).
    set (n := INR (length (b :: l))) in *. set (rest := sumR (b :: l)) in *.
    clearbody n rest.
    destruct (Rle_dec a y) as [Hay|Hay].
    + exists 0, a. split; [done|]. nra.
    + exists (S j), y. split; [done|]. nra.
Qed.

(** No element of a list of real numbers that are not negative exceeds
    the sum of the list. *)
Lemma sumR_largest (l : list R) (j : nat) (y : R) :
  Forall (λ y, (0 <= y)%R) l → l !! j = Some y → (y <= sumR l)%R.
Proof.
  intros Hall. revert j. induction Hall as [|a l Ha Hall IH]; intros j Hj; [done|].
  assert (Hrest : (0 <= sumR l)%R).
  { clear IH Hj. induction Hall as [|b l Hb Hall IH]; simpl; [lra|]. lra. }
  change (sumR (a :: l)) with (a + sumR l)%R.
  destruct j as [|j]; simpl in Hj.
  - injection Hj as ->. lra.
  - specialize (IH j Hj). lra.
Qed.

(** A z-score whose square is within the square of the threshold passes
    the comparison of the filter. *)
Lemma zScore_passes (e : Rounding.t) (meanValue stdDev : R) (v : Q) (index : nat)
    (threshold p : R) :
  let z := Doubles.zScore e meanValue stdDev v index in
  (0 <= threshold)%R → (0 < p)%R →
  (z * z * p <= threshold * threshold * p)%R →
  Rleb z threshold = true.
Proof.
  intros z Ht Hp Hz. unfold Rleb. destruct (Rle_dec _ _) as [|Hgt]; [done|].
  exfalso. apply Hgt. clear Hgt. clearbody z.
  apply Rnot_lt_le. intros Hlt.
  assert (H1 : (threshold * threshold < z * z)%R) by nra.
  assert (H2 : (threshold * threshold * p < z * z * p)%R)
    by (apply Rmult_lt_compat_r; assumption).
  lra.
Qed.

Lemma zScore_within (e : Rounding.t) (meanValue ε : R) (values : list Q)
    (j : nat) (v : Q) (c threshold : R) :
  bounded ε e → (0 <= ε < 1)%R →
  length values ≠ 1 → values !! j = Some v →
  (0 < c)%R →
  (c * Doubles.square e meanValue v j <= sumR (squares e meanValue values 0))%R →
  Doubles.standardDeviation e meanValue values ≠ 0%R →
  (0 <= threshold)%R →
  (INR (length values) * (1 + ε) ^ 2
   <= c * threshold ^ 2 * (1 - ε) ^ (length values + 4))%R →
  Rleb (Doubles.zScore e meanValue
          (Doubles.standardDeviation e meanValue values) v j) threshold = true.
Proof.
  intros He Hε Hlen Hj Hc Hsq Hsd Ht Hmargin.
  pose proof (zScore_bound e meanValue ε He Hε values j v c Hlen Hj
                (Rlt_le _ _ Hc) Hsq Hsd) as Hz. cbv zeta in Hz.
  apply (zScore_passes e meanValue _ v j threshold
           (c * (1 - ε) ^ (length values + 4))).
  - exact Ht.
  - apply Rmult_lt_0_compat; [exact Hc|]. apply pow_lt. lra.
  - set (z := Doubles.zScore _ _ _ _ _) in *.
    set (p := ((1 - ε) ^ (length values + 4))%R) in *.
    replace ((1 + ε) ^ 2)%R with ((1 + ε) * (1 + ε))%R in Hmargin by ring.
    replace (threshold ^ 2)%R with (threshold * threshold)%R in Hmargin by ring.
    clearbody z p. lra.
Qed.

Lemma Q2R_Qnat (n : nat) : Q2R (Qnat n) = INR n.
Proof. unfold Qnat, Q2R. simpl. rewrite INR_IZR_INZ. field. Qed.

Lemma doubles_sumNthPowerDeviations_exact (meanValue : Q) (x : list Q) (i : nat)
    (sum : Q) :
  Doubles.sumNthPowerDeviations Rounding.exact (Q2R meanValue) x i (Q2R sum)
  = Q2R (fold_left (fun s xi => s + (xi - meanValue) * (xi - meanValue))%Q x sum).
Proof.
  revert i sum. induction x as [|xi x IH]; intros i sum; [done|].
  cbn [Doubles.sumNthPowerDeviations fold_left]. rewrite <- (IH (S i)). f_equal.
  unfold Doubles.square. simpl. rewrite Q2R_plus, Q2R_mult, Q2R_minus. ring.
Qed.

Lemma doubles_standardDeviation_exact (values : list Q) :
  values ≠ [] →
  Doubles.standardDeviation Rounding.exact (Q2R (mean values)) values
  = standardDeviation values.
Proof.
  intros Hne. unfold Doubles.standardDeviation, standardDeviation.
  destruct (_ =? _)%nat; [done|].
  unfold Doubles.variance, variance, sumSquaredDeviations. cbv zeta.
  pose proof (doubles_sumNthPowerDeviations_exact (mean values) values 0 0) as HS.
  rewrite RMicromega.Q2R_0 in HS. rewrite HS.
  simpl Rounding.div. simpl Rounding.root. rewrite !Rplus_0_r, !Rmult_1_r.
  f_equal. unfold Qdiv. rewrite Q2R_mult, Q2R_inv, Q2R_Qnat; [done|].
  intros H0. destruct values; [done|]. simpl in H0. by vm_compute in H0.
Qed.

(** With every rounding error 0 and the exact mean, the filter on doubles
    is the exact filter. *)
Lemma doubles_removeOutliersZScore_exact {A} (cfg : Config) (data : list A)
    (values : list Q) :
  Doubles.removeOutliersZScore Rounding.exact (Q2R (mean values)) cfg data values
  = removeOutliersZScore cfg data values.
Proof.
  unfold Doubles.removeOutliersZScore, removeOutliersZScore.
  destruct (Nat.ltb_spec (length values) 3) as [|Hlen]; [done|]. cbv zeta.
  rewrite doubles_standardDeviation_exact
    by (destruct values; [simpl in Hlen; lia|done]).
  destruct (Reqb _ _); [done|].
  apply filter_index_ext. intros _ j. destruct (values !! j) as [v|]; [|done].
  unfold Doubles.zScore. simpl. do 2 f_equal. unfold Rdiv. ring.
Qed.

Lemma doubles_zScore_nonempty {A} (e : Rounding.t) (meanValue ε : R) (cfg : Config)
    (data : list A) (values : list Q) :
  bounded ε e → (0 <= ε < 1)%R →
  length values = length data → data ≠ [] →
  (0 <= zScoreThreshold cfg)%Q →
  ((1 + ε) ^ 2
   <= Q2R (zScoreThreshold cfg) ^ 2 * (1 - ε) ^ (length values + 4))%R →
  Doubles.removeOutliersZScore e meanValue cfg data values ≠ [].
Proof.
  intros He Hε Hlen Hne Ht Hmargin. unfold Doubles.removeOutliersZScore.
  destruct (Nat.ltb_spec (length values) 3) as [|Hn]; [done|]. cbv zeta.
  unfold Reqb. destruct (Req_dec_T _ _) as [|Hsd]; [done|].
  destruct (sumR_smallest (squares e meanValue values 0)) as (j & y & Hj & Hy).
  { destruct values; [simpl in Hn; lia|done]. }
  rewrite squares_length in Hy.
  assert (Hv : ∃ v, values !! j = Some v).
  { apply lookup_lt_is_Some. apply lookup_lt_Some in Hj.
    by rewrite squares_length in Hj. }
  destruct Hv as [v Hv].
  rewrite (squares_lookup e meanValue values 0 j v Hv) in Hj.
  injection Hj as <-. simpl in Hy.
  assert (Hd : ∃ d, data !! j = Some d).
  { apply lookup_lt_is_Some. apply lookup_lt_Some in Hv. lia. }
  destruct Hd as [d Hd].
  apply (filter_index_nonempty _ 0 j data d Hd). simpl. rewrite Hv.
  assert (Hpos : (0 < INR (length values))%R) by (apply lt_0_INR; lia).
  apply (zScore_within e meanValue ε values j v (INR (length values)));
    try assumption; [lia| |].
  - apply Qle_Rle in Ht. by rewrite RMicromega.Q2R_0 in Ht.
  - set (n := INR (length values)) in *.
    set (p := ((1 - ε) ^ (length values + 4))%R) in *.
    set (t := (Q2R (zScoreThreshold cfg) ^ 2)%R) in *.
    set (u := ((1 + ε) ^ 2)%R) in *. clearbody n p t u. nra.
Qed.

(** X19: the z-score filter on doubles never removes every data point when
    the threshold exceeds 1 by the margin of the rounding errors:
    [(1 + ε)² <= threshold² (1 - ε)^(n + 4)] for [n] values and rounding
    errors of at most [ε].  Whatever number [mean(values)] returned, the
    value nearest to it has a computed z-score within that bound. *)
Theorem zScore_keeps_one {A} (e : Rounding.t) (meanValue ε : R) (cfg : Config)
    (data : list A) (values : list Q) :
  bounded ε e → (0 <= ε < 1)%R →
  length values = length data → data ≠ [] →
  (0 <= zScoreThreshold cfg)%Q →
  ((1 + ε) ^ 2
   <= Q2R (zScoreThreshold cfg) ^ 2 * (1 - ε) ^ (length values + 4))%R →
  Doubles.removeOutliersZScore e meanValue cfg data values ≠ [].
Proof. apply doubles_zScore_nonempty. Qed.

Lemma roundoff_range : (0 < unitRoundoff <= / 1000)%R.
Proof.
  unfold unitRoundoff. split.
  - apply Rinv_0_lt_compat, pow_lt. lra.
  - apply Rinv_le_contravar; [lra|].
    change 53 with (10 + 43). rewrite pow_add.
    assert (H43 : (1 <= 2 ^ 43)%R) by (apply pow_R1_Rle; lra).
    assert (H10 : (2 ^ 10 = 1024)%R) by (simpl; ring). rewrite H10. nra.
Qed.

Lemma roundedUp_bounded : bounded unitRoundoff roundedUp.
Proof.
  pose proof roundoff_range as [Hu _].
  assert (Habs : (Rabs unitRoundoff <= unitRoundoff)%R)
    by (rewrite Rabs_pos_eq; lra).
  by repeat split.
Qed.

Lemma pow_low (r : R) (n m : nat) :
  (0 <= r <= 1)%R → n ≤ m → (r ^ m <= r ^ n)%R.
Proof.
  intros Hr Hnm. replace m with (n + (m - n)) by lia. rewrite pow_add.
  assert (Hn : (0 <= r ^ n)%R) by (apply pow_le; lra).
  assert (Hk : (r ^ (m - n) <= 1)%R).
  { rewrite <- (pow1 (m - n)). apply pow_incr. lra. }
  nra.
Qed.

Lemma roundoff_margin (n : nat) (c : R) :
  n ≤ 9 → (c <= 6)%R →
  (c * (1 + unitRoundoff) ^ 2
   <= Q2R (zScoreThreshold (newConfig RawConfig.empty)) ^ 2
      * (1 - unitRoundoff) ^ n)%R.
Proof.
  intros Hn Hc. pose proof roundoff_range as [Hu0 Hu].
  assert (Ht : Q2R (zScoreThreshold (newConfig RawConfig.empty)) = (5 / 2)%R).
  { unfold Q2R. simpl. lra. }
  rewrite Ht.
  assert (Hp : ((1 - / 1000) ^ 9 <= (1 - unitRoundoff) ^ n)%R).
  { eapply Rle_trans; [|apply pow_incr with (x := (1 - / 1000)%R); lra].
    apply pow_low; [lra|exact Hn]. }
  assert (Ha : (0 <= (1 + unitRoundoff) ^ 2 <= (1 + / 1000) ^ 2)%R).
  { split; [apply pow_le; lra|apply pow_incr; lra]. }
  assert (HK : (6 * (1 + / 1000) ^ 2 <= (5 / 2) ^ 2 * (1 - / 1000) ^ 9)%R)
    by (simpl; lra).
  set (a := ((1 + unitRoundoff) ^ 2)%R) in *.
  set (p := ((1 - unitRoundoff) ^ n)%R) in *.
  set (K1 := ((1 + / 1000) ^ 2)%R) in *.
  set (K9 := ((1 - / 1000) ^ 9)%R) in *.
  assert (Hca : (c * a <= 6 * K1)%R) by (clearbody a K1; nra).
  clearbody a p K1 K9. nra.
Qed.

Lemma zScore_keeps_one_witness :
  Doubles.removeOutliersZScore roundedUp 102 (newConfig RawConfig.empty)
    singleTimeSnapshot (map price singleTimeSnapshot) ≠ [].
Proof.
  apply (zScore_keeps_one roundedUp 102 unitRoundoff (newConfig RawConfig.empty)
           singleTimeSnapshot (map price singleTimeSnapshot)).
  - exact roundedUp_bounded.
  - pose proof roundoff_range. lra.
  - reflexivity.
  - discriminate.
  - vm_compute. discriminate.
  - rewrite <- (Rmult_1_l ((1 + unitRoundoff) ^ 2)).
    apply roundoff_margin; [simpl; lia|lra].
Defined.

(** X26: the z-score filter on doubles removes nothing from an array of
    [n] values when [n (1 + ε)² <= threshold² (1 - ε)^(n + 4)], for
    rounding errors of at most [ε]: whatever number [mean(values)]
    returned, no computed z-score exceeds [sqrt n] by more than the
    rounding errors.  With the default threshold 2.5 and the unit
    roundoff of doubles this covers every array of at most 6 values. *)
Theorem zScore_keeps_small_arrays {A} (e : Rounding.t) (meanValue ε : R)
    (cfg : Config) (data : list A) (values : list Q) :
  bounded ε e → (0 <= ε < 1)%R →
  length values = length data →
  (0 <= zScoreThreshold cfg)%Q →
  (INR (length values) * (1 + ε) ^ 2
   <= Q2R (zScoreThreshold cfg) ^ 2 * (1 - ε) ^ (length values + 4))%R →
  Doubles.removeOutliersZScore e meanValue cfg data values = data.
Proof.
  intros He Hε Hlen Ht Hmargin. unfold Doubles.removeOutliersZScore.
  destruct (Nat.ltb_spec (length values) 3) as [|Hn]; [done|]. cbv zeta.
  unfold Reqb. destruct (Req_dec_T _ _) as [|Hsd]; [done|].
  apply filter_index_all. intros j d Hd. simpl.
  assert (Hv : ∃ v, values !! j = Some v).
  { apply lookup_lt_is_Some. apply lookup_lt_Some in Hd. lia. }
  destruct Hv as [v Hv]. rewrite Hv.
  apply (zScore_within e meanValue ε values j v 1); try assumption; [lia|lra| | |].
  - rewrite Rmult_1_l.
    apply (sumR_largest (squares e meanValue values 0) j).
    + by apply (squares_Forall e meanValue ε).
    + by rewrite (squares_lookup e meanValue values 0 j v Hv).
  - apply Qle_Rle in Ht. by rewrite RMicromega.Q2R_0 in Ht.
  - by rewrite Rmult_1_l.
Qed.

Lemma zScore_keeps_small_arrays_witness :
  let data := [quote 100; quote 101; quote 99; quote 100; quote 1000000] in
  Doubles.removeOutliersZScore roundedUp 200080 (newConfig RawConfig.empty)
    data (map price data) = data.
Proof.
  intros data.
  apply (zScore_keeps_small_arrays roundedUp 200080 unitRoundoff
           (newConfig RawConfig.empty) data (map price data)).
  - exact roundedUp_bounded.
  - pose proof roundoff_range. lra.
  - reflexivity.
  - vm_compute. discriminate.
  - apply roundoff_margin; [simpl; lia|simpl; lra].
Defined.



(** ** Counters and names *)

(** X22: in a reachable service [lastUpdate] is [null] exactly when
    [totalPricesProcessed] is 0: the two are set together by
    [addPriceData] and reset together by [clearAllData]. *)
Theorem lastUpdate_null_iff_nothing_processed (s : Service) :
  reachable s →
  lastUpdate (stats s) = None ↔ totalPricesProcessed (stats s) = 0.
Proof.
  induction 1 as [cfg|s token priceData now Hr IH|s token _ IH|s _ IH
                 |s token w now _ IH|s token w now _ IH|s token now _ IH].
  - done.
  - destruct (normalizePriceData s priceData now) as [nd|e] eqn:Hn.
    + rewrite (addPriceData_stored _ _ _ _ _ (reachable_paired s Hr) Hn). by simpl.
    + by rewrite (addPriceData_thrown _ _ _ _ _ Hn).
  - done.
  - done.
  - destruct (calculateVWAP_snd s token w now) as [o ->]. exact IH.
  - destruct (calculateTWAP_snd s token w now) as [o ->]. exact IH.
  - destruct (calculateWeightedAverage_snd s token now) as [o ->]. exact IH.
Qed.

Lemma lastUpdate_null_iff_nothing_processed_witness :
  let s := addAll defaultService "SOL/USDC" basicVWAPData 1000 in
  lastUpdate (stats s) = None ↔ totalPricesProcessed (stats s) = 0.
Proof.
  intros s. apply (lastUpdate_null_iff_nothing_processed s).
  apply reachable_addAll, reachable_new.
Defined.

Lemma normalizePriceData_source s priceData now normalizedData :
  normalizePriceData s priceData now = Ok normalizedData →
  source normalizedData ≠ "".
Proof.
  unfold normalizePriceData. intros Hn.
  destruct (Decimal (if truthy (Raw.price priceData) then _ else _)) as [p|];
    simpl in Hn; [|done].
  destruct (if truthy (Raw.volume priceData) then _ else _) as [v|];
    simpl in Hn; [|done].
  injection Hn as <-. simpl.
  destruct (Raw.source priceData) as [src|]; [|done].
  destruct (String.eqb_spec src ""); [done|done].
Qed.

(** X23: every stored data point of a reachable service has a source
    name, ["unknown"] if none was given, so the empty name is never among
    the active sources or the sources of a TWAP result. *)
Theorem sources_are_named (s : Service) (token : string) (now : Z) :
  reachable s →
  (∀ history d, priceHistory s !! token = Some history → d ∈ history →
                source d ≠ "")
  ∧ ("" ∉ getActiveSources s token now)
  ∧ ∀ windowMs r, (calculateTWAP s token windowMs now).1 = Ok r →
                  "" ∉ TWAP.sources r.
Proof.
  intros Hr.
  assert (Hall : ∀ history d, priceHistory s !! token = Some history →
                              d ∈ history → source d ≠ "").
  { intros history d. revert s Hr token history d.
    apply (reachable_price_entries (λ d, source d ≠ "")).
    intros s priceData now' nd _ Hn. by eapply normalizePriceData_source. }
  split; [exact Hall|]. split.
  - unfold getActiveSources.
    destruct (priceHistory s !! token) as [history|] eqn:Hh; [|apply not_elem_of_nil].
    intros Hin. apply uniq_elem_of in Hin as [Hin _].
    apply list_elem_of_fmap in Hin as (d & Hsrc & Hd).
    apply list_elem_of_In, filter_In in Hd as [Hd _].
    apply (Hall history d eq_refl); [by apply list_elem_of_In | done].
  - intros windowMs r Hok. rewrite calculateTWAP_value in Hok.
    destruct (priceHistory s !! token) as [history|] eqn:Hh; [|done].
    simpl default in Hok. apply twapValue_inv in Hok as (_ & _ & ->). simpl.
    intros Hin. apply uniq_elem_of in Hin as [Hin _].
    apply list_elem_of_fmap in Hin as (d & Hsrc & Hd).
    apply (Hall history d eq_refl); [|done].
    eapply twapRelevant_elem_of, elem_of_sublist; [exact Hd|].
    apply survivors_sublist.
Qed.

Lemma sources_are_named_witness :
  let s := addPriceData defaultService "SOL/USDC"
             {| Raw.price := Number 100; Raw.volume := Undefined;
                Raw.timestamp := None; Raw.source := Some "";
                Raw.metadata := None |} 1000 in
  (getActiveSources s "SOL/USDC" 1000 = ["unknown"])
  ∧ ("" ∉ getActiveSources s "SOL/USDC" 1000).
Proof.
  intros s. split; [vm_compute; reflexivity|].
  apply (sources_are_named s "SOL/USDC" 1000).
  apply reachable_addPriceData, reachable_new.
Defined.

(** ** When the calculators return *)

Lemma vwapTotals_pos (cleanData : list Vol.t) :
  cleanData ≠ [] → (∀ d, d ∈ cleanData → (0 < Vol.volume d)%Q) →
  (0 < (vwapTotals cleanData).2)%Q.
Proof.
  intros Hne Hall. unfold vwapTotals.
  assert (Hgen : ∀ (l : list Vol.t) (acc : Q * Q),
            (∀ d, d ∈ l → (0 < Vol.volume d)%Q) →
            (0 <= acc.2)%Q → (l ≠ [] ∨ 0 < acc.2)%Q →
            (0 < (fold_left
                    (λ '(totalVolumePrice, totalVolume) data,
                       let volumePrice := (Vol.price data * Vol.volume data)%Q in
                       ((totalVolumePrice + volumePrice)%Q,
                        (totalVolume + Vol.volume data)%Q)) l acc).2)%Q).
  { induction l as [|x l IH]; intros [a b] Hl Hb Hor; simpl in *.
    - by destruct Hor.
    - assert (Hx : (0 < Vol.volume x)%Q) by (apply Hl; by left).
      apply IH; simpl.
      + intros d Hd. apply Hl. by right.
      + lra.
      + right. lra. }
  apply Hgen; simpl; [done|lra|by left].
Qed.

(** X24: on a reachable service whose volume floor is not negative,
    [calculateVWAP] never throws "Total volume is zero"; with at least
    [minDataPoints] volume entries of the token inside the window and
    above the floor it returns, unless the filters removed every data
    point, and with fewer it throws before any filter runs. *)
Theorem calculateVWAP_never_zero_volume (s : Service) (token : string)
    (windowMs : option Z) (now : Z) :
  reachable s →
  (0 <= minVolume (config s))%Q →
  (calculateVWAP s token windowMs now).1 ≠ Err ZeroVolume
  ∧ (minDataPoints (config s)
     ≤ length (vwapRelevant (config s)
                 (now - orZ windowMs (vwapWindow (config s)))
                 (default [] (volumeHistory s !! token)))
     ↔ (∃ r, (calculateVWAP s token windowMs now).1 = Ok r)
       ∨ (calculateVWAP s token windowMs now).1 = Err AllOutliers).
Proof.
  intros Hr Hmin.
  destruct (reachable_config s Hr) as [raw Hraw].
  assert (Hpoints : 0 < minDataPoints (config s)).
  { rewrite Hraw. simpl. unfold orNat.
    destruct (RawConfig.minDataPoints raw) as [n|]; [|lia].
    destruct (Nat.eqb_spec n 0); lia. }
  rewrite calculateVWAP_value.
  set (vh := default [] (volumeHistory s !! token)).
  assert (Hvh : ∀ cutoffTime d, d ∈ vwapRelevant (config s) cutoffTime vh →
                                (0 < Vol.volume d)%Q).
  { intros cutoffTime d Hd. apply vwapRelevant_floor in Hd as (Hin & _ & Hfloor).
    apply Qnonneg_nonzero_pos; [eapply Qle_trans; [exact Hmin|exact Hfloor]|].
    unfold vh in Hin.
    destruct (volumeHistory s !! token) as [vh'|] eqn:Hlook;
      [|by apply elem_of_nil in Hin].
    by eapply reachable_volume_nonzero. }
  unfold vwapValue. cbv zeta.
  destruct vh as [|d vh'] eqn:Hvhd.
  { split; [done|]. simpl. split; [lia|]. by intros [[r Hok]|Hall]. }
  rewrite <- Hvhd in *. clear Hvhd.
  set (rel := vwapRelevant _ _ vh) in *.
  destruct (Nat.ltb_spec (length rel) (minDataPoints (config s))) as [Hlt|Hge].
  { split; [done|]. split; [lia|]. by intros [[r Hok]|Hall]. }
  destruct (survivors (config s) rel) as [|c clean] eqn:Hclean.
  { simpl. split; [done|]. split; [by right|done]. }
  simpl length. simpl Nat.eqb. cbv iota.
  destruct (Qeq_bool _ 0) eqn:Hz.
  { exfalso. apply Qeq_bool_iff in Hz.
    assert (Hpos : (0 < (vwapTotals (c :: clean)).2)%Q).
    { apply vwapTotals_pos; [done|].
      intros x Hx. apply (Hvh (now - orZ windowMs (vwapWindow (config s)))%Z).
      fold rel. eapply elem_of_sublist; [|apply (survivors_sublist (config s) rel)].
      by rewrite Hclean. }
    rewrite Hz in Hpos. by apply Qlt_irrefl in Hpos. }
  split; [done|]. split; [|done]. intros _. left. by eexists.
Qed.

Lemma calculateVWAP_never_zero_volume_witness :
  let s := addAll defaultService "SOL/USDC" basicVWAPData 1000 in
  (calculateVWAP s "SOL/USDC" None 1000).1 ≠ Err ZeroVolume
  ∧ (minDataPoints (config s)
     ≤ length (vwapRelevant (config s)
                 (1000 - orZ None (vwapWindow (config s)))
                 (default [] (volumeHistory s !! "SOL/USDC")))
     ↔ (∃ r, (calculateVWAP s "SOL/USDC" None 1000).1 = Ok r)
       ∨ (calculateVWAP s "SOL/USDC" None 1000).1 = Err AllOutliers).
Proof.
  intros s. apply (calculateVWAP_never_zero_volume s "SOL/USDC" None 1000).
  - apply reachable_addAll, reachable_new.
  - vm_compute. discriminate.
Defined.

(** * Properties of the data collector *)

Import DataCollector.

(** The events of the attempts [a] to [k], the last of which ends the
    loop. *)
Lemma makeRequest_loop_from {Data Error : Type} (get : nat → Data + Error)
    (retryAttempts k : nat) (fuel a : nat) :
  a ≤ k → k ≤ retryAttempts → k - a < fuel →
  (∀ b, a ≤ b < k → ∃ error, get b = inr error) →
  makeRequest_loop get retryAttempts a fuel
  = (match get k with
     | inl data => Returned data
     | inr error =>
         if (k =? retryAttempts)%nat then Thrown error
         else (makeRequest_loop get retryAttempts (S k) (fuel - S (k - a))).1
     end,
     concat (map (λ b, [Request b; Wait (2 ^ Z.of_nat b * 1000)]) (seq a (k - a)))
     ++ match get k with
        | inl _ => [Request k]
        | inr _ =>
            if (k =? retryAttempts)%nat then [Request k]
            else Request k :: Wait (2 ^ Z.of_nat k * 1000)
                 :: (makeRequest_loop get retryAttempts (S k) (fuel - S (k - a))).2
        end).
Proof.
  revert a. induction fuel as [|fuel IH]; intros a Hak Hkn Hfuel Hfail; [lia|].
  simpl makeRequest_loop.
  replace (a <=? retryAttempts)%nat with true by (symmetry; apply Nat.leb_le; lia).
  destruct (decide (a = k)) as [->|Hne].
  - rewrite Nat.sub_diag. simpl concat. simpl app.
    destruct (get k) as [data|error]; [done|].
    destruct (k =? retryAttempts)%nat; [done|].
    rewrite Nat.sub_0_r.
    by destruct (makeRequest_loop get retryAttempts (S k) fuel).
  - destruct (Hfail a) as [error Ha]; [lia|]. rewrite Ha.
    replace (a =? retryAttempts)%nat with false by (symmetry; apply Nat.eqb_neq; lia).
    rewrite (IH (S a)); [|lia|lia|lia|intros b Hb; apply Hfail; lia].
    replace (k - a) with (S (k - S a)) by lia.
    replace (S fuel - S (S (k - S a))) with (fuel - S (k - S a)) by lia.
    reflexivity.
Qed.

Lemma waited_retries_from (a m k : nat) :
  waited (concat (map (λ b, [Request b; Wait (2 ^ Z.of_nat b * 1000)]) (seq a m))
          ++ [Request k])
  = ((2 ^ Z.of_nat (a + m) - 2 ^ Z.of_nat a) * 1000)%Z.
Proof.
  revert a. induction m as [|m IH]; intros a.
  - simpl. rewrite Nat.add_0_r. lia.
  - cbn [seq map concat app]. cbn [waited fold_right].
    fold (waited (concat (map (λ b, [Request b; Wait (2 ^ Z.of_nat b * 1000)])
                            (seq (S a) m)) ++ [Request k])).
    rewrite IH.
    replace (Z.of_nat (S a + m)) with (Z.of_nat (a + S m)) by lia.
    replace (Z.of_nat (S a)) with (Z.succ (Z.of_nat a)) by lia.
    rewrite Z.pow_succ_r by lia. lia.
Qed.

(** X27: [makeRequest] returns the data of the first attempt that
    succeeds, after a request for each earlier attempt [a] followed by a
    wait of [2^a] seconds; when attempt number [retryAttempts] fails
    too, it throws the error of that attempt without waiting again.  The
    time waited before attempt [k] is [2^k - 2] seconds.  With
    [retryAttempts] 0 it makes no request and returns [undefined]. *)
Theorem makeRequest_retries {Data Error : Type} (get : nat → Data + Error)
    (retryAttempts k : nat) :
  1 ≤ k ≤ retryAttempts →
  (∀ a, 1 ≤ a < k → ∃ error, get a = inr error) →
  match get k with
  | inl data => makeRequest get retryAttempts = (Returned data, retries k)
  | inr error =>
      k = retryAttempts →
      makeRequest get retryAttempts = (Thrown error, retries k)
  end
  ∧ waited (retries k) = ((2 ^ Z.of_nat k - 2) * 1000)%Z
  ∧ makeRequest get 0 = (ReturnedUndefined, []).
Proof.
  intros Hk Hfail. split; [|split; [|done]].
  - unfold makeRequest, retries.
    rewrite (makeRequest_loop_from get retryAttempts k retryAttempts 1);
      [|lia|lia|lia|exact Hfail].
    destruct (get k) as [data|error]; [done|].
    intros ->. by rewrite Nat.eqb_refl.
  - unfold retries. rewrite waited_retries_from.
    replace (1 + (k - 1)) with k by lia. done.
Qed.

Lemma makeRequest_retries_witness :
  let get (attempt : nat) : string + string :=
    if (attempt <? 3)%nat then inr "ETIMEDOUT" else inl "ticker" in
  makeRequest get 3
  = (Returned "ticker",
     [Request 1; Wait 2000; Request 2; Wait 4000; Request 3])
  ∧ waited (retries 3) = 6000%Z.
Proof.
  intros get.
  destruct (makeRequest_retries get 3 3) as (Hr & Hw & _).
  - lia.
  - intros a Ha. exists "ETIMEDOUT". unfold get.
    by replace (a <? 3)%nat with true by (symmetry; apply Nat.ltb_lt; lia).
  - split; [exact Hr | exact Hw].
Defined.
